(** * ct.crypto.my_asn1.types: a shallow embedding and its properties

    The development follows [src/python/ct/crypto/my_asn1/types.py]:
    - Python 2 [str] values (byte strings) are [list byte];
    - Python integers are [Z], with [&], [|], [<<], [>>] as [Z.land],
      [Z.lor], [Z.shiftl], [Z.shiftr];
    - a raised exception is the [Raise] outcome of the [result] monad;
    - a class (an ASN.1 type specification) is a term of [asn1_type], and the
      methods of the class are functions of that descriptor;
    - an instance is a term of [inst]: its [_value], by kind. *)

From Stdlib Require Import ZArith List Bool Lia String Ascii.
From Stdlib Require Import Strings.Byte.
From Stdlib Require Import Sorting.Sorted Sorting.Permutation.
Import ListNotations.

Set Warnings "-register-all".

Local Open Scope Z_scope.
Local Open Scope list_scope.

(** ** Exceptions and the result monad *)

(** Modelled from the spec: the module [ct.crypto.error] is not part of the
    sources.  The spec asks for two distinguishable failure kinds, "malformed
    encoding" ([error.ASN1Error] in the code) and "tag mismatch"
    ([error.ASN1TagError]).  The next five constructors are the Python
    built-in exceptions the module raises.  [Diverges] is not an exception:
    it is the outcome of a [while] loop the model cuts short, after as many
    turns as the buffer has bytes; [decode_loop_no_Diverges] shows that a
    loop whose every turn consumes a byte never has this outcome. *)
Inductive exn : Type :=
| ASN1Error
| ASN1TagError
| TypeError
| ValueError
| KeyError
| AttributeError
| NotImplementedError
| Diverges.

Inductive result (A : Type) : Type :=
| Ok (a : A)
| Raise (e : exn).

Arguments Ok {A} a.
Arguments Raise {A} e.

Definition bind {A B : Type} (m : result A) (k : A -> result B) : result B :=
  match m with
  | Ok a => k a
  | Raise e => Raise e
  end.

Notation "x <- m ;; k" := (bind m (fun x => k))
  (at level 61, m at next level, right associativity).
Notation "' pat <- m ;; k" := (bind m (fun x => match x with pat => k end))
  (at level 61, pat pattern, m at next level, right associativity).

(** Modelled from the spec: section 4.7 says that in lenient mode a failed
    defined-by decode is swallowed whatever its kind, so the handler
    [except error.ASN1Error] catches a tag mismatch as well. *)
Definition is_ASN1Error (e : exn) : bool :=
  match e with
  | ASN1Error | ASN1TagError => true
  | _ => false
  end.

Definition is_ok {A : Type} (r : result A) : bool :=
  match r with Ok _ => true | Raise _ => false end.

(** ** Byte strings *)

Definition str : Type := list byte.

Definition ord (b : byte) : Z := Z.of_N (Byte.to_N b).

(** [chr(i)] raises [ValueError] outside [range(256)]. *)
Definition chr (i : Z) : result byte :=
  if (i <? 0) || (255 <? i) then Raise ValueError
  else match Byte.of_N (Z.to_N i) with
       | Some b => Ok b
       | None => Raise ValueError
       end.

(** The byte stored by [bytearray.append(i)] for an [i] the code has already
    reduced to [0..255]. *)
Definition byte_of (i : Z) : byte :=
  match Byte.of_N (Z.to_N i) with
  | Some b => b
  | None => x00
  end.

Definition len {A : Type} (l : list A) : Z := Z.of_nat (List.length l).

(** [buf[:n]] and [buf[n:]] for a non-negative [n]. *)
Definition slice_to {A : Type} (buf : list A) (n : Z) : list A :=
  firstn (Z.to_nat n) buf.
Definition slice_from {A : Type} (buf : list A) (n : Z) : list A :=
  skipn (Z.to_nat n) buf.

(** [buf[-n:]] and [buf[:-n]] for a positive [n]. *)
Definition slice_last {A : Type} (buf : list A) (n : Z) : list A :=
  skipn (List.length buf - Z.to_nat n) buf.
Definition slice_drop_last {A : Type} (buf : list A) (n : Z) : list A :=
  firstn (List.length buf - Z.to_nat n) buf.

Definition str_eqb (a b : str) : bool :=
  if list_eq_dec Byte.byte_eq_dec a b then true else false.

(** Comparison of two [str]: byte by byte, a proper prefix comes first. *)
Fixpoint str_leb (a b : str) : bool :=
  match a, b with
  | [], _ => true
  | _ :: _, [] => false
  | x :: a', y :: b' =>
      if ord x <? ord y then true
      else if ord y <? ord x then false
      else str_leb a' b'
  end.

(** [list.sort()] on a list of [str]. *)
Fixpoint insert_sorted (x : str) (l : list str) : list str :=
  match l with
  | [] => [x]
  | y :: l' => if str_leb x y then x :: l else y :: insert_sorted x l'
  end.

Definition sort (l : list str) : list str :=
  fold_right insert_sorted [] l.

(** ** Integer and length primitives *)

Definition _ZERO : str := [x00].
Definition _MINUS_ONE : str := [xff].

(** The [while value != 0 and value != -1] loop of [encode_int]; the bytes
    are appended least significant first.  Every turn drops eight bits of
    [value], so [fuel] turns are enough when [|value| < 2^(8*fuel)]. *)
Fixpoint encode_int_loop (fuel : nat) (value : Z) (int_bytes : list byte)
  : Z * list byte :=
  match fuel with
  | O => (value, int_bytes)
  | S fuel' =>
      if (value =? 0) || (value =? -1) then (value, int_bytes)
      else encode_int_loop fuel' (Z.shiftr value 8)
                           (int_bytes ++ [byte_of (Z.land value 255)])
  end.

Definition encode_int_fuel (value : Z) : nat :=
  S (Z.to_nat (Z.log2 (Z.abs value))).

Definition last_byte (int_bytes : list byte) : Z := ord (last int_bytes x00).

Definition encode_int (value : Z) (signed : bool) : result str :=
  if negb signed && (value <? 0) then Raise ValueError
  else if value =? 0 then Ok _ZERO
  else if value =? -1 then Ok _MINUS_ONE
  else
    let '(value', int_bytes) :=
      encode_int_loop (encode_int_fuel value) value [] in
    let int_bytes :=
      if signed then
        if (value' =? -1) && (last_byte int_bytes <=? 127)
        then int_bytes ++ [xff]
        else if (value' =? 0) && (127 <? last_byte int_bytes)
        then int_bytes ++ [x00]
        else int_bytes
      else int_bytes in
    Ok (rev int_bytes).

Definition decode_int (buf : str) (signed : bool) : result Z :=
  match buf with
  | [] => Raise ASN1Error
  | b0 :: int_bytes =>
      let leading := ord b0 in
      let extra_zero :=
        match int_bytes with
        | [] => false
        | b1 :: _ => (leading =? 0) && (ord b1 <? 128)
        end in
      let extra_ff :=
        match int_bytes with
        | [] => false
        | b1 :: _ => signed && (leading =? 255) && (128 <=? ord b1)
        end in
      if extra_zero then Raise ASN1Error
      else if extra_ff then Raise ASN1Error
      else
        let leading :=
          if signed && (127 <? leading) then leading - 256 else leading in
        Ok (fold_left (fun acc b => Z.shiftl acc 8 + ord b) int_bytes leading)
  end.

Definition _MULTIBYTE_LENGTH : Z := 128.
Definition _MULTIBYTE_LENGTH_MASK : Z := 127.

Definition encode_length (length : Z) : result str :=
  if length <=? 127 then
    c <- chr length ;; Ok [c]
  else
    encoded_length <- encode_int length false ;;
    c <- chr (Z.lor _MULTIBYTE_LENGTH (len encoded_length)) ;;
    Ok (c :: encoded_length).

Definition read_length (buf : str) : result (Z * str) :=
  match buf with
  | [] => Raise ASN1Error
  | b0 :: rest =>
      let length := ord b0 in
      if length <=? 127 then Ok (length, rest)
      else
        let length := Z.land length _MULTIBYTE_LENGTH_MASK in
        if len rest <? length then Raise ASN1Error
        else
          n <- decode_int (slice_to rest length) false ;;
          Ok (n, slice_from rest length)
  end.

(** ** Tags *)

(** Modelled from the spec: the module [ct.crypto.my_asn1.tag] is not part of
    the sources.  Following the spec (sections 3 and 6) a tag is a class, a
    non-negative number and a primitive/constructed bit; its wire form is one
    byte holding the class (two bits), the constructed flag (one bit) and the
    number (five bits), or, for a number of 31 and above, that byte with the
    five number bits set followed by the number in base 128, most significant
    digit first, every digit but the last with its high bit set.  [len(t)] is
    the number of bytes of [t.value]; equality is equality of the triple. *)
Module tag.

Inductive class_t : Type := UNIVERSAL | APPLICATION | CONTEXT_SPECIFIC | PRIVATE.
Inductive encoding_t : Type := PRIMITIVE | CONSTRUCTED.

Record Tag : Type := mk {
  number : N;
  tag_class : class_t;
  encoding : encoding_t
}.

Definition class_bits (c : class_t) : Z :=
  match c with
  | UNIVERSAL => 0
  | APPLICATION => 64
  | CONTEXT_SPECIFIC => 128
  | PRIVATE => 192
  end.

Definition encoding_bit (e : encoding_t) : Z :=
  match e with
  | PRIMITIVE => 0
  | CONSTRUCTED => 32
  end.

Definition class_eqb (a b : class_t) : bool :=
  match a, b with
  | UNIVERSAL, UNIVERSAL | APPLICATION, APPLICATION
  | CONTEXT_SPECIFIC, CONTEXT_SPECIFIC | PRIVATE, PRIVATE => true
  | _, _ => false
  end.

Definition encoding_eqb (a b : encoding_t) : bool :=
  match a, b with
  | PRIMITIVE, PRIMITIVE | CONSTRUCTED, CONSTRUCTED => true
  | _, _ => false
  end.

Definition eqb (a b : Tag) : bool :=
  N.eqb (number a) (number b)
  && class_eqb (tag_class a) (tag_class b)
  && encoding_eqb (encoding a) (encoding b).

(** The base-128 digits of [n], most significant first; [acc] holds the
    digits already produced. *)
Fixpoint base128 (fuel : nat) (n : N) (acc : list byte) : list byte :=
  match fuel with
  | O => acc
  | S fuel' =>
      if N.eqb n 0 then acc
      else
        let digit := Z.of_N (N.land n 127) in
        let digit := match acc with [] => digit | _ => Z.lor digit 128 end in
        base128 fuel' (N.shiftr n 7) (byte_of digit :: acc)
  end.

Definition value (t : Tag) : str :=
  let lead := Z.lor (class_bits (tag_class t)) (encoding_bit (encoding t)) in
  if N.leb (number t) 30
  then [byte_of (Z.lor lead (Z.of_N (number t)))]
  else byte_of (Z.lor lead 31)
         :: base128 (S (N.to_nat (N.size (number t)))) (number t) [].

Definition length (t : Tag) : Z := len (value t).

Definition class_of_bits (b : Z) : class_t :=
  match Z.shiftr b 6 with
  | 0 => UNIVERSAL
  | 1 => APPLICATION
  | 2 => CONTEXT_SPECIFIC
  | _ => PRIVATE
  end.

Definition encoding_of_bits (b : Z) : encoding_t :=
  if Z.testbit b 5 then CONSTRUCTED else PRIMITIVE.

(** The digits of a high tag number: read up to the first byte without the
    continuation bit.  Running out of bytes is a malformed encoding. *)
Fixpoint read_base128 (buf : str) (acc : N) : result (N * str) :=
  match buf with
  | [] => Raise ASN1Error
  | b :: rest =>
      let acc := N.lor (N.shiftl acc 7) (N.land (Byte.to_N b) 127) in
      if Z.testbit (ord b) 7 then read_base128 rest acc
      else Ok (acc, rest)
  end.

(** [Tag.read(buf)]: the tag at the head of [buf] and the remaining bytes.
    The spec lists an empty buffer among the malformed encodings. *)
Definition read (buf : str) : result (Tag * str) :=
  match buf with
  | [] => Raise ASN1Error
  | b :: rest =>
      let id := ord b in
      let c := class_of_bits id in
      let e := encoding_of_bits id in
      if Z.land id 31 =? 31 then
        '(n, rest') <- read_base128 rest 0%N ;;
        Ok (mk n c e, rest')
      else Ok (mk (Z.to_N (Z.land id 31)) c e, rest)
  end.

End tag.

(** ** Instances and classes *)

(** The state of an instance: its [_value] attribute, by kind.
    - [Boolean]: a Python [bool]; [Integer]: an integer;
    - the string kinds and [BitString]: a [str] (for a [BitString], of the
      characters '0' and '1');
    - [Any]: the undecoded [str], together with [_decoded_value];
    - [Choice]: a dict from component name to instance;
    - [SequenceOf], [SetOf]: a list of instances;
    - [Sequence]: a dict from component name to instance or [None].
    Dicts keep their entries in insertion order, with distinct keys. *)
Inductive inst : Type :=
| VBool (b : bool)
| VInt (i : Z)
| VStr (s : str)
| VAny (raw : str) (decoded_value : option inst)
| VChoice (d : list (string * inst))
| VRepeated (l : list inst)
| VSequence (d : list (string * option inst)).

(** [Component]: a sequence component specification, over the type [T] of
    classes.  [lookup] is the dict of a defined-by component, from the value
    of the defining component to the class to decode with. *)
Record Component_ (T : Type) : Type := mkComponent {
  name : string;
  value_type : T;
  default : option inst;
  encoded_default : option str;
  optional : bool;
  defined_by : option string;
  lookup : list (inst * T)
}.

Arguments mkComponent {T}.
Arguments name {T}.
Arguments value_type {T}.
Arguments default {T}.
Arguments encoded_default {T}.
Arguments optional {T}.
Arguments defined_by {T}.
Arguments lookup {T}.

(** A class of the module: its kind, its [tags] tuple (innermost tag first,
    outermost last) and the class attributes of the kind: [components] of a
    [Choice] (a dict from name to class) and of a [Sequence] (a tuple of
    [Component]), [component] of a [SequenceOf] or [SetOf].  The nine string
    classes share [ASN1String] and differ in their tags only. *)
Inductive asn1_type : Type :=
| Boolean (tags : list tag.Tag)
| Integer (tags : list tag.Tag)
| ASN1String (tags : list tag.Tag)
| BitString (tags : list tag.Tag)
| Any (tags : list tag.Tag)
| Choice (tags : list tag.Tag) (components : list (string * asn1_type))
| SequenceOf (tags : list tag.Tag) (component : asn1_type)
| SetOf (tags : list tag.Tag) (component : asn1_type)
| Sequence (tags : list tag.Tag) (components : list (Component_ asn1_type)).

Definition Component : Type := Component_ asn1_type.

Definition tags (cls : asn1_type) : list tag.Tag :=
  match cls with
  | Boolean t | Integer t | ASN1String t | BitString t | Any t
  | Choice t _ | SequenceOf t _ | SetOf t _ | Sequence t _ => t
  end.

(** What an initializer or an assigned value can be: [None], a [bool], an
    integer, a [str], a dict with [str] keys, a list, or an instance of a
    class of this module.  A class is identified with its descriptor. *)
Inductive pyobj : Type :=
| PyNone
| PyBool (b : bool)
| PyInt (i : Z)
| PyStr (s : str)
| PyDict (d : list (string * pyobj))
| PyList (l : list pyobj)
| PyInst (cls : asn1_type) (v : inst).

(** ** Dicts and generic helpers *)

Fixpoint dict_get {A : Type} (d : list (string * A)) (k : string) : option A :=
  match d with
  | [] => None
  | (k', a) :: d' => if String.eqb k' k then Some a else dict_get d' k
  end.

(** [d[k] = a] *)
Fixpoint dict_set {A : Type} (d : list (string * A)) (k : string) (a : A)
  : list (string * A) :=
  match d with
  | [] => [(k, a)]
  | (k', a') :: d' =>
      if String.eqb k' k then (k, a) :: d' else (k', a') :: dict_set d' k a
  end.

Definition dict_mem {A : Type} (d : list (string * A)) (k : string) : bool :=
  match dict_get d k with Some _ => true | None => false end.

(** [[f(x) for x in l]], stopping at the first exception. *)
Definition map_result {A B : Type} (f : A -> result B)
  : list A -> result (list B) :=
  fix go (l : list A) : result (list B) :=
    match l with
    | [] => Ok []
    | x :: l' => y <- f x ;; ys <- go l' ;; Ok (y :: ys)
    end.

Definition list_eqb {A B : Type} (f : A -> B -> bool)
  : list A -> list B -> bool :=
  fix go (l1 : list A) (l2 : list B) : bool :=
    match l1, l2 with
    | [], [] => true
    | x :: l1', y :: l2' => f x y && go l1' l2'
    | _, _ => false
    end.

Definition option_eqb {A B : Type} (f : A -> B -> bool)
  (o1 : option A) (o2 : option B) : bool :=
  match o1, o2 with
  | None, None => true
  | Some x, Some y => f x y
  | _, _ => false
  end.

(** Equality of two dicts: the same keys, bound to equal values. *)
Definition dict_eqb {A B : Type} (f : A -> B -> bool)
  (d1 : list (string * A)) (d2 : list (string * B)) : bool :=
  (List.length d1 =? List.length d2)%nat
  && (fix go (d : list (string * A)) : bool :=
        match d with
        | [] => true
        | (k, x) :: d' =>
            match dict_get d2 k with
            | Some y => f x y && go d'
            | None => false
            end
        end) d1.

(** ** Equality of instances

    [Abstract.__eq__] compares [self.value] with the other object, and the
    comparison of the values recurses into the instances they hold; [Any]
    compares its undecoded value only. *)
Fixpoint py_eq (a b : inst) {struct a} : bool :=
  match a, b with
  | VBool x, VBool y => Bool.eqb x y
  | VBool x, VInt y | VInt y, VBool x => Z.b2z x =? y
  | VInt x, VInt y => x =? y
  | VStr x, VStr y | VStr x, VAny y _
  | VAny x _, VStr y | VAny x _, VAny y _ => str_eqb x y
  | VRepeated l1, VRepeated l2 => list_eqb py_eq l1 l2
  | VChoice d1, VChoice d2 => dict_eqb py_eq d1 d2
  | VChoice d1, VSequence d2 =>
      dict_eqb (fun x oy => match oy with Some y => py_eq x y | None => false end)
               d1 d2
  | VSequence d1, VChoice d2 =>
      dict_eqb (fun ox y => match ox with Some x => py_eq x y | None => false end)
               d1 d2
  | VSequence d1, VSequence d2 => dict_eqb (option_eqb py_eq) d1 d2
  | _, _ => false
  end.

(** ** Identity of classes

    [type(value) is spec] compares two classes; with classes identified with
    their descriptors this is equality of descriptors. *)
Fixpoint value_eqb (a b : inst) {struct a} : bool :=
  match a, b with
  | VBool x, VBool y => Bool.eqb x y
  | VInt x, VInt y => x =? y
  | VStr x, VStr y => str_eqb x y
  | VAny x dx, VAny y dy => str_eqb x y && option_eqb value_eqb dx dy
  | VChoice d1, VChoice d2 =>
      list_eqb (fun p q => String.eqb (fst p) (fst q) && value_eqb (snd p) (snd q))
               d1 d2
  | VRepeated l1, VRepeated l2 => list_eqb value_eqb l1 l2
  | VSequence d1, VSequence d2 =>
      list_eqb (fun p q => String.eqb (fst p) (fst q)
                           && option_eqb value_eqb (snd p) (snd q))
               d1 d2
  | _, _ => false
  end.

Definition tags_eqb (t1 t2 : list tag.Tag) : bool := list_eqb tag.eqb t1 t2.

Definition option_str_eqb (a b : option str) : bool := option_eqb str_eqb a b.

Definition option_string_eqb (a b : option string) : bool :=
  option_eqb String.eqb a b.

Fixpoint asn1_type_eqb (a b : asn1_type) {struct a} : bool :=
  match a, b with
  | Boolean t1, Boolean t2 | Integer t1, Integer t2
  | ASN1String t1, ASN1String t2 | BitString t1, BitString t2
  | Any t1, Any t2 => tags_eqb t1 t2
  | Choice t1 c1, Choice t2 c2 =>
      tags_eqb t1 t2
      && list_eqb (fun p q => String.eqb (fst p) (fst q)
                              && asn1_type_eqb (snd p) (snd q)) c1 c2
  | SequenceOf t1 c1, SequenceOf t2 c2 | SetOf t1 c1, SetOf t2 c2 =>
      tags_eqb t1 t2 && asn1_type_eqb c1 c2
  | Sequence t1 c1, Sequence t2 c2 =>
      tags_eqb t1 t2
      && list_eqb
           (fun p q =>
              String.eqb (name p) (name q)
              && asn1_type_eqb (value_type p) (value_type q)
              && option_eqb value_eqb (default p) (default q)
              && option_str_eqb (encoded_default p) (encoded_default q)
              && Bool.eqb (optional p) (optional q)
              && option_string_eqb (defined_by p) (defined_by q)
              && list_eqb (fun x y => value_eqb (fst x) (fst y)
                                      && asn1_type_eqb (snd x) (snd y))
                          (lookup p) (lookup q))
           c1 c2
  | _, _ => false
  end.

(** ** Python protocols on initializers *)

Definition is_ASN1String (cls : asn1_type) : bool :=
  match cls with ASN1String _ => true | _ => false end.

Definition is_BitString (cls : asn1_type) : bool :=
  match cls with BitString _ => true | _ => false end.

Definition is_Any (cls : asn1_type) : bool :=
  match cls with Any _ => true | _ => false end.

(** [Simple]: [Boolean], [Integer] and the string classes. *)
Definition is_Simple (cls : asn1_type) : bool :=
  match cls with
  | Boolean _ | Integer _ | ASN1String _ => true
  | _ => false
  end.

Definition str_of_name (k : string) : str := list_byte_of_string k.
Definition name_of_str (s : str) : string := string_of_list_byte s.

(** [len(x)]: defined for [str], dicts, lists and the instances of the
    container classes ([Choice], [Sequence], [SequenceOf], [SetOf]). *)
Definition py_len (x : pyobj) : result Z :=
  match x with
  | PyStr s => Ok (len s)
  | PyDict d => Ok (len d)
  | PyList l => Ok (len l)
  | PyInst (Choice _ _) (VChoice d) => Ok (len d)
  | PyInst (SequenceOf _ _) (VRepeated l)
  | PyInst (SetOf _ _) (VRepeated l) => Ok (len l)
  | PyInst (Sequence _ components) _ => Ok (len components)
  | _ => Raise TypeError
  end.

(** [bool(x)]: [Simple.__nonzero__] is [bool(self.value)], the container
    classes answer by [__len__], the other instances are true. *)
Definition py_bool (x : pyobj) : bool :=
  match x with
  | PyNone => false
  | PyBool b => b
  | PyInt i => negb (i =? 0)
  | PyStr s => negb (len s =? 0)
  | PyDict d => negb (len d =? 0)
  | PyList l => negb (len l =? 0)
  | PyInst cls v =>
      if is_Simple cls then
        match v with
        | VBool b => b
        | VInt i => negb (i =? 0)
        | VStr s => negb (len s =? 0)
        | _ => true
        end
      else
        match py_len x with
        | Ok n => negb (n =? 0)
        | Raise _ => true
        end
  end.

Definition is_space (c : byte) : bool :=
  let n := ord c in (n =? 32) || ((9 <=? n) && (n <=? 13)).

Fixpoint lstrip (s : str) : str :=
  match s with
  | c :: s' => if is_space c then lstrip s' else s
  | [] => []
  end.

Definition strip (s : str) : str := rev (lstrip (rev (lstrip s))).

Definition digits (s : str) : result Z :=
  match s with
  | [] => Raise ValueError
  | _ =>
      fold_left
        (fun acc c =>
           n <- acc ;;
           let d := ord c - 48 in
           if (0 <=? d) && (d <=? 9) then Ok (10 * n + d) else Raise ValueError)
        s (Ok 0)
  end.

(** [int(s)] for a [str]: blanks around an optional sign and decimal
    digits. *)
Definition int_of_str (s : str) : result Z :=
  match strip s with
  | c :: s' =>
      if Byte.eqb c "-"%byte then n <- digits s' ;; Ok (- n)
      else if Byte.eqb c "+"%byte then digits s'
      else digits (c :: s')
  | [] => Raise ValueError
  end.

(** [int(x)]: [Simple.__int__] is [int(self.value)]. *)
Definition py_int (x : pyobj) : result Z :=
  match x with
  | PyBool b => Ok (Z.b2z b)
  | PyInt i => Ok i
  | PyStr s => int_of_str s
  | PyInst cls v =>
      if is_Simple cls then
        match v with
        | VBool b => Ok (Z.b2z b)
        | VInt i => Ok i
        | VStr s => int_of_str s
        | _ => Raise TypeError
        end
      else Raise TypeError
  | _ => Raise TypeError
  end.

(** The instances held by an instance are instances of the declared
    classes. *)
Definition class_of_component (components : list (string * asn1_type))
  (k : string) : asn1_type :=
  match dict_get components k with
  | Some c => c
  | None => Any []
  end.

Definition value_type_of (components : list Component) (k : string)
  : asn1_type :=
  match find (fun c => String.eqb (name c) k) components with
  | Some c => value_type c
  | None => Any []
  end.

(** [for x in value]: the elements of a list, the characters of a [str], the
    keys of a dict; [Choice.__iter__] gives the keys that are set,
    [Sequence.__iter__] the component names, a [Repeated] its elements. *)
Definition py_iter (x : pyobj) : result (list pyobj) :=
  match x with
  | PyStr s => Ok (map (fun c => PyStr [c]) s)
  | PyDict d => Ok (map (fun kv => PyStr (str_of_name (fst kv))) d)
  | PyList l => Ok l
  | PyInst (Choice _ _) (VChoice d) =>
      Ok (map (fun kv => PyStr (str_of_name (fst kv))) d)
  | PyInst (SequenceOf _ c) (VRepeated l)
  | PyInst (SetOf _ c) (VRepeated l) => Ok (map (PyInst c) l)
  | PyInst (Sequence _ components) _ =>
      Ok (map (fun c => PyStr (str_of_name (name c))) components)
  | _ => Raise TypeError
  end.

Definition py_of_option (cls : asn1_type) (o : option inst) : pyobj :=
  match o with
  | Some v => PyInst cls v
  | None => PyNone
  end.

(** [value.iteritems().next()] on an object of length one: a dict, or an
    instance of a mapping class ([Choice], [Sequence]), whose items are
    [(key, self[key])]. *)
Definition py_first_item (x : pyobj) : result (string * pyobj) :=
  match x with
  | PyDict (kv :: _) => Ok kv
  | PyInst (Choice _ components) (VChoice ((k, v) :: _)) =>
      Ok (k, PyInst (class_of_component components k) v)
  | PyInst (Sequence _ (c :: _)) (VSequence d) =>
      match dict_get d (name c) with
      | Some o => Ok (name c, py_of_option (value_type c) o)
      | None => Raise KeyError
      end
  | _ => Raise AttributeError
  end.

(** [value.get(key, None)] on a dict or an instance of a mapping class. *)
Definition py_get (x : pyobj) (k : string) : result pyobj :=
  match x with
  | PyDict d => Ok (match dict_get d k with Some v => v | None => PyNone end)
  | PyInst (Choice _ components) (VChoice d) =>
      Ok (py_of_option (class_of_component components k) (dict_get d k))
  | PyInst (Sequence _ components) (VSequence d) =>
      Ok (match dict_get d k with
          | Some o => py_of_option (value_type_of components k) o
          | None => PyNone
          end)
  | _ => Raise AttributeError
  end.

(** [key in cls.key_map] for an item [key] of the initializer: a [str] is
    looked up by its characters, an instance that hashes by its [str] value
    likewise, a dict or a list is unhashable, anything else is not a key. *)
Definition py_key (x : pyobj) : result (option string) :=
  match x with
  | PyStr s => Ok (Some (name_of_str s))
  | PyDict _ | PyList _ => Raise TypeError
  | PyInst (Choice _ _) _ | PyInst (Sequence _ _) _ => Raise TypeError
  | PyInst (SequenceOf _ _) _ | PyInst (SetOf _ _) _ => Ok None
  | PyInst _ (VStr s) | PyInst _ (VAny s _) => Ok (Some (name_of_str s))
  | _ => Ok None
  end.

(** ** The classes

    A method that calls into the classes of its components takes what it
    calls as arguments; [encode], [class_of] and [new] below tie the knot by
    recursion on the class descriptor.  A [_value] of the wrong shape for
    its class cannot arise (every write path stores an instance of exactly
    the declared class); the model answers [TypeError] there. *)

(** What a decoder calls on the class of a component. *)
Record class_ : Type := mkClass {
  (** [cls.tags] *)
  cls_tags : list tag.Tag;
  (** [cls(serialized_value=buf, strict=strict)] *)
  cls_serialized : str -> bool -> result inst;
  (** [cls.read(buf, strict=strict)] *)
  cls_read : str -> bool -> result (inst * str)
}.

Module Abstract.

(** [Abstract.__init__], over the two hooks of the class. *)
Definition __init__
  (_decode_value : str -> bool -> result inst)
  (_convert_value : pyobj -> result inst)
  (value : pyobj) (serialized_value : option str) (strict : bool)
  : result inst :=
  match serialized_value with
  | Some buf => _decode_value buf strict
  | None =>
      match value with
      | PyNone => Raise TypeError
      | _ => _convert_value value
      end
  end.

Definition _read (buf : str) (strict : bool) : result (inst * str) :=
  Raise NotImplementedError.

(** [Abstract.encode], given the result of [self._encode_value()]. *)
Definition encode (tags : list tag.Tag) (encoded_value : result str)
  : result str :=
  fold_left
    (fun acc t =>
       encoded_value <- acc ;;
       encoded_length <- encode_length (len encoded_value) ;;
       Ok (tag.value t ++ encoded_length ++ encoded_value))
    tags encoded_value.

(** The [for t in reversed(cls.tags)] loop of [read]: the last length read
    and the buffer after it. *)
Fixpoint read_tags (reversed_tags : list tag.Tag) (buf : str)
  (decoded_length : Z) : result (Z * str) :=
  match reversed_tags with
  | [] => Ok (decoded_length, buf)
  | t :: reversed_tags' =>
      if negb (str_eqb (slice_to buf (tag.length t)) (tag.value t))
      then Raise ASN1TagError
      else
        let buf := slice_from buf (tag.length t) in
        '(decoded_length, buf) <- read_length buf ;;
        if len buf <? decoded_length then Raise ASN1Error
        else read_tags reversed_tags' buf decoded_length
  end.

(** [Abstract.read], over the constructor of the class and its [_read]. *)
Definition read (tags : list tag.Tag)
  (serialized : str -> bool -> result inst)
  (_read : str -> bool -> result (inst * str))
  (buf : str) (strict : bool) : result (inst * str) :=
  match tags with
  | [] => _read buf strict
  | _ =>
      '(decoded_length, buf) <- read_tags (rev tags) buf 0 ;;
      value <- serialized (slice_to buf decoded_length) strict ;;
      Ok (value, slice_from buf decoded_length)
  end.

(** [Abstract.decode], over [cls.read]. *)
Definition decode (read : str -> bool -> result (inst * str))
  (buf : str) (strict : bool) : result inst :=
  '(value, rest) <- read buf strict ;;
  match rest with
  | [] => Ok value
  | _ => Raise ASN1Error
  end.

End Abstract.

Module Boolean.

Definition _TRUE : byte := xff.
Definition _FALSE : byte := x00.

Definition _encode_value (v : inst) : result str :=
  match v with
  | VBool b => Ok [if b then _TRUE else _FALSE]
  | _ => Raise TypeError
  end.

Definition _convert_value (value : pyobj) : result inst :=
  Ok (VBool (py_bool value)).

Definition _decode_value (buf : str) (strict : bool) : result inst :=
  match buf with
  | [b] =>
      if strict && negb (Byte.eqb b _TRUE) && negb (Byte.eqb b _FALSE)
      then Raise ASN1Error
      else Ok (VBool (if Byte.eqb b _FALSE then false else true))
  | _ => Raise ASN1Error
  end.

End Boolean.

Module Integer.

Definition _encode_value (v : inst) : result str :=
  match v with
  | VInt i => encode_int i true
  | _ => Raise TypeError
  end.

Definition _convert_value (value : pyobj) : result inst :=
  i <- py_int value ;; Ok (VInt i).

Definition _decode_value (buf : str) (strict : bool) : result inst :=
  i <- decode_int buf true ;; Ok (VInt i).

End Integer.

Module ASN1String.

Definition _encode_value (v : inst) : result str :=
  match v with
  | VStr s => Ok s
  | _ => Raise TypeError
  end.

Definition _convert_value (value : pyobj) : result inst :=
  match value with
  | PyStr s => Ok (VStr s)
  | PyInst cls v => if is_ASN1String cls then Ok v else Raise TypeError
  | _ => Raise TypeError
  end.

Definition _decode_value (buf : str) (strict : bool) : result inst :=
  Ok (VStr buf).

End ASN1String.

Module BitString.

Definition char0 : byte := "0"%byte.
Definition char1 : byte := "1"%byte.

(** [int(s, 2)] on a string of '0' and '1'. *)
Definition int_base2 (s : str) : result Z :=
  fold_left
    (fun acc c =>
       n <- acc ;;
       if Byte.eqb c char0 then Ok (2 * n)
       else if Byte.eqb c char1 then Ok (2 * n + 1)
       else Raise ValueError)
    s (Ok 0).

(** [for i in range(0, len(padded_bits), 8):
       ret.append(int(padded_bits[i:i+8], 2))] *)
Fixpoint pack (padded_bits : str) : result str :=
  match padded_bits with
  | [] => Ok []
  | b0 :: b1 :: b2 :: b3 :: b4 :: b5 :: b6 :: b7 :: rest =>
      n <- int_base2 [b0; b1; b2; b3; b4; b5; b6; b7] ;;
      ret <- pack rest ;;
      Ok (byte_of n :: ret)
  | chunk => n <- int_base2 chunk ;; Ok [byte_of n]
  end.

Definition _encode_value (v : inst) : result str :=
  match v with
  | VStr s =>
      let pad := (8 - len s mod 8) mod 8 in
      let padded_bits := s ++ repeat char0 (Z.to_nat pad) in
      ret <- pack padded_bits ;;
      Ok (byte_of pad :: ret)
  | _ => Raise TypeError
  end.

Definition is_bit (c : byte) : bool := Byte.eqb c char0 || Byte.eqb c char1.

Definition _convert_value (value : pyobj) : result inst :=
  match value with
  | PyInst cls v => if is_BitString cls then Ok v else Raise TypeError
  | PyStr s => if forallb is_bit s then Ok (VStr s) else Raise ValueError
  | _ => Raise TypeError
  end.

(** [format(b, "08b")] *)
Definition format_08b (b : byte) : str :=
  map (fun i => if Z.testbit (ord b) i then char1 else char0)
      [7; 6; 5; 4; 3; 2; 1; 0].

Definition _decode_value (buf : str) (strict : bool) : result inst :=
  match buf with
  | [] => Raise ASN1Error
  | b0 :: int_bytes =>
      let pad := ord b0 in
      if 7 <? pad then Raise ASN1Error
      else
        let ret := List.concat (map format_08b int_bytes) in
        if negb (pad =? 0) then
          if (len ret =? 0)
             || existsb (fun c => Byte.eqb c char1) (slice_last ret pad)
          then Raise ASN1Error
          else Ok (VStr (slice_drop_last ret pad))
        else Ok (VStr ret)
  end.

End BitString.

Module Any.

Definition _encode_value (v : inst) : result str :=
  match v with
  | VAny raw _ => Ok raw
  | _ => Raise TypeError
  end.

(** The result is the undecoded [str]. *)
Definition _convert_value (encode : asn1_type -> inst -> result str)
  (value : pyobj) : result str :=
  match value with
  | PyInst cls v => if is_Any cls then Raise TypeError else encode cls v
  | _ => Raise TypeError
  end.

Definition _decode_value (buf : str) (strict : bool) : result str := Ok buf.

(** [Any.__init__] sets [_value] and [_decoded_value]. *)
Definition __init__ (encode : asn1_type -> inst -> result str)
  (value : pyobj) (serialized_value : option str) (strict : bool)
  : result inst :=
  match value with
  | PyStr s => raw <- _decode_value s strict ;; Ok (VAny raw None)
  | _ =>
      let _decoded_value :=
        match value with PyInst _ v => Some v | _ => None end in
      match serialized_value with
      | Some buf =>
          raw <- _decode_value buf strict ;; Ok (VAny raw _decoded_value)
      | None =>
          match value with
          | PyNone => Raise TypeError
          | _ =>
              raw <- _convert_value encode value ;;
              Ok (VAny raw _decoded_value)
          end
      end
  end.

(** [cls(serialized_value=buf, strict=strict)] *)
Definition serialized (buf : str) (strict : bool) : result inst :=
  raw <- _decode_value buf strict ;; Ok (VAny raw None).

(** [Any._read]: the span of the tag, the length and the contents. *)
Definition _read (buf : str) (strict : bool) : result (inst * str) :=
  '(_, rest) <- tag.read buf ;;
  '(length, rest) <- read_length rest ;;
  if len rest <? length then Raise ASN1Error
  else
    let decoded_length := len buf - len rest + length in
    value <- serialized (slice_to buf decoded_length) strict ;;
    Ok (value, slice_from buf decoded_length).

(** [self.decode_inner(value_type, strict)], over [value_type.decode]. *)
Definition decode_inner (self : inst)
  (value_type_decode : str -> bool -> result inst) (strict : bool)
  : result inst :=
  match self with
  | VAny raw _ =>
      decoded <- value_type_decode raw strict ;;
      Ok (VAny raw (Some decoded))
  | _ => Raise AttributeError
  end.

End Any.

(** [value if type(value) is spec else spec(value)], over the constructor
    [spec(...)] of the class. *)
Definition as_instance_of (spec : asn1_type) (spec_new : pyobj -> result inst)
  (value : pyobj) : result inst :=
  match value with
  | PyInst cls v => if asn1_type_eqb cls spec then Ok v else spec_new value
  | _ => spec_new value
  end.

Module MetaChoice.

(** [spec.tags[-1]] *)
Definition outer_tag (tags : list tag.Tag) : option tag.Tag :=
  match rev tags with
  | t :: _ => Some t
  | [] => None
  end.

Fixpoint tag_map_get (tag_map : list (tag.Tag * string)) (t : tag.Tag)
  : option string :=
  match tag_map with
  | [] => None
  | (t', key) :: tag_map' =>
      if tag.eqb t' t then Some key else tag_map_get tag_map' t
  end.

(** The loop of [MetaChoice.__new__] over [components.iteritems()]. *)
Fixpoint build (items : list (string * list tag.Tag))
  (tag_map : list (tag.Tag * string)) (keys_seen : list string)
  : result (list (tag.Tag * string)) :=
  match items with
  | [] => Ok tag_map
  | (key, spec_tags) :: items' =>
      if existsb (String.eqb key) keys_seen then Raise TypeError
      else
        match outer_tag spec_tags with
        | None => Raise TypeError
        | Some t =>
            match tag_map_get tag_map t with
            | Some _ => Raise TypeError
            | None => build items' (tag_map ++ [(t, key)]) (key :: keys_seen)
            end
        end
  end.

(** The [tag_map] attribute the metaclass gives the class; there is none
    when [components] is empty. *)
Definition __new__ (components : list (string * list tag.Tag))
  : result (option (list (tag.Tag * string))) :=
  match components with
  | [] => Ok None
  | _ => tag_map <- build components [] [] ;; Ok (Some tag_map)
  end.

End MetaChoice.

Module Choice.

(** [components_encode] binds every component name to the [encode] of its
    class. *)
Definition _encode_value
  (components_encode : list (string * (inst -> result str))) (v : inst)
  : result str :=
  match v with
  | VChoice [] => Raise ASN1Error
  | VChoice ((key, x) :: _) =>
      match dict_get components_encode key with
      | Some encode => encode x
      | None => Raise TypeError
      end
  | _ => Raise TypeError
  end.

(** [components] binds every component name to its class and to the
    constructor of the class. *)
Definition _convert_value
  (components : list (string * (asn1_type * (pyobj -> result inst))))
  (value : pyobj) : result inst :=
  if negb (py_bool value) then Ok (VChoice [])
  else
    n <- py_len value ;;
    if negb (n =? 1) then Raise ValueError
    else
      '(key, value) <- py_first_item value ;;
      match value with
      | PyNone => Ok (VChoice [])
      | _ =>
          match dict_get components key with
          | None => Raise ValueError
          | Some (spec, spec_new) =>
              x <- as_instance_of spec spec_new value ;;
              Ok (VChoice [(key, x)])
          end
      end.

(** The class attribute [tag_map]; reading a missing attribute raises
    [AttributeError]. *)
Definition tag_map (components : list (string * class_))
  : result (list (tag.Tag * string)) :=
  match MetaChoice.__new__
          (map (fun kc => (fst kc, cls_tags (snd kc))) components) with
  | Ok (Some tag_map) => Ok tag_map
  | Ok None => Raise AttributeError
  | Raise e => Raise e
  end.

(** [components] binds every component name to its class. *)
Definition _decode_readahead_value (components : list (string * class_))
  (buf : str) (readahead_tag : tag.Tag) (readahead_value : str)
  (strict : bool) : result inst :=
  tag_map <- tag_map components ;;
  match MetaChoice.tag_map_get tag_map readahead_tag with
  | None => Raise ASN1TagError
  | Some key =>
      match dict_get components key with
      | None => Raise KeyError
      | Some spec =>
          if len (cls_tags spec) =? 1 then
            value <- cls_serialized spec readahead_value true ;;
            Ok (VChoice [(key, value)])
          else
            '(value, rest) <- cls_read spec buf strict ;;
            match rest with
            | [] => Ok (VChoice [(key, value)])
            | _ => Raise ASN1Error
            end
      end
  end.

Definition _decode_value (components : list (string * class_))
  (buf : str) (strict : bool) : result inst :=
  '(readahead_tag, rest) <- tag.read buf ;;
  '(length, rest) <- read_length rest ;;
  if negb (len rest =? length) then Raise ASN1Error
  else _decode_readahead_value components buf readahead_tag rest strict.

(** [Choice.__init__]: with a [readahead_tag] the value comes from
    [_decode_readahead_value], otherwise from [Abstract.__init__]. *)
Definition __init__
  (components : list (string * class_))
  (components_new : list (string * (asn1_type * (pyobj -> result inst))))
  (value : pyobj) (serialized_value : option str)
  (readahead : option (tag.Tag * str)) (strict : bool) : result inst :=
  match readahead with
  | Some (readahead_tag, readahead_value) =>
      _decode_readahead_value components
        (match serialized_value with Some buf => buf | None => [] end)
        readahead_tag readahead_value strict
  | None =>
      Abstract.__init__ (_decode_value components)
        (_convert_value components_new) value serialized_value strict
  end.

Definition _read (components : list (string * class_))
  (buf : str) (strict : bool) : result (inst * str) :=
  '(readahead_tag, rest) <- tag.read buf ;;
  '(length, rest) <- read_length rest ;;
  if len rest <? length then Raise ASN1Error
  else
    let decoded_length := len buf - len rest + length in
    value <- __init__ components [] PyNone
               (Some (slice_to buf decoded_length))
               (Some (readahead_tag, slice_to rest length)) strict ;;
    Ok (value, slice_from buf decoded_length).

End Choice.

Module Repeated.

Definition _convert_value (component : asn1_type)
  (component_new : pyobj -> result inst) (value : pyobj) : result inst :=
  items <- py_iter value ;;
  l <- map_result (as_instance_of component component_new) items ;;
  Ok (VRepeated l).

(** The [while buf] loop of [SequenceOf._decode_value] and
    [SetOf._decode_value], cut after [fuel] turns. *)
Fixpoint decode_loop (fuel : nat)
  (component_read : str -> bool -> result (inst * str))
  (buf : str) (strict : bool) (ret : list inst) : result (list inst) :=
  match buf with
  | [] => Ok ret
  | _ :: _ =>
      match fuel with
      | O => Raise Diverges
      | S fuel' =>
          '(value, buf) <- component_read buf strict ;;
          decode_loop fuel' component_read buf strict (ret ++ [value])
      end
  end.

Definition _decode_value
  (component_read : str -> bool -> result (inst * str))
  (buf : str) (strict : bool) : result inst :=
  ret <- decode_loop (List.length buf) component_read buf strict [] ;;
  Ok (VRepeated ret).

End Repeated.

Module SequenceOf.

Definition _encode_value (component_encode : inst -> result str)
  (v : inst) : result str :=
  match v with
  | VRepeated l =>
      ret <- map_result component_encode l ;;
      Ok (List.concat ret)
  | _ => Raise TypeError
  end.

Definition _decode_value := Repeated._decode_value.

End SequenceOf.

Module SetOf.

Definition _encode_value (component_encode : inst -> result str)
  (v : inst) : result str :=
  match v with
  | VRepeated l =>
      ret <- map_result component_encode l ;;
      Ok (List.concat (sort ret))
  | _ => Raise TypeError
  end.

Definition _decode_value := Repeated._decode_value.

End SetOf.

Module MetaSequence.

(** The loop of [MetaSequence.__new__]: the names bound in [key_map]. *)
Fixpoint build (names : list string) (key_map : list string)
  : result (list string) :=
  match names with
  | [] => Ok key_map
  | n :: names' =>
      if existsb (String.eqb n) key_map then Raise TypeError
      else build names' (key_map ++ [n])
  end.

(** The keys of the [key_map] attribute the metaclass gives the class;
    there is none when [components] is empty. *)
Definition __new__ (names : list string) : result (option (list string)) :=
  match names with
  | [] => Ok None
  | _ => key_map <- build names [] ;; Ok (Some key_map)
  end.

End MetaSequence.

Module Sequence.

(** [component.encoded_default != encoded_value] *)
Definition differs (encoded_default : option str) (encoded_value : str)
  : bool :=
  match encoded_default with
  | None => true
  | Some d => negb (str_eqb d encoded_value)
  end.

(** The loop of [_encode_value] over the components, each paired with the
    [encode] of its [value_type]. *)
Fixpoint encode_components
  (components : list (Component * (inst -> result str)))
  (_value : list (string * option inst)) : result (list str) :=
  match components with
  | [] => Ok []
  | (component, encode) :: components' =>
      match dict_get _value (name component) with
      | None => Raise KeyError
      | Some None =>
          if negb (optional component) then Raise ASN1Error
          else encode_components components' _value
      | Some (Some value) =>
          encoded_value <- encode value ;;
          ret <- encode_components components' _value ;;
          if differs (encoded_default component) encoded_value
          then Ok (encoded_value :: ret)
          else Ok ret
      end
  end.

Definition _encode_value
  (components : list (Component * (inst -> result str))) (v : inst)
  : result str :=
  match v with
  | VSequence d => ret <- encode_components components d ;; Ok (List.concat ret)
  | _ => Raise TypeError
  end.

(** [component_new] is the constructor of [component.value_type]. *)
Definition _convert_single_value (component : Component)
  (component_new : pyobj -> result inst) (value : pyobj)
  : result (option inst) :=
  match value with
  | PyNone => Ok (default component)
  | _ =>
      x <- as_instance_of (value_type component) component_new value ;;
      Ok (Some x)
  end.

(** The class attribute [key_map]; reading a missing attribute raises
    [AttributeError]. *)
Definition key_map (components : list Component) : result (list string) :=
  match MetaSequence.__new__ (map name components) with
  | Ok (Some key_map) => Ok key_map
  | Ok None => Raise AttributeError
  | Raise e => Raise e
  end.

(** [key in cls.key_map] for an item [key] of the initializer. *)
Definition key_in_key_map (components : list Component) (key : pyobj)
  : result bool :=
  key_map <- key_map components ;;
  k <- py_key key ;;
  match k with
  | Some k => Ok (existsb (String.eqb k) key_map)
  | None => Ok false
  end.

(** The [for component in cls.components] loop of [_convert_value]. *)
Fixpoint convert_components
  (components : list (Component * (pyobj -> result inst)))
  (value : pyobj) (ret : list (string * option inst))
  : result (list (string * option inst)) :=
  match components with
  | [] => Ok ret
  | (component, component_new) :: components' =>
      x <- py_get value (name component) ;;
      v <- _convert_single_value component component_new x ;;
      convert_components components' value (dict_set ret (name component) v)
  end.

Definition _convert_value
  (components : list (Component * (pyobj -> result inst)))
  (value : pyobj) : result inst :=
  let value := if py_bool value then value else PyDict [] in
  keys <- py_iter value ;;
  known <- map_result (key_in_key_map (map fst components)) keys ;;
  if negb (forallb (fun b => b) known) then Raise ValueError
  else
    ret <- convert_components components value [] ;;
    Ok (VSequence ret).

(** What [_decode_value] calls on a component: [value_type.read] and, for
    every class of [lookup], its [decode]. *)
Record component_class : Type := mkComponentClass {
  value_type_read : str -> bool -> result (inst * str);
  lookup_decode : list (inst * (str -> bool -> result inst))
}.

(** The first pass of [_decode_value]: the dict [ret] and the buffer that
    is left after the last component. *)
Fixpoint decode_components
  (components : list (Component * component_class))
  (buf : str) (strict : bool) (ret : list (string * option inst))
  : result (list (string * option inst) * str) :=
  match components with
  | [] => Ok (ret, buf)
  | (component, c) :: components' =>
      match value_type_read c buf strict with
      | Ok (value, buf) =>
          decode_components components' buf strict
            (dict_set ret (name component) (Some value))
      | Raise ASN1TagError =>
          if negb (optional component) then Raise ASN1TagError
          else
            decode_components components' buf strict
              (dict_set ret (name component) (default component))
      | Raise e => Raise e
      end
  end.

(** Whether an instance can be a dict key: the mapping classes are not
    hashable. *)
Definition hashable (v : inst) : bool :=
  match v with
  | VChoice _ | VSequence _ => false
  | _ => true
  end.

(** [lookup.get(key, None)]: a [SequenceOf] or [SetOf] instance hashes by
    identity and is never found. *)
Definition lookup_get {A : Type} (lookup : list (inst * A))
  (key : option inst) : result (option A) :=
  match key with
  | None => Ok None
  | Some (VRepeated _) => Ok None
  | Some k =>
      if negb (hashable k) then Raise TypeError
      else Ok (option_map snd (find (fun e => py_eq (fst e) k) lookup))
  end.

(** The second pass of [_decode_value], for decoding [Any]. *)
Fixpoint decode_any (components : list (Component * component_class))
  (strict : bool) (ret : list (string * option inst))
  : result (list (string * option inst)) :=
  match components with
  | [] => Ok ret
  | (component, c) :: components' =>
      match defined_by component with
      | None => decode_any components' strict ret
      | Some defined_by =>
          match dict_get ret defined_by with
          | None => Raise KeyError
          | Some key =>
              value_type <- lookup_get (lookup_decode c) key ;;
              match value_type with
              | None => decode_any components' strict ret
              | Some value_type_decode =>
                  match dict_get ret (name component) with
                  | None => Raise KeyError
                  | Some None => Raise AttributeError
                  | Some (Some self) =>
                      match Any.decode_inner self value_type_decode strict with
                      | Ok self' =>
                          decode_any components' strict
                            (dict_set ret (name component) (Some self'))
                      | Raise e =>
                          if is_ASN1Error e && negb strict
                          then decode_any components' strict ret
                          else Raise e
                      end
                  end
              end
          end
      end
  end.

Definition _decode_value (components : list (Component * component_class))
  (buf : str) (strict : bool) : result inst :=
  '(ret, buf) <- decode_components components buf strict [] ;;
  match buf with
  | _ :: _ => Raise ASN1Error
  | [] =>
      ret <- decode_any components strict ret ;;
      Ok (VSequence ret)
  end.

End Sequence.

(** ** The methods of a class, by recursion on its descriptor *)

(** [self.encode()] for an instance [v] of class [cls]. *)
Fixpoint encode (cls : asn1_type) (v : inst) {struct cls} : result str :=
  Abstract.encode (tags cls)
    match cls with
    | Boolean _ => Boolean._encode_value v
    | Integer _ => Integer._encode_value v
    | ASN1String _ => ASN1String._encode_value v
    | BitString _ => BitString._encode_value v
    | Any _ => Any._encode_value v
    | Choice _ components =>
        Choice._encode_value
          (map (fun kc => (fst kc, encode (snd kc))) components) v
    | SequenceOf _ component => SequenceOf._encode_value (encode component) v
    | SetOf _ component => SetOf._encode_value (encode component) v
    | Sequence _ components =>
        Sequence._encode_value
          (map (fun c => (c, encode (value_type c))) components) v
    end.

(** The decoding side of a class: [cls(serialized_value=..)] and
    [cls.read]. *)
Fixpoint class_of (cls : asn1_type) : class_ :=
  let class_with serialized _read :=
    mkClass (tags cls) serialized (Abstract.read (tags cls) serialized _read) in
  match cls with
  | Boolean _ => class_with Boolean._decode_value Abstract._read
  | Integer _ => class_with Integer._decode_value Abstract._read
  | ASN1String _ => class_with ASN1String._decode_value Abstract._read
  | BitString _ => class_with BitString._decode_value Abstract._read
  | Any _ => class_with Any.serialized Any._read
  | Choice _ components =>
      let components := map (fun kc => (fst kc, class_of (snd kc))) components in
      class_with
        (fun buf strict =>
           Choice.__init__ components [] PyNone (Some buf) None strict)
        (Choice._read components)
  | SequenceOf _ component =>
      class_with (SequenceOf._decode_value (cls_read (class_of component)))
                 Abstract._read
  | SetOf _ component =>
      class_with (SetOf._decode_value (cls_read (class_of component)))
                 Abstract._read
  | Sequence _ components =>
      let components :=
        map (fun c =>
               (c, Sequence.mkComponentClass
                     (cls_read (class_of (value_type c)))
                     (map (fun kv =>
                             (fst kv,
                              Abstract.decode (cls_read (class_of (snd kv)))))
                          (lookup c))))
            components in
      class_with (Sequence._decode_value components) Abstract._read
  end.

(** [cls.read(buf, strict=strict)] *)
Definition read (cls : asn1_type) (buf : str) (strict : bool)
  : result (inst * str) :=
  cls_read (class_of cls) buf strict.

(** [cls.decode(buf, strict=strict)] *)
Definition decode (cls : asn1_type) (buf : str) (strict : bool) : result inst :=
  Abstract.decode (read cls) buf strict.

(** [cls(value)] *)
Fixpoint new (cls : asn1_type) (value : pyobj) {struct cls} : result inst :=
  let init _convert_value :=
    Abstract.__init__ (cls_serialized (class_of cls)) _convert_value
      value None true in
  match cls with
  | Boolean _ => init Boolean._convert_value
  | Integer _ => init Integer._convert_value
  | ASN1String _ => init ASN1String._convert_value
  | BitString _ => init BitString._convert_value
  | Any _ => Any.__init__ encode value None true
  | Choice _ components =>
      Choice.__init__
        (map (fun kc => (fst kc, class_of (snd kc))) components)
        (map (fun kc => (fst kc, (snd kc, new (snd kc)))) components)
        value None None true
  | SequenceOf _ component | SetOf _ component =>
      init (Repeated._convert_value component (new component))
  | Sequence _ components =>
      init (Sequence._convert_value
              (map (fun c => (c, new (value_type c))) components))
  end.

(** ** Tagging and the classes of the module *)

Definition set_tags (cls : asn1_type) (t : list tag.Tag) : asn1_type :=
  match cls with
  | Boolean _ => Boolean t
  | Integer _ => Integer t
  | ASN1String _ => ASN1String t
  | BitString _ => BitString t
  | Any _ => Any t
  | Choice _ c => Choice t c
  | SequenceOf _ c => SequenceOf t c
  | SetOf _ c => SetOf t c
  | Sequence _ c => Sequence t c
  end.

(** [Universal(number, encoding)(cls)] *)
Definition Universal (number : N) (encoding : tag.encoding_t)
  (cls : asn1_type) : result asn1_type :=
  match tags cls with
  | [] => Ok (set_tags cls [tag.mk number tag.UNIVERSAL encoding])
  | _ => Raise TypeError
  end.

(** [Explicit(number, tag_class)(cls)]; [cls.explicit(number, tag_class)]
    is the same on a fresh subclass. *)
Definition Explicit (number : N) (tag_class : tag.class_t)
  (cls : asn1_type) : result asn1_type :=
  match tag_class with
  | tag.UNIVERSAL => Raise TypeError
  | _ => Ok (set_tags cls (tags cls ++ [tag.mk number tag_class tag.CONSTRUCTED]))
  end.

(** [Implicit(number, tag_class)(cls)]; [cls.implicit(number, tag_class)]
    is the same on a fresh subclass. *)
Definition Implicit (number : N) (tag_class : tag.class_t)
  (cls : asn1_type) : result asn1_type :=
  match tag_class with
  | tag.UNIVERSAL => Raise TypeError
  | _ =>
      match rev (tags cls) with
      | [] => Raise TypeError
      | t :: rev_inner =>
          Ok (set_tags cls
                (rev rev_inner ++ [tag.mk number tag_class (tag.encoding t)]))
      end
  end.

Definition universal (number : N) (encoding : tag.encoding_t) : list tag.Tag :=
  [tag.mk number tag.UNIVERSAL encoding].

Definition BooleanType : asn1_type := Boolean (universal 1 tag.PRIMITIVE).
Definition IntegerType : asn1_type := Integer (universal 2 tag.PRIMITIVE).
Definition PrintableString : asn1_type := ASN1String (universal 19 tag.PRIMITIVE).
Definition TeletexString : asn1_type := ASN1String (universal 20 tag.PRIMITIVE).
Definition IA5String : asn1_type := ASN1String (universal 22 tag.PRIMITIVE).
Definition BMPString : asn1_type := ASN1String (universal 30 tag.PRIMITIVE).
Definition UTF8String : asn1_type := ASN1String (universal 12 tag.PRIMITIVE).
Definition UniversalString : asn1_type := ASN1String (universal 28 tag.PRIMITIVE).
Definition UTCTime : asn1_type := ASN1String (universal 23 tag.PRIMITIVE).
Definition GeneralizedTime : asn1_type := ASN1String (universal 24 tag.PRIMITIVE).
Definition OctetString : asn1_type := ASN1String (universal 4 tag.PRIMITIVE).
Definition BitStringType : asn1_type := BitString (universal 3 tag.PRIMITIVE).
Definition AnyType : asn1_type := Any [].
(** A subclass of [Choice] with the given [components]. *)
Definition ChoiceType (components : list (string * asn1_type)) : asn1_type :=
  Choice [] components.
(** A subclass of [SequenceOf] or [SetOf] with the given [component]. *)
Definition SequenceOfType (component : asn1_type) : asn1_type :=
  SequenceOf (universal 16 tag.CONSTRUCTED) component.
Definition SetOfType (component : asn1_type) : asn1_type :=
  SetOf (universal 17 tag.CONSTRUCTED) component.
(** A subclass of [Sequence] with the given [components]. *)
Definition SequenceType (components : list Component) : asn1_type :=
  Sequence (universal 16 tag.CONSTRUCTED) components.

Module ComponentM.

(** [Component(name, value_type, optional, default, defined_by, lookup)] *)
Definition __init__ (name : string) (value_type : asn1_type)
  (optional : bool) (default : pyobj) (defined_by : option string)
  (lookup : list (inst * asn1_type)) : result Component :=
  default <-
    match default with
    | PyNone => Ok None
    | _ => d <- as_instance_of value_type (new value_type) default ;;
           Ok (Some d)
    end ;;
  encoded_default <-
    match default with
    | Some d => e <- encode value_type d ;; Ok (Some e)
    | None => Ok None
    end ;;
  Ok (mkComponent name value_type default encoded_default
        (optional || match default with Some _ => true | None => false end)
        defined_by lookup).

End ComponentM.

(** ** Objects and the mapping protocol

    Where a method reads or assigns attributes of [self], an instance is an
    object: its class and its instance dict.  The constructor leaves one
    entry in the dict, [_value].  The classes define no data attribute but
    [tags], [components], [component], [key_map] and [tag_map], so reading
    any other name that is not in the instance dict raises
    [AttributeError]. *)
Record object : Type := mkObject {
  ob_class : asn1_type;
  ob_dict : list (string * inst)
}.

Definition getattr (self : object) (attr : string) : result inst :=
  match dict_get (ob_dict self) attr with
  | Some v => Ok v
  | None => Raise AttributeError
  end.

Definition setattr (self : object) (attr : string) (v : inst) : object :=
  mkObject (ob_class self) (dict_set (ob_dict self) attr v).

(** [cls(value)] and [cls(serialized_value=buf, strict=strict)] as objects. *)
Definition construct (cls : asn1_type) (value : pyobj) : result object :=
  v <- new cls value ;; Ok (mkObject cls [("_value"%string, v)]).

Definition construct_serialized (cls : asn1_type) (buf : str) (strict : bool)
  : result object :=
  v <- cls_serialized (class_of cls) buf strict ;;
  Ok (mkObject cls [("_value"%string, v)]).

(** [cls.decode(buf, strict=strict)] as an object. *)
Definition decode_object (cls : asn1_type) (buf : str) (strict : bool)
  : result object :=
  v <- decode cls buf strict ;; Ok (mkObject cls [("_value"%string, v)]).

(** The outcome of a method that may assign attributes of [self]: the object
    afterwards, and the exception if one was raised. *)
Definition outcome : Type := (object * option exn)%type.

Definition returns (self : object) : outcome := (self, None).
Definition raises (self : object) (e : exn) : outcome := (self, Some e).

Module ChoiceObject.

Definition components (self : object) : list (string * asn1_type) :=
  match ob_class self with
  | Choice _ components => components
  | _ => []
  end.

(** [Choice.__getitem__] *)
Definition __getitem__ (self : object) (key : string)
  : result (option inst) :=
  _value <- getattr self "_value" ;;
  match _value with
  | VChoice d =>
      match dict_get d key with
      | Some value => Ok (Some value)
      | None =>
          if dict_mem (components self) key then Ok None
          else Raise KeyError
      end
  | _ => Raise TypeError
  end.

(** [Choice.__setitem__] *)
Definition __setitem__ (self : object) (key : string) (value : pyobj)
  : outcome :=
  match dict_get (components self) key with
  | None => raises self KeyError
  | Some spec =>
      match value with
      | PyNone => returns (setattr self "_value" (VChoice []))
      | _ =>
          match as_instance_of spec (new spec) value with
          | Ok x => returns (setattr self "_value" (VChoice [(key, x)]))
          | Raise e => raises self e
          end
      end
  end.

(** [Choice.__delitem__] *)
Definition __delitem__ (self : object) (key : string) : outcome :=
  match getattr self "_value" with
  | Ok (VChoice d) =>
      if dict_mem d key then returns (setattr self "_value" (VChoice []))
      else if negb (dict_mem (components self) key) then raises self KeyError
      else returns self
  | Ok _ => raises self TypeError
  | Raise e => raises self e
  end.

(** [Choice.__len__] *)
Definition __len__ (self : object) : result Z :=
  _value <- getattr self "_value" ;;
  match _value with
  | VChoice d => Ok (len d)
  | _ => Raise TypeError
  end.

End ChoiceObject.

Module SequenceObject.

Definition components (self : object) : list Component :=
  match ob_class self with
  | Sequence _ components => components
  | _ => []
  end.

(** [self.key_map[key]] *)
Definition key_map_get (self : object) (key : string) : result Component :=
  key_map <- Sequence.key_map (components self) ;;
  match find (fun c => String.eqb (name c) key) (components self) with
  | Some component => Ok component
  | None => Raise KeyError
  end.

(** [Sequence.__getitem__]: [return self._value[key]] *)
Definition __getitem__ (self : object) (key : string)
  : result (option inst) :=
  _value <- getattr self "_value" ;;
  match _value with
  | VSequence d =>
      match dict_get d key with
      | Some value => Ok value
      | None => Raise KeyError
      end
  | _ => Raise TypeError
  end.

(** [Sequence.__setitem__]: the converted value is stored in the dict held
    by the attribute [_values]. *)
Definition __setitem__ (self : object) (key : string) (value : pyobj)
  : outcome :=
  match key_map_get self key with
  | Raise e => raises self e
  | Ok component =>
      match Sequence._convert_single_value component
              (new (value_type component)) value with
      | Raise e => raises self e
      | Ok value =>
          match getattr self "_values" with
          | Raise e => raises self e
          | Ok (VSequence d) =>
              returns (setattr self "_values"
                         (VSequence (dict_set d key value)))
          | Ok _ => raises self TypeError
          end
      end
  end.

(** [Sequence.__delitem__] *)
Definition __delitem__ (self : object) (key : string) : outcome :=
  match Sequence.key_map (components self) with
  | Raise e => raises self e
  | Ok key_map =>
      if negb (existsb (String.eqb key) key_map) then raises self KeyError
      else __setitem__ self key PyNone
  end.

End SequenceObject.

(** ** The list protocol of SequenceOf and SetOf

    The methods of [Repeated] work in place on the list held by [_value].
    Beside the exceptions of [exn] they raise [IndexError] and
    [OverflowError], from the list, and [NameError]. *)
Module RepeatedObject.

Inductive list_exn : Type :=
| IndexError
| NameError
| OverflowError
| Other (e : exn).

(** The outcome of a method of the list protocol: the object afterwards,
    and the exception if one was raised. *)
Definition list_outcome : Type := (object * option list_exn)%type.

(** An index: an integer, or [slice(start, stop, step)], where [None]
    stands for a bound that is left out. *)
Inductive index : Type :=
| IInt (i : Z)
| ISlice (start stop step : option Z).

(** What subscription returns: one instance, or a list for a slice. *)
Inductive item : Type :=
| Item (x : inst)
| Items (l : list inst).

(** [self.component] *)
Definition component (self : object) : result asn1_type :=
  match ob_class self with
  | SequenceOf _ component | SetOf _ component => Ok component
  | _ => Raise AttributeError
  end.

(** [self._value], a list. *)
Definition _value (self : object) : result (list inst) :=
  v <- getattr self "_value" ;;
  match v with
  | VRepeated l => Ok l
  | _ => Raise TypeError
  end.

(** The position that the integer index [i] names in a list of [length]
    items: a negative index counts from the end, and there is none when the
    index is out of range. *)
Definition position (length : Z) (i : Z) : option nat :=
  let i := if i <? 0 then i + length else i in
  if (0 <=? i) && (i <? length) then Some (Z.to_nat i) else None.

(** The positions that [slice(start, stop, step)] names in a list of
    [length] items, in the order of the slice; a step of zero raises
    [ValueError]. *)
Definition slice_positions (length : Z) (start stop step : option Z)
  : result (list nat) :=
  let step := match step with Some step => step | None => 1 end in
  if step =? 0 then Raise ValueError
  else
    let adjust (bound : option Z) (default : Z) : Z :=
      match bound with
      | None => default
      | Some bound =>
          let bound := if bound <? 0 then bound + length else bound in
          if bound <? 0 then (if step <? 0 then -1 else 0)
          else if length <=? bound
               then (if step <? 0 then length - 1 else length)
               else bound
      end in
    let start := adjust start (if step <? 0 then length - 1 else 0) in
    let stop := adjust stop (if step <? 0 then -1 else length) in
    let slicelength :=
      if step <? 0
      then (if stop <? start then (start - stop - 1) / (- step) + 1 else 0)
      else (if start <? stop then (stop - start - 1) / step + 1 else 0) in
    Ok (map (fun k => Z.to_nat (start + Z.of_nat k * step))
            (seq 0 (Z.to_nat slicelength))).

(** The items of [l] at the given positions. *)
Definition items_at (l : list inst) (positions : list nat) : list inst :=
  flat_map (fun p => match nth_error l p with Some x => [x] | None => [] end)
           positions.

(** [l] without the items at the given positions, [i] being the position of
    its head. *)
Fixpoint remove_positions (positions : list nat) (l : list inst) (i : nat)
  : list inst :=
  match l with
  | [] => []
  | x :: l' =>
      if existsb (Nat.eqb i) positions
      then remove_positions positions l' (S i)
      else x :: remove_positions positions l' (S i)
  end.

(** [Repeated.__getitem__] *)
Definition __getitem__ (self : object) (index : index) : item + list_exn :=
  match _value self with
  | Raise e => inr (Other e)
  | Ok l =>
      match index with
      | IInt i =>
          match position (len l) i with
          | Some n =>
              match nth_error l n with
              | Some x => inl (Item x)
              | None => inr IndexError
              end
          | None => inr IndexError
          end
      | ISlice start stop step =>
          match slice_positions (len l) start stop step with
          | Ok positions => inl (Items (items_at l positions))
          | Raise e => inr (Other e)
          end
      end
  end.

(** [Repeated.__setitem__]: the slice branch converts [v], a name that is
    bound nowhere. *)
Definition __setitem__ (self : object) (index : index) (value : pyobj)
  : list_outcome :=
  match index with
  | ISlice _ _ _ => (self, Some NameError)
  | IInt i =>
      match component self with
      | Raise e => (self, Some (Other e))
      | Ok component =>
          match as_instance_of component (new component) value with
          | Raise e => (self, Some (Other e))
          | Ok x =>
              match _value self with
              | Raise e => (self, Some (Other e))
              | Ok l =>
                  match position (len l) i with
                  | None => (self, Some IndexError)
                  | Some n =>
                      (setattr self "_value"
                         (VRepeated (firstn n l ++ x :: skipn (S n) l)),
                       None)
                  end
              end
          end
      end
  end.

(** [Repeated.__delitem__] *)
Definition __delitem__ (self : object) (index : index) : list_outcome :=
  match _value self with
  | Raise e => (self, Some (Other e))
  | Ok l =>
      match index with
      | IInt i =>
          match position (len l) i with
          | None => (self, Some IndexError)
          | Some n =>
              (setattr self "_value" (VRepeated (firstn n l ++ skipn (S n) l)),
               None)
          end
      | ISlice start stop step =>
          match slice_positions (len l) start stop step with
          | Ok positions =>
              (setattr self "_value"
                 (VRepeated (remove_positions positions l 0)),
               None)
          | Raise e => (self, Some (Other e))
          end
      end
  end.

(** [Repeated.__len__] *)
Definition __len__ (self : object) : result Z :=
  l <- _value self ;; Ok (len l).

(** [sys.maxsize], the largest [Py_ssize_t], of a 64-bit build. *)
Definition PY_SSIZE_T_MAX : Z := 9223372036854775807.

(** [Repeated.insert]: [list.insert] converts the index to [Py_ssize_t],
    which raises [OverflowError] when it does not fit, and takes an index
    before the start for the start and an index past the end for the
    end. *)
Definition insert (self : object) (index : Z) (value : pyobj)
  : list_outcome :=
  match component self with
  | Raise e => (self, Some (Other e))
  | Ok component =>
      match as_instance_of component (new component) value with
      | Raise e => (self, Some (Other e))
      | Ok x =>
          match _value self with
          | Raise e => (self, Some (Other e))
          | Ok l =>
              if (index <? - PY_SSIZE_T_MAX - 1) || (PY_SSIZE_T_MAX <? index)
              then (self, Some OverflowError)
              else
                let n := len l in
                let i := if index <? 0 then index + n else index in
                let i := if i <? 0 then 0 else if n <? i then n else i in
                (setattr self "_value"
                   (VRepeated (firstn (Z.to_nat i) l
                               ++ x :: skipn (Z.to_nat i) l)),
                 None)
          end
      end
  end.

End RepeatedObject.

(** [a <= b] on [str]: ascending lexicographic byte order. *)
Definition str_le (a b : str) : Prop := str_leb a b = true.

(** ** Sample classes and values *)

(** The bit string "10110". *)
Definition bits_10110 : str := list_byte_of_string "10110".

(** A [Choice] with one alternative, a [Boolean] under its universal tag. *)
Definition FlagChoice : asn1_type := ChoiceType [("flag"%string, BooleanType)].

(** A [Sequence] of two integers, the second one optional. *)
Definition PointType : asn1_type :=
  SequenceType
    [mkComponent "x" IntegerType None None false None [];
     mkComponent "y" IntegerType None None true None []].

(** ** The components of a Sequence class, as its decoder sees them *)

(** What [class_of] hands to [Sequence._decode_value]: every component with
    the [read] of its [value_type] and the [decode] of the classes of its
    [lookup]. *)
Definition Sequence_components (components : list Component)
  : list (Component * Sequence.component_class) :=
  map (fun c =>
         (c, Sequence.mkComponentClass
               (read (value_type c))
               (map (fun kv => (fst kv, decode (snd kv))) (lookup c))))
      components.

(** The dict after the components [components] were all found missing. *)
Definition with_defaults (components : list Component)
  (ret : list (string * option inst)) : list (string * option inst) :=
  fold_left (fun ret c => dict_set ret (name c) (default c)) components ret.

(** [cls.tags] is not empty. *)
Definition tagged (cls : asn1_type) : bool :=
  match tags cls with
  | [] => false
  | _ :: _ => true
  end.

(** ** Integers as digit lists *)

(** The integer with the base-256 digits [bs], least significant first,
    and [top] above them. *)
Definition le_val (bs : list byte) (top : Z) : Z :=
  fold_right (fun b acc => ord b + 256 * acc) top bs.

(** ** The classes and values of the round trip *)

(** The encoding of an instance, empty when [encode] raises. *)
Definition encoding (cls : asn1_type) (v : inst) : str :=
  match encode cls v with
  | Ok e => e
  | Raise _ => []
  end.

(** A list of instances sorted as [list.sort()] sorts their [key]s. *)
Fixpoint insert_on (key : inst -> str) (x : inst) (l : list inst) : list inst :=
  match l with
  | [] => [x]
  | y :: l' =>
      if str_leb (key x) (key y) then x :: l else y :: insert_on key x l'
  end.

Definition sort_on (key : inst -> str) (l : list inst) : list inst :=
  fold_right (insert_on key) [] l.

(** Whether a list of [str] is in ascending order. *)
Fixpoint ascending (l : list str) : bool :=
  match l with
  | x :: (y :: _) as l' => str_leb x y && ascending l'
  | _ => true
  end.

(** The classes built from [Boolean], [Integer], the string classes,
    [BitString], [SequenceOf] and [SetOf], every one with at least one
    tag. *)
Fixpoint in_scope (cls : asn1_type) : bool :=
  tagged cls
  && match cls with
     | Boolean _ | Integer _ | ASN1String _ | BitString _ => true
     | SequenceOf _ c | SetOf _ c => in_scope c
     | _ => false
     end.

(** An instance of the shape its class gives it: a [bool], an integer, a
    [str], a [str] of '0' and '1', a list of such instances. *)
Fixpoint valid (cls : asn1_type) (v : inst) {struct cls} : bool :=
  match cls, v with
  | Boolean _, VBool _ => true
  | Integer _, VInt _ => true
  | ASN1String _, VStr _ => true
  | BitString _, VStr s => forallb BitString.is_bit s
  | SequenceOf _ c, VRepeated l | SetOf _ c, VRepeated l => forallb (valid c) l
  | _, _ => false
  end.

(** The instance with the elements of every [SetOf] put in ascending order
    of their encodings. *)
Fixpoint canon (cls : asn1_type) (v : inst) {struct cls} : inst :=
  match cls, v with
  | SequenceOf _ c, VRepeated l => VRepeated (map (canon c) l)
  | SetOf _ c, VRepeated l =>
      VRepeated (map (canon c) (sort_on (encoding c) l))
  | _, _ => v
  end.

(** Every [SetOf] in the instance lists its elements in ascending order of
    their encodings. *)
Fixpoint ordered (cls : asn1_type) (v : inst) {struct cls} : bool :=
  match cls, v with
  | SequenceOf _ c, VRepeated l => forallb (ordered c) l
  | SetOf _ c, VRepeated l =>
      ascending (map (encoding c) l) && forallb (ordered c) l
  | _, _ => true
  end.


(** ** Invariants and provenance of objects *)

(** The object was made by the constructor of [cls], from a value or from
    serialized contents, or by [cls.decode]. *)
Inductive created (cls : asn1_type) : object -> Prop :=
| created_from_value (value : pyobj) (self : object) :
    construct cls value = Ok self -> created cls self
| created_from_serialized (buf : str) (strict : bool) (self : object) :
    construct_serialized cls buf strict = Ok self -> created cls self
| created_by_decode (buf : str) (strict : bool) (self : object) :
    decode_object cls buf strict = Ok self -> created cls self.

(** At most one component of a [Choice] object is set. *)
Definition at_most_one_set (self : object) : Prop :=
  exists d : list (string * inst),
    getattr self "_value" = Ok (VChoice d) /\ (List.length d <= 1)%nat.

(** ** The dict of a Sequence instance *)

(** The dict of a [Sequence] instance whose components are set, in their
    order, to the instances [values]. *)
Definition set_fields (components : list Component) (values : list inst)
  : list (string * option inst) :=
  map (fun cv => (name (fst cv), Some (snd cv))) (combine components values).

(** The instances [values] of the components, the elements of every [SetOf]
    in them put in ascending order of their encodings. *)
Definition canon_fields (components : list Component) (values : list inst)
  : list inst :=
  map (fun cv => canon (value_type (fst cv)) (snd cv))
      (combine components values).

(** What the round trip of a [Sequence] asks of a component and the
    instance it is set to: the class of the component is in the scope of
    the round trip and the instance has its shape, the component is not
    defined by another one, and the instance does not encode as the default
    of the component. *)
Definition round_trip_field (c : Component) (v : inst) : Prop :=
  in_scope (value_type c) = true
  /\ valid (value_type c) v = true
  /\ defined_by c = None
  /\ Sequence.differs (encoded_default c) (encoding (value_type c) v) = true.

(** ** The rest of the decoding of a Sequence *)

(** What [Sequence._decode_value] does from the components [after] on, with
    the buffer [buf] and the dict [ret] that the components before them
    have left: the rest of the first pass, the check for leftover bytes,
    and the second pass over all [components]. *)
Definition decode_rest (components after : list Component) (buf : str)
  (strict : bool) (ret : list (string * option inst)) : result inst :=
  '(ret, buf) <-
    Sequence.decode_components (Sequence_components after) buf strict ret ;;
  match buf with
  | _ :: _ => Raise ASN1Error
  | [] =>
      ret <- Sequence.decode_any (Sequence_components components) strict ret ;;
      Ok (VSequence ret)
  end.

(** ** Induction over classes and the classes of their components *)

Section asn1_type_nested_ind.

Variable P : asn1_type -> Prop.
Hypothesis HBoolean : forall t, P (Boolean t).
Hypothesis HInteger : forall t, P (Integer t).
Hypothesis HASN1String : forall t, P (ASN1String t).
Hypothesis HBitString : forall t, P (BitString t).
Hypothesis HAny : forall t, P (Any t).
Hypothesis HChoice :
  forall t components,
    Forall (fun kc => P (snd kc)) components -> P (Choice t components).
Hypothesis HSequenceOf : forall t component, P component -> P (SequenceOf t component).
Hypothesis HSetOf : forall t component, P component -> P (SetOf t component).
Hypothesis HSequence :
  forall t components,
    Forall (fun c => P (value_type c)) components -> P (Sequence t components).


End asn1_type_nested_ind.

(** ** The round trip over every kind of class *)



(** The value of the component [c] that the encoding of a [Sequence] with
    the dict [d] holds: none when the component is not set or when its
    value encodes as the default of the component. *)
Definition present (c : Component) (d : list (string * option inst))
  : option inst :=
  match dict_get d (name c) with
  | Some (Some x) =>
      if Sequence.differs (encoded_default c) (encoding (value_type c) x)
      then Some x else None
  | _ => None
  end.


(** The mode in which a [Choice] decodes its component of class [c]: a
    component with one tag is decoded in strict mode whatever the mode of
    the [Choice] is. *)
Definition component_mode (strict : bool) (c : asn1_type) : bool :=
  if len (tags c) =? 1 then true else strict.

(** What the first pass of the decoding gives the component [c]: the value
    read from the encoding when it holds one, given by [returned] from the
    value encoded, and otherwise the default of the component. *)
Definition returned_field (c : Component) (returned : inst -> inst)
  (d : list (string * option inst)) : option inst :=
  match present c d with
  | Some x => Some (returned x)
  | None => default c
  end.

(** The dict after the second pass of the decoding, [first] being the dict
    after the first pass. *)
Definition second_pass (components : list Component) (strict : bool)
  (first : list (string * option inst)) : list (string * option inst) :=
  match Sequence.decode_any (Sequence_components components) strict first with
  | Ok d => d
  | Raise _ => first
  end.

(** The instance that decoding the encoding of the instance [v] of [cls]
    returns in the given mode, when it returns.  It is [v] with the
    elements of every [SetOf] in ascending order of their encodings, with
    every [Any] undecoded, and with the dict of every [Sequence] made anew:
    the components in their order, a component that the encoding does not
    hold bound to its default, followed by the second pass. *)
Fixpoint returned (strict : bool) (cls : asn1_type) (v : inst) {struct cls}
  : inst :=
  match cls, v with
  | Any _, VAny raw _ => VAny raw None
  | Choice _ components, VChoice ((key, x) :: _) =>
      match dict_get
              (map (fun kc =>
                      (fst kc,
                       returned (component_mode strict (snd kc)) (snd kc)))
                   components) key with
      | Some returned_component => VChoice [(key, returned_component x)]
      | None => v
      end
  | SequenceOf _ c, VRepeated l => VRepeated (map (returned strict c) l)
  | SetOf _ c, VRepeated l =>
      VRepeated (map (returned strict c) (sort_on (encoding c) l))
  | Sequence _ components, VSequence d =>
      VSequence
        (second_pass components strict
           (map (fun c =>
                   (name c,
                    returned_field c (returned strict (value_type c)) d))
                components))
  | _, _ => v
  end.








(** * Properties *)

(** ** Bytes *)

Lemma ord_range (b : byte) : 0 <= ord b < 256.
Proof. destruct b; vm_compute; split; congruence. Qed.

Lemma byte_of_ord (b : byte) : byte_of (ord b) = b.
Proof.
  unfold byte_of, ord. rewrite N2Z.id, Byte.of_to_N. reflexivity.
Qed.

Lemma ord_byte_of (i : Z) : 0 <= i < 256 -> ord (byte_of i) = i.
Proof.
  intros H. unfold byte_of, ord.
  destruct (Byte.of_N (Z.to_N i)) as [b|] eqn:E.
  - apply Byte.to_of_N in E. rewrite E. lia.
  - exfalso.
    pose proof (Byte.to_of_N_option_map (Z.to_N i)) as M.
    rewrite E in M. simpl in M.
    destruct (N.leb_spec (Z.to_N i) 255); [discriminate | lia].
Qed.

Lemma chr_ord (b : byte) : chr (ord b) = Ok b.
Proof.
  unfold chr. pose proof (ord_range b) as R.
  destruct (Z.ltb_spec (ord b) 0); [lia|].
  destruct (Z.ltb_spec 255 (ord b)); [lia|]. simpl.
  unfold ord. rewrite N2Z.id, Byte.of_to_N. reflexivity.
Qed.

Lemma chr_ok (i : Z) : 0 <= i < 256 -> chr i = Ok (byte_of i).
Proof.
  intros H. unfold chr, byte_of.
  destruct (Z.ltb_spec i 0); [lia|].
  destruct (Z.ltb_spec 255 i); [lia|]. simpl.
  destruct (Byte.of_N (Z.to_N i)) as [b|] eqn:E; [reflexivity|].
  exfalso.
  pose proof (Byte.to_of_N_option_map (Z.to_N i)) as M.
  rewrite E in M. simpl in M.
  destruct (N.leb_spec (Z.to_N i) 255); [discriminate | lia].
Qed.

Lemma str_eqb_refl (s : str) : str_eqb s s = true.
Proof. unfold str_eqb. destruct (list_eq_dec _ s s); congruence. Qed.

Lemma str_eqb_eq (a b : str) : str_eqb a b = true <-> a = b.
Proof.
  unfold str_eqb. destruct (list_eq_dec _ a b); split; congruence.
Qed.

(** ** C5: non-minimal integers *)

(** C5. [decode_int] raises [ASN1Error] on an empty input, on a leading 0x00
    followed by a byte below 128 and, when [signed], on a leading 0xFF
    followed by a byte of 128 or more (unsigned, that input decodes).  The
    function takes no strict flag, and [Integer._decode_value] ignores the
    one it is given, so the rejections are the same in both modes; 00 01 and
    FF 80 are rejected as the contents of an [Integer] in both modes. *)
Theorem decode_int_rejects_non_minimal :
  (forall signed, decode_int [] signed = Raise ASN1Error)
  /\ (forall signed b rest,
        ord b < 128 -> decode_int (x00 :: b :: rest) signed = Raise ASN1Error)
  /\ (forall b rest,
        128 <= ord b -> decode_int (xff :: b :: rest) true = Raise ASN1Error)
  /\ (forall b rest,
        128 <= ord b -> is_ok (decode_int (xff :: b :: rest) false) = true)
  /\ (forall buf strict,
        Integer._decode_value buf strict
        = (i <- decode_int buf true ;; Ok (VInt i)))
  /\ (forall strict,
        decode IntegerType [x02; x02; x00; x01] strict = Raise ASN1Error
        /\ decode IntegerType [x02; x02; xff; x80] strict = Raise ASN1Error).
Proof.
  repeat apply conj.
  - reflexivity.
  - intros signed b rest H. unfold decode_int.
    change (ord x00) with 0. simpl.
    destruct (Z.ltb_spec (ord b) 128); [reflexivity | lia].
  - intros b rest H. unfold decode_int.
    change (ord xff) with 255. simpl.
    destruct (Z.ltb_spec (ord b) 128); [lia|].
    destruct (Z.leb_spec 128 (ord b)); [reflexivity | lia].
  - intros b rest H. unfold decode_int.
    change (ord xff) with 255. simpl. reflexivity.
  - reflexivity.
  - intros strict. split; destruct strict; reflexivity.
Qed.

Lemma decode_int_rejects_non_minimal_witness :
  decode_int [x00; x01] true = Raise ASN1Error
  /\ decode_int [xff; x80] true = Raise ASN1Error
  /\ is_ok (decode_int [xff; x80] false) = true.
Proof.
  pose proof decode_int_rejects_non_minimal as (_ & Hz & Hf & Hu & _).
  split; [| split].
  - apply (Hz true x01 []). vm_compute. reflexivity.
  - apply (Hf x80 []). vm_compute. congruence.
  - apply (Hu x80 []). vm_compute. congruence.
Defined.

(** ** C7: Boolean contents *)

(** C7. [Boolean._decode_value]: the byte 0xFF is true and the byte 0x00 is
    false in both modes; any other single byte raises [ASN1Error] in strict
    mode and is true in lenient mode; contents that are not exactly one
    byte raise [ASN1Error] in both modes. *)
Theorem Boolean_decode_value_spec :
  (forall strict, Boolean._decode_value [xff] strict = Ok (VBool true))
  /\ (forall strict, Boolean._decode_value [x00] strict = Ok (VBool false))
  /\ (forall b, b <> xff -> b <> x00 ->
        Boolean._decode_value [b] true = Raise ASN1Error
        /\ Boolean._decode_value [b] false = Ok (VBool true))
  /\ (forall buf strict, List.length buf <> 1%nat ->
        Boolean._decode_value buf strict = Raise ASN1Error).
Proof.
  split; [| split; [| split]].
  - destruct strict; reflexivity.
  - destruct strict; reflexivity.
  - intros b H1 H2.
    unfold Boolean._decode_value, Boolean._TRUE, Boolean._FALSE. simpl.
    destruct (Byte.eqb b xff) eqn:E1.
    { apply Byte.byte_dec_bl in E1. contradiction. }
    destruct (Byte.eqb b x00) eqn:E2.
    { apply Byte.byte_dec_bl in E2. contradiction. }
    split; reflexivity.
  - intros buf strict H. destruct buf as [|b [|b' buf]]; simpl in *;
      try reflexivity. congruence.
Qed.

Lemma Boolean_decode_value_spec_witness :
  (Boolean._decode_value [x01] true = Raise ASN1Error
   /\ Boolean._decode_value [x01] false = Ok (VBool true))
  /\ Boolean._decode_value [xff; xff] false = Raise ASN1Error.
Proof.
  pose proof Boolean_decode_value_spec as (_ & _ & Hb & Hl).
  split.
  - apply (Hb x01); discriminate.
  - apply (Hl [xff; xff] false). simpl. lia.
Defined.


(** ** C8: bit strings *)

Lemma existsb_format_bits (n : Z) (ks : list Z) :
  existsb (fun c => Byte.eqb c BitString.char1)
          (map (fun i => if Z.testbit n i then BitString.char1
                         else BitString.char0) ks)
  = existsb (Z.testbit n) ks.
Proof.
  induction ks as [|k ks IH]; simpl; [reflexivity|].
  rewrite IH. destruct (Z.testbit n k); reflexivity.
Qed.

Lemma format_08b_length (b : byte) : List.length (BitString.format_08b b) = 8%nat.
Proof. reflexivity. Qed.

Lemma concat_format_08b_length (l : list byte) :
  List.length (List.concat (map BitString.format_08b l)) = (8 * List.length l)%nat.
Proof.
  induction l as [|b l IH]; simpl; [reflexivity|].
  rewrite IH. lia.
Qed.

(** A padding bit that is set is found by the scan of the last [pad]
    characters. *)
Lemma padding_bit_found (int_bytes : list byte) (final : byte) (pad i : Z) :
  pad <= 7 -> 0 <= i < pad -> Z.testbit (ord final) i = true ->
  existsb (fun c => Byte.eqb c BitString.char1)
          (slice_last (List.concat (map BitString.format_08b (int_bytes ++ [final])))
                      pad) = true.
Proof.
  intros Hp Hi Hbit. unfold slice_last.
  rewrite map_app, concat_app.
  change (List.concat (map BitString.format_08b [final]))
    with (BitString.format_08b final ++ []).
  rewrite app_nil_r.
  rewrite length_app, concat_format_08b_length, format_08b_length.
  rewrite skipn_app, concat_format_08b_length.
  rewrite (skipn_all2 (List.concat (map BitString.format_08b int_bytes)))
    by (rewrite concat_format_08b_length; lia).
  simpl app.
  match goal with
  | |- context [skipn ?n (BitString.format_08b final)] =>
      replace n with (8 - Z.to_nat pad)%nat by lia
  end.
  unfold BitString.format_08b. rewrite skipn_map, existsb_format_bits.
  apply existsb_exists. exists i. split; [|exact Hbit].
  assert (Hc : (Z.to_nat pad = 1 \/ Z.to_nat pad = 2 \/ Z.to_nat pad = 3
                \/ Z.to_nat pad = 4 \/ Z.to_nat pad = 5 \/ Z.to_nat pad = 6
                \/ Z.to_nat pad = 7)%nat) by lia.
  destruct Hc as [E|[E|[E|[E|[E|[E|E]]]]]]; rewrite E; simpl; lia.
Qed.

(** C8. The contents of the bit string "10110" are the pad count 3 and the
    byte 10110000, and these contents decode to "10110" again.  Decoding
    raises [ASN1Error], in both modes, on empty contents, on a pad count
    above 7, and when one of the [pad] low-order bits of the final byte is
    set. *)
Theorem BitString_contents_spec :
  BitString._encode_value (VStr bits_10110) = Ok [x03; xb0]
  /\ (forall strict,
        BitString._decode_value [x03; xb0] strict = Ok (VStr bits_10110))
  /\ (forall strict, BitString._decode_value [] strict = Raise ASN1Error)
  /\ (forall strict pad int_bytes,
        7 < ord pad ->
        BitString._decode_value (pad :: int_bytes) strict = Raise ASN1Error)
  /\ (forall strict pad int_bytes final i,
        ord pad <= 7 -> 0 <= i < ord pad ->
        Z.testbit (ord final) i = true ->
        BitString._decode_value (pad :: int_bytes ++ [final]) strict
        = Raise ASN1Error).
Proof.
  repeat apply conj.
  - reflexivity.
  - intros strict. reflexivity.
  - reflexivity.
  - intros strict pad int_bytes H. unfold BitString._decode_value.
    destruct (Z.ltb_spec 7 (ord pad)); [reflexivity | lia].
  - intros strict pad int_bytes final i Hp Hi Hbit.
    unfold BitString._decode_value.
    destruct (Z.ltb_spec 7 (ord pad)); [lia|].
    destruct (Z.eqb_spec (ord pad) 0); [lia|]. simpl negb. cbv iota.
    rewrite (padding_bit_found int_bytes final (ord pad) i Hp Hi Hbit).
    rewrite orb_true_r. reflexivity.
Qed.

Lemma BitString_contents_spec_witness :
  BitString._decode_value [x08; xb0] true = Raise ASN1Error
  /\ BitString._decode_value [x03; xb4] false = Raise ASN1Error.
Proof.
  pose proof BitString_contents_spec as (_ & _ & _ & Hpad & Hbit).
  split.
  - apply (Hpad true x08 [xb0]). vm_compute. reflexivity.
  - apply (Hbit false x03 [] xb4 2); vm_compute; try reflexivity.
    + congruence.
    + split; congruence.
Defined.


(** ** C6: the contents of a SetOf *)

Lemma ord_inj (x y : byte) : ord x = ord y -> x = y.
Proof.
  intros H. rewrite <- (byte_of_ord x), <- (byte_of_ord y), H. reflexivity.
Qed.

Lemma str_leb_total (a b : str) : str_leb a b = true \/ str_leb b a = true.
Proof.
  revert b. induction a as [|x a IH]; intros [|y b]; simpl; auto.
  destruct (Z.ltb_spec (ord x) (ord y)); auto.
  destruct (Z.ltb_spec (ord y) (ord x)); auto.
Qed.

Lemma str_leb_antisym (a b : str) :
  str_leb a b = true -> str_leb b a = true -> a = b.
Proof.
  revert b. induction a as [|x a IH]; intros [|y b]; simpl;
    try congruence.
  destruct (Z.ltb_spec (ord x) (ord y)); destruct (Z.ltb_spec (ord y) (ord x));
    try congruence; try lia.
  intros H1 H2. f_equal; [apply ord_inj; lia | auto].
Qed.

Lemma str_leb_trans (a b c : str) :
  str_leb a b = true -> str_leb b c = true -> str_leb a c = true.
Proof.
  revert b c. induction a as [|x a IH]; intros [|y b] [|z c]; simpl;
    try congruence.
  destruct (Z.ltb_spec (ord x) (ord y)); destruct (Z.ltb_spec (ord y) (ord x));
    destruct (Z.ltb_spec (ord y) (ord z)); destruct (Z.ltb_spec (ord z) (ord y));
    destruct (Z.ltb_spec (ord x) (ord z)); destruct (Z.ltb_spec (ord z) (ord x));
    try congruence; try lia.
  apply IH.
Qed.

Lemma insert_sorted_perm (x : str) (l : list str) :
  Permutation (x :: l) (insert_sorted x l).
Proof.
  induction l as [|y l IH]; simpl; [reflexivity|].
  destruct (str_leb x y); [reflexivity|].
  rewrite perm_swap. apply perm_skip, IH.
Qed.

Lemma sort_perm (l : list str) : Permutation l (sort l).
Proof.
  induction l as [|x l IH]; simpl; [reflexivity|].
  rewrite <- insert_sorted_perm. apply perm_skip, IH.
Qed.

Lemma insert_sorted_sorted (x : str) (l : list str) :
  StronglySorted str_le l -> StronglySorted str_le (insert_sorted x l).
Proof.
  induction 1 as [|y l Hs IH Hall]; simpl.
  - constructor; constructor.
  - destruct (str_leb x y) eqn:E.
    + constructor; [constructor; assumption|].
      constructor; [exact E|].
      eapply Forall_impl; [|exact Hall].
      intros z Hz. exact (str_leb_trans x y z E Hz).
    + constructor; [exact IH|].
      eapply Permutation_Forall; [apply insert_sorted_perm|].
      constructor; [|exact Hall].
      destruct (str_leb_total x y) as [H|H]; [congruence | exact H].
Qed.

Lemma sort_sorted (l : list str) : StronglySorted str_le (sort l).
Proof.
  induction l as [|x l IH]; simpl; [constructor|].
  apply insert_sorted_sorted, IH.
Qed.

(** Two sorted lists with the same elements, counted with repetition, are
    the same list. *)
Lemma sorted_perm_unique (l l' : list str) :
  StronglySorted str_le l -> StronglySorted str_le l' ->
  Permutation l l' -> l = l'.
Proof.
  intros Hl. revert l'. induction Hl as [|x l Hs IH Hall]; intros l' Hl' P.
  - apply Permutation_nil in P. congruence.
  - destruct Hl' as [|y l' Hs' Hall'].
    + symmetry in P. apply Permutation_nil in P. discriminate.
    + assert (x = y) as ->.
      { assert (In y (x :: l)) as Hy
          by (eapply Permutation_in; [symmetry; exact P | left; reflexivity]).
        assert (In x (y :: l')) as Hx
          by (eapply Permutation_in; [exact P | left; reflexivity]).
        destruct Hy as [Hy|Hy]; [congruence|].
        destruct Hx as [Hx|Hx]; [congruence|].
        rewrite Forall_forall in Hall, Hall'.
        apply str_leb_antisym; [apply Hall, Hy | apply Hall', Hx]. }
      f_equal. apply IH; [exact Hs'|].
      eapply Permutation_cons_inv; exact P.
Qed.

Lemma sort_of_perm (l l' : list str) : Permutation l l' -> sort l = sort l'.
Proof.
  intros P. apply sorted_perm_unique; try apply sort_sorted.
  rewrite <- (sort_perm l), <- (sort_perm l'). exact P.
Qed.

(** C6. The contents of a [SetOf] instance are the concatenation of the
    encodings of its elements sorted in ascending lexicographic byte order;
    the sorted list is a permutation of the encodings, so repeated elements
    are kept; and two instances whose elements have the same encodings up to
    order have the same contents and the same encoding. *)
Theorem SetOf_encode_sorted (t : list tag.Tag) (component : asn1_type)
  (l : list inst) (encodings : list str) :
  map_result (encode component) l = Ok encodings ->
  exists sorted : list str,
    SetOf._encode_value (encode component) (VRepeated l)
    = Ok (List.concat sorted)
    /\ encode (SetOf t component) (VRepeated l)
       = Abstract.encode t (Ok (List.concat sorted))
    /\ StronglySorted str_le sorted
    /\ Permutation encodings sorted
    /\ forall (l' : list inst) (encodings' : list str),
         map_result (encode component) l' = Ok encodings' ->
         Permutation encodings encodings' ->
         SetOf._encode_value (encode component) (VRepeated l')
         = Ok (List.concat sorted)
         /\ encode (SetOf t component) (VRepeated l')
            = encode (SetOf t component) (VRepeated l).
Proof.
  intros H. exists (sort encodings).
  assert (C : SetOf._encode_value (encode component) (VRepeated l)
              = Ok (List.concat (sort encodings))).
  { unfold SetOf._encode_value. rewrite H. reflexivity. }
  assert (E : forall l0, encode (SetOf t component) (VRepeated l0)
              = Abstract.encode t
                  (SetOf._encode_value (encode component) (VRepeated l0))).
  { intros l0. reflexivity. }
  repeat apply conj.
  - exact C.
  - rewrite E, C. reflexivity.
  - apply sort_sorted.
  - apply sort_perm.
  - intros l' encodings' H' P.
    assert (C' : SetOf._encode_value (encode component) (VRepeated l')
                 = Ok (List.concat (sort encodings))).
    { unfold SetOf._encode_value. rewrite H'. simpl.
      rewrite (sort_of_perm encodings encodings' P). reflexivity. }
    split; [exact C'|]. rewrite !E, C, C'. reflexivity.
Qed.

Lemma SetOf_encode_sorted_witness :
  exists sorted : list str,
    SetOf._encode_value (encode IntegerType) (VRepeated [VInt 5; VInt 1])
    = Ok (List.concat sorted)
    /\ StronglySorted str_le sorted
    /\ Permutation [[x02; x01; x05]; [x02; x01; x01]] sorted
    /\ encode (SetOfType IntegerType) (VRepeated [VInt 1; VInt 5])
       = encode (SetOfType IntegerType) (VRepeated [VInt 5; VInt 1]).
Proof.
  destruct (SetOf_encode_sorted (universal 17 tag.CONSTRUCTED) IntegerType
              [VInt 5; VInt 1] [[x02; x01; x05]; [x02; x01; x01]] eq_refl)
    as (sorted & C & _ & S & P & Hperm).
  exists sorted. repeat apply conj; try assumption.
  apply (Hperm [VInt 1; VInt 5] [[x02; x01; x01]; [x02; x01; x05]] eq_refl).
  apply perm_swap.
Defined.


(** ** Reasoning about the result monad *)

Lemma bind_Ok {A B : Type} (m : result A) (k : A -> result B) (b : B) :
  bind m k = Ok b -> exists a, m = Ok a /\ k a = Ok b.
Proof. destruct m as [a|e]; simpl; [eauto | discriminate]. Qed.

Ltac inv_bind H :=
  let a := fresh "a" in
  let E := fresh "E" in
  apply bind_Ok in H; destruct H as (a & E & H).

(** ** C3: the fast path of Choice *)

(** C3. When the alternative selected by the outer tag has exactly one tag,
    [Choice._decode_readahead_value] constructs it by
    [components[key](serialized_value=readahead_value)], without the strict
    flag, so its contents are decoded in strict mode whatever mode the
    [Choice] is read in.  A [Choice] of a [Boolean] read in lenient mode
    from the contents byte 0x01 raises [ASN1Error], although the [Boolean]
    class itself decodes these bytes to true in lenient mode. *)
Theorem Choice_fast_path_is_strict :
  (forall components buf readahead_tag readahead_value strict tag_map key spec,
      Choice.tag_map components = Ok tag_map ->
      MetaChoice.tag_map_get tag_map readahead_tag = Some key ->
      dict_get components key = Some spec ->
      len (cls_tags spec) = 1 ->
      Choice._decode_readahead_value components buf readahead_tag
        readahead_value strict
      = (value <- cls_serialized spec readahead_value true ;;
         Ok (VChoice [(key, value)])))
  /\ decode FlagChoice [x01; x01; x01] false = Raise ASN1Error
  /\ read FlagChoice [x01; x01; x01] false = Raise ASN1Error
  /\ decode BooleanType [x01; x01; x01] false = Ok (VBool true).
Proof.
  repeat apply conj; try reflexivity.
  intros components buf readahead_tag readahead_value strict tag_map key spec
    Hmap Hget Hspec Hone.
  unfold Choice._decode_readahead_value.
  rewrite Hmap. simpl. rewrite Hget, Hspec, Hone. reflexivity.
Qed.

Lemma Choice_fast_path_is_strict_witness :
  Choice._decode_readahead_value
    [("flag"%string, class_of BooleanType)] [x01; x01; x01]
    (tag.mk 1 tag.UNIVERSAL tag.PRIMITIVE) [x01] false
  = Raise ASN1Error.
Proof.
  pose proof Choice_fast_path_is_strict as (H & _).
  rewrite (H [("flag"%string, class_of BooleanType)] [x01; x01; x01]
             (tag.mk 1 tag.UNIVERSAL tag.PRIMITIVE) [x01] false
             [(tag.mk 1 tag.UNIVERSAL tag.PRIMITIVE, "flag"%string)]
             "flag"%string (class_of BooleanType)
             eq_refl eq_refl eq_refl eq_refl).
  reflexivity.
Defined.

(** ** C2: assignment to a field of a Sequence *)

Lemma created_dict (cls : asn1_type) (self : object) :
  created cls self ->
  ob_class self = cls /\ exists v, ob_dict self = [("_value"%string, v)].
Proof.
  intros [value o H | buf strict o H | buf strict o H];
    unfold construct, construct_serialized, decode_object in H;
    inv_bind H; injection H as <-; simpl; eauto.
Qed.

(** C2. [Sequence.__setitem__] stores the converted value in the dict held
    by [self._values], an attribute no method sets (the state of the
    instance is [self._value]): for every object made by the constructor or
    by [decode], every key of the [key_map] and every value that converts
    to the class of the component, the assignment raises [AttributeError]
    and leaves the object as it was, so [self[key]] still gives the old
    value. *)
Theorem Sequence_setitem_raises (t : list tag.Tag) (components : list Component)
  (self : object) (key : string) (value : pyobj)
  (component : Component) (converted : option inst) :
  created (Sequence t components) self ->
  SequenceObject.key_map_get self key = Ok component ->
  Sequence._convert_single_value component (new (value_type component)) value
  = Ok converted ->
  SequenceObject.__setitem__ self key value = raises self AttributeError
  /\ SequenceObject.__getitem__
       (fst (SequenceObject.__setitem__ self key value)) key
     = SequenceObject.__getitem__ self key.
Proof.
  intros Hc Hk Hv.
  destruct (created_dict _ _ Hc) as (_ & v & Hd).
  assert (E : SequenceObject.__setitem__ self key value
              = raises self AttributeError).
  { unfold SequenceObject.__setitem__. rewrite Hk, Hv.
    unfold getattr. rewrite Hd. reflexivity. }
  split; [exact E|]. rewrite E. reflexivity.
Qed.

Lemma Sequence_setitem_raises_witness :
  exists self : object,
    construct PointType (PyDict [("x"%string, PyInt 1)]) = Ok self
    /\ SequenceObject.__getitem__ self "x" = Ok (Some (VInt 1))
    /\ SequenceObject.__setitem__ self "x" (PyInt 2)
       = raises self AttributeError
    /\ SequenceObject.__getitem__
         (fst (SequenceObject.__setitem__ self "x" (PyInt 2))) "x"
       = Ok (Some (VInt 1)).
Proof.
  exists (mkObject PointType
            [("_value"%string,
              VSequence [("x"%string, Some (VInt 1)); ("y"%string, None)])]).
  split; [reflexivity|]. split; [reflexivity|].
  refine (Sequence_setitem_raises (universal 16 tag.CONSTRUCTED)
            [mkComponent "x" IntegerType None None false None [];
             mkComponent "y" IntegerType None None true None []]
            (mkObject PointType
               [("_value"%string,
                 VSequence [("x"%string, Some (VInt 1)); ("y"%string, None)])])
            "x" (PyInt 2)
            (mkComponent "x" IntegerType None None false None [])
            (Some (VInt 2)) _ eq_refl eq_refl).
  apply (created_from_value _ (PyDict [("x"%string, PyInt 1)])).
  reflexivity.
Defined.

(** ** C9: at most one component of a Choice is set *)

Lemma dict_get_set_same {A : Type} (d : list (string * A)) (k : string) (a : A) :
  dict_get (dict_set d k a) k = Some a.
Proof.
  induction d as [|[k' a'] d IH]; simpl.
  - rewrite String.eqb_refl. reflexivity.
  - destruct (String.eqb k' k) eqn:E; simpl.
    + rewrite String.eqb_refl. reflexivity.
    + rewrite E. exact IH.
Qed.

Lemma getattr_setattr (self : object) (attr : string) (v : inst) :
  getattr (setattr self attr v) attr = Ok v.
Proof. unfold getattr, setattr. simpl. rewrite dict_get_set_same. reflexivity. Qed.

Lemma Choice_decode_readahead_value_single
  (components : list (string * class_)) (buf : str) (readahead_tag : tag.Tag)
  (readahead_value : str) (strict : bool) (v : inst) :
  Choice._decode_readahead_value components buf readahead_tag readahead_value
    strict = Ok v ->
  exists key x, v = VChoice [(key, x)].
Proof.
  unfold Choice._decode_readahead_value. intros H. inv_bind H.
  destruct (MetaChoice.tag_map_get a readahead_tag) as [key|]; [|discriminate].
  destruct (dict_get components key) as [spec|]; [|discriminate].
  destruct (len (cls_tags spec) =? 1).
  - inv_bind H. injection H as <-. eauto.
  - inv_bind H. destruct a0 as [x rest].
    destruct rest; [|discriminate]. injection H as <-. eauto.
Qed.

Lemma Choice_decode_value_single
  (components : list (string * class_)) (buf : str) (strict : bool) (v : inst) :
  Choice._decode_value components buf strict = Ok v ->
  exists key x, v = VChoice [(key, x)].
Proof.
  unfold Choice._decode_value. intros H.
  inv_bind H. destruct a as [readahead_tag rest].
  inv_bind H. destruct a as [length rest'].
  destruct (negb (len rest' =? length)); [discriminate|].
  eapply Choice_decode_readahead_value_single, H.
Qed.

Lemma Choice_read_single
  (components : list (string * class_)) (buf : str) (strict : bool)
  (v : inst) (rest : str) :
  Choice._read components buf strict = Ok (v, rest) ->
  exists key x, v = VChoice [(key, x)].
Proof.
  unfold Choice._read. intros H.
  inv_bind H. destruct a as [readahead_tag rest0].
  inv_bind H. destruct a as [length rest'].
  destruct (len rest' <? length); [discriminate|].
  inv_bind H. injection H as <- _.
  eapply Choice_decode_readahead_value_single, E1.
Qed.

Lemma Choice_convert_value_at_most_one
  (components : list (string * (asn1_type * (pyobj -> result inst))))
  (value : pyobj) (v : inst) :
  Choice._convert_value components value = Ok v ->
  v = VChoice [] \/ exists key x, v = VChoice [(key, x)].
Proof.
  unfold Choice._convert_value. intros H.
  destruct (negb (py_bool value)).
  { injection H as <-. auto. }
  inv_bind H. destruct (negb (a =? 1)); [discriminate|].
  inv_bind H. destruct a0 as [key item].
  destruct (dict_get components key) as [[spec spec_new]|].
  - destruct item; try (injection H as <-; auto);
      inv_bind H; injection H as <-; eauto.
  - destruct item; try discriminate. injection H as <-. auto.
Qed.

Lemma Choice_serialized_single (t : list tag.Tag)
  (components : list (string * asn1_type)) (buf : str) (strict : bool)
  (v : inst) :
  cls_serialized (class_of (Choice t components)) buf strict = Ok v ->
  exists key x, v = VChoice [(key, x)].
Proof. simpl. apply Choice_decode_value_single. Qed.

Lemma Choice_class_read_single (t : list tag.Tag)
  (components : list (string * asn1_type)) (buf : str) (strict : bool)
  (v : inst) (rest : str) :
  read (Choice t components) buf strict = Ok (v, rest) ->
  exists key x, v = VChoice [(key, x)].
Proof.
  unfold read. simpl. unfold Abstract.read. destruct t as [|t0 t].
  - apply Choice_read_single.
  - intros H. inv_bind H. destruct a as [decoded_length buf'].
    inv_bind H. injection H as <- _.
    eapply Choice_decode_value_single, E0.
Qed.

Lemma Choice_new_at_most_one (t : list tag.Tag)
  (components : list (string * asn1_type)) (value : pyobj) (v : inst) :
  new (Choice t components) value = Ok v ->
  v = VChoice [] \/ exists key x, v = VChoice [(key, x)].
Proof.
  simpl. unfold Choice.__init__, Abstract.__init__.
  destruct value; try discriminate; apply Choice_convert_value_at_most_one.
Qed.

Lemma at_most_one_set_intro (cls : asn1_type) (v : inst) :
  (v = VChoice [] \/ exists key x, v = VChoice [(key, x)]) ->
  at_most_one_set (mkObject cls [("_value"%string, v)]).
Proof.
  intros [-> | (key & x & ->)]; eexists; (split; [reflexivity | simpl; lia]).
Qed.

(** C9. A [Choice] object has at most one component set after it is made
    from a value, from serialized contents or by [decode], and a [Choice]
    read from the wire has exactly one; [__setitem__] and [__delitem__]
    keep the invariant, whether they return or raise.  After an assignment
    of a value other than [None] that returns, the assigned key is the only
    one set, so a component set before is cleared; after an assignment of
    [None] no component is set. *)
Theorem Choice_at_most_one_component (t : list tag.Tag)
  (components : list (string * asn1_type)) :
  (forall self, created (Choice t components) self -> at_most_one_set self)
  /\ (forall buf strict v rest,
        read (Choice t components) buf strict = Ok (v, rest) ->
        exists key x, v = VChoice [(key, x)])
  /\ (forall self key value,
        at_most_one_set self ->
        at_most_one_set (fst (ChoiceObject.__setitem__ self key value)))
  /\ (forall self key value self',
        ChoiceObject.__setitem__ self key value = returns self' ->
        (value = PyNone /\ getattr self' "_value" = Ok (VChoice []))
        \/ (exists x, getattr self' "_value" = Ok (VChoice [(key, x)])))
  /\ (forall self key,
        at_most_one_set self ->
        at_most_one_set (fst (ChoiceObject.__delitem__ self key))).
Proof.
  repeat apply conj.
  - intros self [value o H | buf strict o H | buf strict o H].
    + unfold construct in H. inv_bind H. injection H as <-.
      apply at_most_one_set_intro. eapply Choice_new_at_most_one, E.
    + unfold construct_serialized in H. inv_bind H. injection H as <-.
      apply at_most_one_set_intro. right.
      eapply Choice_serialized_single, E.
    + unfold decode_object in H. inv_bind H. injection H as <-.
      apply at_most_one_set_intro. right.
      unfold decode, Abstract.decode in E. inv_bind E. destruct a0 as [v rest].
      destruct rest; [|discriminate]. injection E as <-.
      eapply Choice_class_read_single, E0.
  - intros buf strict v rest. apply Choice_class_read_single.
  - intros self key value Hinv. unfold ChoiceObject.__setitem__.
    destruct (dict_get (ChoiceObject.components self) key) as [spec|];
      [|exact Hinv].
    assert (Hset : forall d, (List.length d <= 1)%nat ->
              at_most_one_set (setattr self "_value" (VChoice d))).
    { intros d Hd. exists d. split; [apply getattr_setattr | exact Hd]. }
    destruct value;
      try (apply Hset; simpl; lia);
      match goal with
      | |- context [as_instance_of ?s ?n ?x] =>
          destruct (as_instance_of s n x)
      end; simpl; try exact Hinv; apply Hset; simpl; lia.
  - intros self key value self'. unfold ChoiceObject.__setitem__, returns, raises.
    destruct (dict_get (ChoiceObject.components self) key) as [spec|];
      [|discriminate].
    destruct value;
      try (intros H; injection H as <-; left; split;
           [reflexivity | apply getattr_setattr]);
      match goal with
      | |- context [as_instance_of ?s ?n ?x] =>
          destruct (as_instance_of s n x)
      end; try discriminate;
      intros H; injection H as <-; right; eexists; apply getattr_setattr.
  - intros self key Hinv. unfold ChoiceObject.__delitem__.
    destruct (getattr self "_value") as [[| | | |d| |]|e]; try exact Hinv.
    destruct (dict_mem d key).
    + exists []. split; [apply getattr_setattr | simpl; lia].
    + destruct (negb (dict_mem (ChoiceObject.components self) key)); exact Hinv.
Qed.

Lemma Choice_at_most_one_component_witness :
  at_most_one_set
    (fst (ChoiceObject.__setitem__
            (mkObject FlagChoice [("_value"%string, VChoice [])])
            "flag" (PyBool true)))
  /\ at_most_one_set
       (fst (ChoiceObject.__delitem__
               (mkObject FlagChoice
                  [("_value"%string, VChoice [("flag"%string, VBool true)])])
               "flag")).
Proof.
  pose proof (Choice_at_most_one_component [] [("flag"%string, BooleanType)])
    as (_ & _ & Hset & _ & Hdel).
  split.
  - apply Hset. exists []. split; [reflexivity | simpl; lia].
  - apply Hdel. eexists. split; [reflexivity | simpl; lia].
Defined.


(** ** C4: decoding the fields of a Sequence *)

Lemma class_of_Sequence (t : list tag.Tag) (components : list Component) :
  cls_serialized (class_of (Sequence t components))
  = Sequence._decode_value (Sequence_components components).
Proof. reflexivity. Qed.

Lemma decode_components_app
  (l1 l2 : list (Component * Sequence.component_class))
  (buf : str) (strict : bool) (ret : list (string * option inst)) :
  Sequence.decode_components (l1 ++ l2) buf strict ret
  = match Sequence.decode_components l1 buf strict ret with
    | Ok (ret', buf') => Sequence.decode_components l2 buf' strict ret'
    | Raise e => Raise e
    end.
Proof.
  revert buf ret. induction l1 as [|[c cc] l1 IH]; intros buf ret; simpl.
  - reflexivity.
  - destruct (Sequence.value_type_read cc buf strict) as [[v buf']|e].
    + apply IH.
    + destruct e; try reflexivity.
      destruct (negb (optional c)); [reflexivity | apply IH].
Qed.

Lemma Sequence_components_app (l1 l2 : list Component) :
  Sequence_components (l1 ++ l2)
  = Sequence_components l1 ++ Sequence_components l2.
Proof. apply map_app. Qed.

(** ** C10: reading past the end of the buffer *)

Lemma tag_value_nonempty (t : tag.Tag) : 0 < tag.length t.
Proof.
  unfold tag.length, tag.value, len.
  destruct (N.leb (tag.number t) 30); simpl; lia.
Qed.

Lemma read_tagged (cls : asn1_type) (buf : str) (strict : bool) :
  tagged cls = true ->
  read cls buf strict
  = ('(decoded_length, buf') <- Abstract.read_tags (rev (tags cls)) buf 0 ;;
     value <- cls_serialized (class_of cls)
                (slice_to buf' decoded_length) strict ;;
     Ok (value, slice_from buf' decoded_length)).
Proof.
  unfold tagged, read.
  destruct cls as [t|t|t|t|t|t cs|t c|t c|t cs]; simpl;
    destruct t as [|t0 t]; try discriminate; reflexivity.
Qed.

Lemma str_eqb_length (a b : str) :
  List.length a <> List.length b -> str_eqb a b = false.
Proof.
  intros H. destruct (str_eqb a b) eqn:E; [|reflexivity].
  apply str_eqb_eq in E. congruence.
Qed.

Lemma read_tags_short (t : tag.Tag) (inner : list tag.Tag) (buf : str) (n : Z) :
  len buf < tag.length t ->
  Abstract.read_tags (t :: inner) buf n = Raise ASN1TagError.
Proof.
  intros H. simpl. rewrite str_eqb_length; [reflexivity|].
  unfold slice_to, tag.length, len in *. rewrite length_firstn. lia.
Qed.

Lemma read_short (cls : asn1_type) (t : tag.Tag) (buf : str) (strict : bool) :
  MetaChoice.outer_tag (tags cls) = Some t ->
  len buf < tag.length t ->
  read cls buf strict = Raise ASN1TagError.
Proof.
  intros Ht Hlen. unfold MetaChoice.outer_tag in Ht.
  destruct (rev (tags cls)) as [|t' inner] eqn:E; [discriminate|].
  injection Ht as ->.
  rewrite read_tagged.
  - rewrite E, read_tags_short by exact Hlen. reflexivity.
  - unfold tagged. destruct (tags cls); [discriminate | reflexivity].
Qed.

Lemma read_empty (cls : asn1_type) (strict : bool) :
  tagged cls = true -> read cls [] strict = Raise ASN1TagError.
Proof.
  intros H. unfold tagged in H.
  destruct (rev (tags cls)) as [|t inner] eqn:E.
  - destruct (tags cls) as [|t0 ts]; [discriminate|].
    simpl in E. destruct (rev ts); discriminate.
  - apply (read_short cls t).
    + unfold MetaChoice.outer_tag. rewrite E. reflexivity.
    + pose proof (tag_value_nonempty t). unfold len. simpl. lia.
Qed.

Lemma decode_components_out_of_bytes (components : list Component)
  (strict : bool) (ret : list (string * option inst)) :
  Forall (fun c => optional c = true /\ tagged (value_type c) = true)
         components ->
  Sequence.decode_components (Sequence_components components) [] strict ret
  = Ok (with_defaults components ret, []).
Proof.
  intros H. revert ret. induction H as [|c cs [Hopt Htag] _ IH]; intros ret.
  - reflexivity.
  - simpl. rewrite (read_empty _ strict Htag), Hopt. simpl. apply IH.
Qed.

Lemma decode_any_no_defined_by (components : list Component) (strict : bool)
  (ret : list (string * option inst)) :
  Forall (fun c => defined_by c = None) components ->
  Sequence.decode_any (Sequence_components components) strict ret = Ok ret.
Proof.
  induction 1 as [|c cs Hc _ IH]; simpl; [reflexivity|].
  rewrite Hc. exact IH.
Qed.

(** C10. For a class with tags, [read] on a buffer shorter than the bytes
    of the outermost tag, in particular on an empty buffer, raises
    [ASN1TagError] and not [ASN1Error].  So when the contents of a
    [Sequence] run out after the components [before], a mandatory next
    component with tags makes the decoding raise [ASN1TagError], and
    remaining components that are all optional, with tags, all get their
    defaults: the first pass ends without an exception, and when no
    component is defined by another the [Sequence] decodes to the dict with
    these defaults. *)
Theorem read_out_of_bytes_is_tag_error :
  (forall cls t buf strict,
      MetaChoice.outer_tag (tags cls) = Some t ->
      len buf < tag.length t ->
      read cls buf strict = Raise ASN1TagError)
  /\ (forall cls strict,
      tagged cls = true -> read cls [] strict = Raise ASN1TagError)
  /\ (forall before after contents strict ret,
      Sequence.decode_components (Sequence_components before) contents strict []
      = Ok (ret, []) ->
      Forall (fun c => optional c = true /\ tagged (value_type c) = true)
             after ->
      Sequence.decode_components
        (Sequence_components (before ++ after)) contents strict []
      = Ok (with_defaults after ret, []))
  /\ (forall t before after contents strict ret,
      Sequence.decode_components (Sequence_components before) contents strict []
      = Ok (ret, []) ->
      Forall (fun c => optional c = true /\ tagged (value_type c) = true)
             after ->
      Forall (fun c => defined_by c = None) (before ++ after) ->
      cls_serialized (class_of (Sequence t (before ++ after))) contents strict
      = Ok (VSequence (with_defaults after ret)))
  /\ (forall t before component after contents strict ret,
      Sequence.decode_components (Sequence_components before) contents strict []
      = Ok (ret, []) ->
      optional component = false -> tagged (value_type component) = true ->
      cls_serialized (class_of (Sequence t (before ++ component :: after)))
        contents strict
      = Raise ASN1TagError).
Proof.
  repeat apply conj.
  - exact read_short.
  - exact read_empty.
  - intros before after contents strict ret Hb Ha.
    rewrite Sequence_components_app, decode_components_app, Hb.
    apply decode_components_out_of_bytes, Ha.
  - intros t before after contents strict ret Hb Ha Hd.
    rewrite class_of_Sequence. unfold Sequence._decode_value.
    rewrite Sequence_components_app, decode_components_app, Hb.
    rewrite decode_components_out_of_bytes by exact Ha. simpl.
    rewrite <- Sequence_components_app.
    rewrite decode_any_no_defined_by by exact Hd. reflexivity.
  - intros t before component after contents strict ret Hb Hopt Htag.
    rewrite class_of_Sequence. unfold Sequence._decode_value.
    rewrite Sequence_components_app, decode_components_app, Hb.
    simpl. rewrite (read_empty _ strict Htag), Hopt. reflexivity.
Qed.

Lemma read_out_of_bytes_is_tag_error_witness :
  read IntegerType [] false = Raise ASN1TagError
  /\ cls_serialized (class_of PointType) [x02; x01; x05] true
     = Ok (VSequence [("x"%string, Some (VInt 5)); ("y"%string, None)]).
Proof.
  pose proof read_out_of_bytes_is_tag_error as (_ & He & _ & Hs & _).
  split.
  - apply He. reflexivity.
  - apply (Hs (universal 16 tag.CONSTRUCTED)
              [mkComponent "x" IntegerType None None false None []]
              [mkComponent "y" IntegerType None None true None []]
              [x02; x01; x05] true [("x"%string, Some (VInt 5))] eq_refl).
    + repeat constructor.
    + repeat constructor.
Defined.


(** ** Integers: decoding what was encoded *)

Lemma land_255 (v : Z) : Z.land v 255 = v mod 256.
Proof. change 255 with (Z.ones 8). rewrite Z.land_ones by lia. reflexivity. Qed.

Lemma shiftr_8 (v : Z) : Z.shiftr v 8 = v / 256.
Proof. rewrite Z.shiftr_div_pow2 by lia. reflexivity. Qed.

Lemma shiftl_8 (v : Z) : Z.shiftl v 8 = v * 256.
Proof. rewrite Z.shiftl_mul_pow2 by lia. reflexivity. Qed.

Lemma le_val_app (bs1 bs2 : list byte) (top : Z) :
  le_val (bs1 ++ bs2) top = le_val bs1 (le_val bs2 top).
Proof. unfold le_val. apply fold_right_app. Qed.

Lemma encode_int_loop_spec (fuel : nat) :
  forall (v : Z) (acc : list byte),
    - 256 ^ Z.of_nat fuel <= v < 256 ^ Z.of_nat fuel ->
    exists (bs : list byte) (s : Z),
      encode_int_loop fuel v acc = (s, acc ++ bs)
      /\ ((0 <= v /\ s = 0) \/ (v < 0 /\ s = -1))
      /\ le_val bs s = v
      /\ (v <> 0 -> v <> -1 ->
          bs <> [] /\ (0 < v -> last_byte bs <> 0)
          /\ (v < 0 -> last_byte bs <> 255)).
Proof.
  induction fuel as [|fuel IH]; intros v acc Hv.
  - simpl in Hv. exists [], v. simpl. rewrite app_nil_r.
    repeat apply conj; try reflexivity; lia.
  - simpl. destruct (Z.eqb_spec v 0) as [->|H0].
    { exists [], 0. simpl. rewrite app_nil_r.
      repeat apply conj; try reflexivity; lia. }
    destruct (Z.eqb_spec v (-1)) as [->|H1].
    { exists [], (-1). simpl. rewrite app_nil_r.
      repeat apply conj; try reflexivity; lia. }
    simpl. rewrite land_255, shiftr_8.
    assert (Hpow : 256 ^ Z.of_nat (S fuel) = 256 * 256 ^ Z.of_nat fuel).
    { rewrite Nat2Z.inj_succ, Z.pow_succ_r by lia. reflexivity. }
    rewrite Hpow in Hv.
    assert (Hp : 0 < 256 ^ Z.of_nat fuel) by (apply Z.pow_pos_nonneg; lia).
    pose proof (Z.div_mod v 256 ltac:(lia)) as Hdm.
    pose proof (Z.mod_pos_bound v 256 ltac:(lia)) as Hmod.
    destruct (IH (v / 256) (acc ++ [byte_of (v mod 256)])) as (bs & s & E & Hs & Hval & Hlast).
    { split.
      - apply Z.div_le_lower_bound; lia.
      - apply Z.div_lt_upper_bound; lia. }
    exists (byte_of (v mod 256) :: bs), s.
    rewrite E, <- app_assoc. cbn [app].
    repeat apply conj.
    + reflexivity.
    + destruct Hs as [[Hq ->]|[Hq ->]]; [left | right]; split; try reflexivity; lia.
    + unfold le_val in *. cbn [fold_right]. rewrite Hval, ord_byte_of by lia. lia.
    + intros _ _. split; [discriminate|].
      destruct bs as [|b bs'].
      * simpl in Hval. subst s. unfold last_byte. simpl.
        rewrite ord_byte_of by lia.
        destruct Hs as [[Hq E0]|[Hq E0]]; split; intros; lia.
      * assert (Hne : v / 256 <> 0 /\ v / 256 <> -1).
        { split; intros Hq; rewrite Hq in E; simpl in E.
          - destruct fuel; simpl in E; injection E as _ E;
              apply (f_equal (@List.length byte)) in E;
              rewrite !length_app in E; simpl in E; lia.
          - destruct fuel; simpl in E; injection E as _ E;
              apply (f_equal (@List.length byte)) in E;
              rewrite !length_app in E; simpl in E; lia. }
        destruct Hne as [Hn0 Hn1].
        destruct (Hlast Hn0 Hn1) as (_ & Hpos & Hneg).
        unfold last_byte in *. simpl last in *.
        split; intros Hsign; [apply Hpos | apply Hneg]; lia.
Qed.

Lemma fold_left_big_endian (rest : list byte) (top : Z) :
  fold_left (fun acc b => Z.shiftl acc 8 + ord b) rest top
  = le_val (rev rest) top.
Proof.
  revert top. induction rest as [|b rest IH]; intros top; cbn [fold_left rev].
  - reflexivity.
  - rewrite IH, le_val_app, shiftl_8.
    change (le_val [b] top) with (ord b + 256 * top).
    f_equal. lia.
Qed.

Lemma encode_int_fuel_enough (v : Z) :
  - 256 ^ Z.of_nat (encode_int_fuel v) <= v < 256 ^ Z.of_nat (encode_int_fuel v).
Proof.
  unfold encode_int_fuel.
  assert (H : Z.abs v < 256 ^ Z.of_nat (S (Z.to_nat (Z.log2 (Z.abs v))))).
  { destruct (Z.eq_dec v 0) as [->|Hv].
    { apply Z.pow_pos_nonneg; lia. }
    pose proof (Z.log2_spec (Z.abs v) ltac:(lia)) as [_ Hlt].
    pose proof (Z.log2_nonneg (Z.abs v)) as Hl.
    eapply Z.lt_le_trans; [exact Hlt|].
    rewrite Nat2Z.inj_succ, Z2Nat.id by lia.
    change 256 with (2 ^ 8). rewrite <- Z.pow_mul_r by lia.
    apply Z.pow_le_mono_r; lia. }
  lia.
Qed.

Lemma last_byte_rev (m : byte) (rinit : list byte) :
  last_byte (rev (m :: rinit)) = ord m.
Proof.
  unfold last_byte. simpl. rewrite last_last. reflexivity.
Qed.

Lemma decode_int_cons (b0 : byte) (rest : list byte) (signed : bool) :
  (match rest with
   | [] => true
   | b1 :: _ =>
       negb ((ord b0 =? 0) && (ord b1 <? 128))
       && negb (signed && (ord b0 =? 255) && (128 <=? ord b1))
   end = true) ->
  decode_int (b0 :: rest) signed
  = Ok (le_val (rev rest)
          (if signed && (127 <? ord b0) then ord b0 - 256 else ord b0)).
Proof.
  intros H. unfold decode_int. rewrite fold_left_big_endian.
  destruct rest as [|b1 rest]; [reflexivity|].
  apply andb_prop in H. destruct H as [H1 H2].
  apply negb_true_iff in H1, H2. rewrite H1, H2. reflexivity.
Qed.

Lemma le_val_rev_cons (m : byte) (rinit : list byte) (top : Z) :
  le_val (rev (m :: rinit)) top = le_val (rev rinit) (ord m + 256 * top).
Proof. cbn [rev]. rewrite le_val_app. reflexivity. Qed.

Theorem decode_int_encode_int (v : Z) (signed : bool) (bs : str) :
  encode_int v signed = Ok bs -> decode_int bs signed = Ok v.
Proof.
  unfold encode_int.
  destruct (negb signed && (v <? 0)) eqn:Hneg; [discriminate|].
  destruct (Z.eqb_spec v 0) as [->|H0].
  { intros H. injection H as <-. destruct signed; reflexivity. }
  destruct (Z.eqb_spec v (-1)) as [->|H1].
  { intros H. injection H as <-. destruct signed; [reflexivity|discriminate]. }
  destruct (encode_int_loop_spec _ v [] (encode_int_fuel_enough v))
    as (bs0 & s & E & Hs & Hval & Hlast).
  rewrite E. cbn [app].
  destruct (Hlast H0 H1) as (Hne & Hpos & Hn).
  destruct (rev bs0) as [|m rinit] eqn:Hrev.
  { apply (f_equal (@rev byte)) in Hrev. rewrite rev_involutive in Hrev.
    contradiction. }
  assert (Hbs0 : bs0 = rev (m :: rinit)).
  { rewrite <- Hrev, rev_involutive. reflexivity. }
  subst bs0. clear Hrev E Hlast Hne.
  rewrite last_byte_rev in *. rewrite le_val_rev_cons in Hval.
  pose proof (ord_range m) as Hm.
  assert (Hplain : forall top,
             (match rinit with
              | [] => true
              | b1 :: _ =>
                  negb ((ord m =? 0) && (ord b1 <? 128))
                  && negb (signed && (ord m =? 255) && (128 <=? ord b1))
              end = true) ->
             (if signed && (127 <? ord m) then ord m - 256 else ord m)
             = ord m + 256 * top ->
             le_val (rev rinit) (ord m + 256 * top) = v ->
             decode_int (rev (rev (m :: rinit))) signed = Ok v).
  { intros top Hc Hl Hv. rewrite rev_involutive, decode_int_cons by exact Hc.
    rewrite Hl, Hv. reflexivity. }
  destruct signed.
  - destruct Hs as [[Hv ->]|[Hv ->]].
    + change ((0 =? -1)) with false. cbn [andb].
      change (0 =? 0) with true. cbn [andb].
      destruct (Z.ltb_spec 127 (ord m)) as [Hbig|Hsmall].
      * intros H. injection H as <-.
        rewrite !rev_app_distr, ?rev_involutive; cbn [rev app].
        rewrite decode_int_cons.
        -- change (true && (127 <? ord x00)) with false. cbv iota.
           rewrite le_val_rev_cons. change (ord x00) with 0.
           rewrite Hval. reflexivity.
        -- change (ord x00) with 0.
           destruct (Z.ltb_spec (ord m) 128); [lia|]. reflexivity.
      * intros H. injection H as <-.
        apply (Hplain 0); [| |exact Hval].
        -- destruct rinit as [|b1 r]; [reflexivity|].
           destruct (Z.eqb_spec (ord m) 0); [lia|].
           destruct (Z.eqb_spec (ord m) 255); [lia|]. reflexivity.
        -- destruct (Z.ltb_spec 127 (ord m)); [lia|]. cbn [andb]. lia.
    + change (-1 =? -1) with true. cbn [andb].
      destruct (Z.leb_spec (ord m) 127) as [Hsmall|Hbig].
      * intros H. injection H as <-.
        rewrite !rev_app_distr, ?rev_involutive; cbn [rev app].
        rewrite decode_int_cons.
        -- change (true && (127 <? ord xff)) with true. cbv iota.
           rewrite le_val_rev_cons. change (ord xff - 256) with (-1).
           rewrite Hval. reflexivity.
        -- change (ord xff) with 255.
           destruct (Z.leb_spec 128 (ord m)); [lia|]. reflexivity.
      * change (-1 =? 0) with false. cbn [andb].
        intros H. injection H as <-.
        apply (Hplain (-1)); [| |exact Hval].
        -- destruct rinit as [|b1 r]; [reflexivity|].
           destruct (Z.eqb_spec (ord m) 0); [lia|].
           destruct (Z.eqb_spec (ord m) 255); [lia|]. reflexivity.
        -- destruct (Z.ltb_spec 127 (ord m)); [|lia]. cbn [andb]. lia.
  - intros H. injection H as <-.
    simpl in Hneg. destruct (Z.ltb_spec v 0); [discriminate|].
    destruct Hs as [[Hv ->]|[Hv ->]]; [|lia].
    apply (Hplain 0); [| |exact Hval].
    + destruct rinit as [|b1 r]; [reflexivity|].
      destruct (Z.eqb_spec (ord m) 0); [lia|]. reflexivity.
    + cbn [andb]. lia.
Qed.


(** ** Lengths: reading what was encoded *)

Lemma le_val_lower_bound (l : list byte) (top : Z) :
  0 <= top -> 256 ^ len l * top <= le_val l top.
Proof.
  intros Ht. unfold len. induction l as [|b l IH].
  - change (le_val [] top) with top.
    change (256 ^ Z.of_nat (List.length (@nil byte))) with 1. lia.
  - change (le_val (b :: l) top) with (ord b + 256 * le_val l top).
    pose proof (ord_range b).
    replace (Z.of_nat (List.length (b :: l))) with (Z.succ (Z.of_nat (List.length l)))
      by (simpl List.length; lia).
    rewrite Z.pow_succ_r by lia. nia.
Qed.

Lemma encode_int_unsigned_shape (v : Z) (bs : str) :
  0 < v -> encode_int v false = Ok bs ->
  exists m rinit,
    bs = m :: rinit /\ ord m <> 0 /\ le_val (rev rinit) (ord m) = v.
Proof.
  intros Hv. unfold encode_int.
  destruct (Z.ltb_spec v 0); [lia|]. cbn [negb andb].
  destruct (Z.eqb_spec v 0); [lia|].
  destruct (Z.eqb_spec v (-1)); [lia|].
  destruct (encode_int_loop_spec _ v [] (encode_int_fuel_enough v))
    as (bs0 & s & E & Hs & Hval & Hlast).
  rewrite E. cbn [app]. intros Hbs. injection Hbs as <-.
  destruct (Hlast ltac:(lia) ltac:(lia)) as (Hne & Hpos & _).
  destruct (rev bs0) as [|m rinit] eqn:Hrev.
  { apply (f_equal (@rev byte)) in Hrev. rewrite rev_involutive in Hrev.
    contradiction. }
  assert (Hbs0 : bs0 = rev (m :: rinit)).
  { rewrite <- Hrev, rev_involutive. reflexivity. }
  subst bs0. rewrite last_byte_rev in Hpos. rewrite le_val_rev_cons in Hval.
  exists m, rinit. repeat apply conj; [reflexivity | apply Hpos; lia |].
  destruct Hs as [[_ ->]|[? _]]; [|lia]. rewrite <- Hval. f_equal. lia.
Qed.

Lemma encode_int_unsigned_length (v : Z) (bs : str) :
  0 < v < 2 ^ 1016 -> encode_int v false = Ok bs -> 1 <= len bs <= 127.
Proof.
  intros Hv H.
  destruct (encode_int_unsigned_shape v bs ltac:(lia) H)
    as (m & rinit & -> & Hm & Hval).
  pose proof (ord_range m) as Hr.
  pose proof (le_val_lower_bound (rev rinit) (ord m) ltac:(lia)) as Hb.
  unfold len in *. rewrite length_rev in Hb. simpl List.length.
  split; [lia|].
  destruct (Z_lt_le_dec (Z.of_nat (List.length rinit)) 127) as [|Hbig]; [lia|].
  exfalso.
  assert (256 ^ 127 <= 256 ^ Z.of_nat (List.length rinit))
    by (apply Z.pow_le_mono_r; lia).
  change (2 ^ 1016) with (256 ^ 127) in Hv.
  assert (0 < 256 ^ 127) by (apply Z.pow_pos_nonneg; lia).
  nia.
Qed.

Lemma lor_128 (k : Z) : 0 <= k < 128 -> Z.lor 128 k = 128 + k.
Proof.
  intros Hk.
  assert (E : Z.land 128 k = 0).
  { replace k with (Z.land 127 k).
    - rewrite Z.land_assoc. reflexivity.
    - rewrite Z.land_comm. change 127 with (Z.ones 7).
      rewrite Z.land_ones by lia. apply Z.mod_small. lia. }
  pose proof (Z.add_lor_land 128 k) as H. rewrite E in H. lia.
Qed.

Lemma land_127 (k : Z) : 0 <= k < 128 -> Z.land (128 + k) 127 = k.
Proof.
  intros Hk. change 127 with (Z.ones 7). rewrite Z.land_ones by lia.
  change (2 ^ 7) with 128.
  replace (128 + k) with (k + 1 * 128) by lia.
  rewrite Z.mod_add by lia. apply Z.mod_small. lia.
Qed.

Lemma slice_to_app {A : Type} (a b : list A) : slice_to (a ++ b) (len a) = a.
Proof.
  unfold slice_to, len. rewrite Nat2Z.id.
  rewrite firstn_app, Nat.sub_diag, firstn_all. simpl. apply app_nil_r.
Qed.

Lemma slice_from_app {A : Type} (a b : list A) : slice_from (a ++ b) (len a) = b.
Proof.
  unfold slice_from, len. rewrite Nat2Z.id.
  rewrite skipn_app, Nat.sub_diag, skipn_all. reflexivity.
Qed.

Lemma len_app {A : Type} (a b : list A) : len (a ++ b) = len a + len b.
Proof. unfold len. rewrite length_app. lia. Qed.

Lemma len_nonneg {A : Type} (a : list A) : 0 <= len a.
Proof. unfold len. lia. Qed.

Lemma read_length_encode_length (n : Z) (encoded_length rest : str) :
  0 <= n < 2 ^ 1016 ->
  encode_length n = Ok encoded_length ->
  read_length (encoded_length ++ rest) = Ok (n, rest).
Proof.
  intros Hn. unfold encode_length.
  destruct (Z.leb_spec n 127) as [Hs|Hl].
  - rewrite chr_ok by lia. simpl. intros H. injection H as <-.
    simpl. rewrite ord_byte_of by lia.
    destruct (Z.leb_spec n 127); [reflexivity | lia].
  - intros H. inv_bind H. inv_bind H. injection H as <-.
    pose proof (encode_int_unsigned_length n a ltac:(lia) E) as Hlen.
    rewrite lor_128 in E0 by lia.
    remember (128 + len a) as k eqn:Hk.
    rewrite chr_ok in E0 by lia. injection E0 as <-.
    cbn [app read_length]. rewrite ord_byte_of by lia.
    destruct (Z.leb_spec k 127); [lia|].
    subst k. rewrite land_127 by lia.
    rewrite len_app. pose proof (len_nonneg rest).
    destruct (Z.ltb_spec (len a + len rest) (len a)); [lia|].
    rewrite slice_to_app, slice_from_app.
    rewrite (decode_int_encode_int n false a E). reflexivity.
Qed.


(** ** Framing: reading the tags and lengths that were written *)

Lemma Abstract_encode_Raise (tags : list tag.Tag) (e : exn) :
  Abstract.encode tags (Raise e) = Raise e.
Proof.
  unfold Abstract.encode. induction tags as [|t tags IH]; simpl; auto.
Qed.

Lemma Abstract_encode_snoc (tags : list tag.Tag) (t : tag.Tag) (r : result str) :
  Abstract.encode (tags ++ [t]) r
  = (encoded_value <- Abstract.encode tags r ;;
     encoded_length <- encode_length (len encoded_value) ;;
     Ok (tag.value t ++ encoded_length ++ encoded_value)).
Proof. unfold Abstract.encode. rewrite fold_left_app. reflexivity. Qed.

Lemma Abstract_encode_Ok (tags : list tag.Tag) (r : result str) (e : str) :
  Abstract.encode tags r = Ok e ->
  exists content, r = Ok content /\ len content <= len e.
Proof.
  revert e. induction tags as [|t tags IH] using rev_ind; intros e H.
  - simpl in H. exists e. split; [exact H | lia].
  - rewrite Abstract_encode_snoc in H. inv_bind H. inv_bind H.
    injection H as <-. destruct (IH a E) as (content & -> & Hlen).
    exists content. split; [reflexivity|].
    rewrite !len_app. pose proof (len_nonneg (tag.value t)).
    pose proof (len_nonneg a0). lia.
Qed.

Lemma read_tags_encoded (tags : list tag.Tag) :
  forall (content e rest : str) (n0 : Z),
    Abstract.encode tags (Ok content) = Ok e ->
    len e < 2 ^ 1016 ->
    Abstract.read_tags (rev tags) (e ++ rest) n0
    = Ok (match tags with [] => n0 | _ :: _ => len content end,
          content ++ rest).
Proof.
  induction tags as [|t tags IH] using rev_ind; intros content e rest n0 H Hlen.
  - simpl in H. injection H as <-. reflexivity.
  - rewrite Abstract_encode_snoc in H. inv_bind H. inv_bind H.
    injection H as <-. rename a into ev, a0 into el.
    rewrite rev_app_distr. cbn [rev app Abstract.read_tags].
    rewrite <- !app_assoc. unfold tag.length.
    rewrite slice_to_app, str_eqb_refl, slice_from_app. cbn [negb].
    rewrite !len_app in Hlen.
    pose proof (len_nonneg (tag.value t)). pose proof (len_nonneg el).
    pose proof (len_nonneg ev). pose proof (len_nonneg rest).
    rewrite (read_length_encode_length (len ev) el (ev ++ rest)) by (auto; lia).
    cbn [bind]. rewrite len_app.
    destruct (Z.ltb_spec (len ev + len rest) (len ev)); [lia|].
    rewrite (IH content ev rest (len ev) E) by lia.
    destruct tags as [|t0 tags].
    + simpl in E. injection E as <-. destruct (rev [] ++ [t]); reflexivity.
    + destruct ((t0 :: tags) ++ [t]) eqn:D; [|reflexivity].
      destruct tags; discriminate.
Qed.

Lemma read_framed (cls : asn1_type) (content e rest : str) (strict : bool) :
  tagged cls = true ->
  Abstract.encode (tags cls) (Ok content) = Ok e ->
  len e < 2 ^ 1016 ->
  read cls (e ++ rest) strict
  = (value <- cls_serialized (class_of cls) content strict ;; Ok (value, rest)).
Proof.
  intros Ht He Hlen. rewrite read_tagged by exact Ht.
  rewrite (read_tags_encoded (tags cls) content e rest 0 He Hlen).
  unfold tagged in Ht. destruct (tags cls); [discriminate|].
  cbn [bind]. rewrite slice_to_app, slice_from_app. reflexivity.
Qed.

Lemma encoded_nonempty (cls : asn1_type) (r : result str) (e : str) :
  tagged cls = true -> Abstract.encode (tags cls) r = Ok e -> e <> [].
Proof.
  unfold tagged. destruct (tags cls) as [|t0 ts] eqn:Ht; [discriminate|].
  intros _ H.
  assert (Hs : exists ts' t, t0 :: ts = ts' ++ [t]).
  { destruct (exists_last (l := t0 :: ts) ltac:(discriminate)) as (ts' & t & ->).
    eauto. }
  destruct Hs as (ts' & t & Hs). rewrite Hs, Abstract_encode_snoc in H.
  inv_bind H. inv_bind H. injection H as <-.
  pose proof (tag_value_nonempty t) as Hp. unfold tag.length, len in Hp.
  destruct (tag.value t); [simpl in Hp; lia | discriminate].
Qed.

(** The loop of a repeated type on the concatenation of encodings. *)
Lemma decode_loop_items (component_read : str -> bool -> result (inst * str))
  (strict : bool) (items : list (str * inst)) :
  Forall (fun item =>
            fst item <> []
            /\ forall rest, component_read (fst item ++ rest) strict
                            = Ok (snd item, rest)) items ->
  forall (fuel : nat) (ret : list inst),
    (List.length (List.concat (map fst items)) <= fuel)%nat ->
    Repeated.decode_loop fuel component_read (List.concat (map fst items))
      strict ret
    = Ok (ret ++ map snd items).
Proof.
  induction 1 as [|[e w] items [Hne Hread] _ IH]; intros fuel ret Hfuel.
  - simpl. rewrite app_nil_r. destruct fuel; reflexivity.
  - cbn [map List.concat fst snd] in *.
    rewrite length_app in Hfuel.
    destruct e as [|b e']; [contradiction|].
    destruct fuel as [|fuel]; [simpl in Hfuel; lia|].
    cbn [app Repeated.decode_loop].
    change (b :: e' ++ List.concat (map fst items))
      with ((b :: e') ++ List.concat (map fst items)).
    rewrite Hread. cbn [bind].
    rewrite IH by (simpl in Hfuel; lia).
    rewrite <- app_assoc. reflexivity.
Qed.


(** ** Bit strings: decoding what was encoded *)

Lemma is_bit_cases (c : byte) :
  BitString.is_bit c = true -> c = BitString.char0 \/ c = BitString.char1.
Proof.
  unfold BitString.is_bit. intros H. apply orb_prop in H.
  destruct H as [H|H]; apply Byte.byte_dec_bl in H; auto.
Qed.

Lemma chunk_of_eight (b0 b1 b2 b3 b4 b5 b6 b7 : byte) :
  forallb BitString.is_bit [b0; b1; b2; b3; b4; b5; b6; b7] = true ->
  exists n,
    BitString.int_base2 [b0; b1; b2; b3; b4; b5; b6; b7] = Ok n
    /\ BitString.format_08b (byte_of n) = [b0; b1; b2; b3; b4; b5; b6; b7].
Proof.
  cbn [forallb]. intros H.
  repeat (apply andb_prop in H; destruct H as [?H H]).
  repeat match goal with
         | Hb : BitString.is_bit _ = true |- _ =>
             apply is_bit_cases in Hb; destruct Hb as [-> | ->]
         end;
    eexists; split; vm_compute; reflexivity.
Qed.

Lemma pack_format (n : nat) :
  forall (padded_bits ret : str),
    List.length padded_bits = (8 * n)%nat ->
    forallb BitString.is_bit padded_bits = true ->
    BitString.pack padded_bits = Ok ret ->
    List.concat (map BitString.format_08b ret) = padded_bits.
Proof.
  induction n as [|n IH]; intros padded_bits ret Hlen Hbits Hpack.
  - destruct padded_bits; [|discriminate]. simpl in Hpack.
    injection Hpack as <-. reflexivity.
  - destruct padded_bits as [|b0 [|b1 [|b2 [|b3 [|b4 [|b5 [|b6 [|b7 rest]]]]]]]];
      try (simpl in Hlen; lia).
    assert (Hchunk : forallb BitString.is_bit [b0; b1; b2; b3; b4; b5; b6; b7]
                     = true
                     /\ forallb BitString.is_bit rest = true).
    { change (b0 :: b1 :: b2 :: b3 :: b4 :: b5 :: b6 :: b7 :: rest)
        with ([b0; b1; b2; b3; b4; b5; b6; b7] ++ rest) in Hbits.
      rewrite forallb_app in Hbits. apply andb_prop in Hbits. exact Hbits. }
    destruct Hchunk as [Hc Hr].
    destruct (chunk_of_eight _ _ _ _ _ _ _ _ Hc) as (k & Hk & Hf).
    cbn [BitString.pack] in Hpack. rewrite Hk in Hpack. cbn [bind] in Hpack.
    inv_bind Hpack. injection Hpack as <-.
    cbn [map List.concat]. rewrite Hf.
    rewrite (IH rest a); auto. simpl in Hlen. lia.
Qed.

Lemma forallb_repeat_char0 (n : nat) :
  forallb BitString.is_bit (repeat BitString.char0 n) = true.
Proof. induction n; simpl; auto. Qed.

Lemma existsb_repeat_char0 (n : nat) :
  existsb (fun c => Byte.eqb c BitString.char1) (repeat BitString.char0 n)
  = false.
Proof. induction n; simpl; auto. Qed.

Lemma BitString_decode_encode (s content : str) (strict : bool) :
  forallb BitString.is_bit s = true ->
  BitString._encode_value (VStr s) = Ok content ->
  BitString._decode_value content strict = Ok (VStr s).
Proof.
  intros Hbits. unfold BitString._encode_value.
  set (pad := (8 - len s mod 8) mod 8).
  assert (Hpad : 0 <= pad < 8) by (apply Z.mod_pos_bound; lia).
  intros H. inv_bind H. injection H as <-. rename a into ret.
  set (zeros := repeat BitString.char0 (Z.to_nat pad)) in *.
  assert (Hz : List.length zeros = Z.to_nat pad) by apply repeat_length.
  assert (Hmul : exists n, List.length (s ++ zeros) = (8 * n)%nat).
  { exists (Z.to_nat ((len s + pad) / 8)).
    rewrite length_app, Hz.
    assert (Hm : (len s + pad) mod 8 = 0).
    { unfold pad. rewrite Zplus_mod_idemp_r.
      replace (len s + (8 - len s mod 8)) with (len s - len s mod 8 + 1 * 8) by lia.
      rewrite Z.mod_add by lia. rewrite Zminus_mod_idemp_r.
      rewrite Z.sub_diag. reflexivity. }
    pose proof (Z.div_mod (len s + pad) 8 ltac:(lia)) as Hd.
    pose proof (len_nonneg s). unfold len in *.
    assert (0 <= (Z.of_nat (List.length s) + pad) / 8)
      by (apply Z.div_pos; lia).
    lia. }
  destruct Hmul as (n & Hn).
  assert (Hall : forallb BitString.is_bit (s ++ zeros) = true).
  { rewrite forallb_app, Hbits. apply forallb_repeat_char0. }
  pose proof (pack_format n _ _ Hn Hall E) as Hfmt.
  unfold BitString._decode_value.
  rewrite ord_byte_of by lia.
  destruct (Z.ltb_spec 7 pad); [lia|].
  rewrite Hfmt.
  destruct (Z.eqb_spec pad 0) as [Hp0|Hp0].
  - cbn [negb]. f_equal. f_equal.
    assert (zeros = []) as ->.
    { unfold zeros. rewrite Hp0. reflexivity. }
    apply app_nil_r.
  - cbn [negb].
    assert (Hlast : slice_last (s ++ zeros) pad = zeros).
    { unfold slice_last. rewrite length_app, Hz.
      replace (List.length s + Z.to_nat pad - Z.to_nat pad)%nat
        with (List.length s) by lia.
      rewrite skipn_app, Nat.sub_diag, skipn_all. reflexivity. }
    assert (Hdrop : slice_drop_last (s ++ zeros) pad = s).
    { unfold slice_drop_last. rewrite length_app, Hz.
      replace (List.length s + Z.to_nat pad - Z.to_nat pad)%nat
        with (List.length s) by lia.
      rewrite firstn_app, Nat.sub_diag, firstn_all. simpl. apply app_nil_r. }
    rewrite Hlast, Hdrop. unfold zeros. rewrite existsb_repeat_char0.
    destruct (Z.eqb_spec (len (s ++ repeat BitString.char0 (Z.to_nat pad))) 0)
      as [Hl|Hl].
    + exfalso. rewrite len_app in Hl. unfold len in Hl.
      rewrite repeat_length in Hl. lia.
    + reflexivity.
Qed.


(** ** C1: decoding what was encoded *)

Lemma map_insert_on (key : inst -> str) (x : inst) (l : list inst) :
  map key (insert_on key x l) = insert_sorted (key x) (map key l).
Proof.
  induction l as [|y l IH]; simpl; [reflexivity|].
  destruct (str_leb (key x) (key y)); simpl; [reflexivity|].
  rewrite IH. reflexivity.
Qed.

Lemma map_sort_on (key : inst -> str) (l : list inst) :
  map key (sort_on key l) = sort (map key l).
Proof.
  induction l as [|x l IH]; simpl; [reflexivity|].
  rewrite map_insert_on, IH. reflexivity.
Qed.

Lemma insert_on_perm (key : inst -> str) (x : inst) (l : list inst) :
  Permutation (x :: l) (insert_on key x l).
Proof.
  induction l as [|y l IH]; simpl; [reflexivity|].
  destruct (str_leb (key x) (key y)); [reflexivity|].
  rewrite perm_swap. apply perm_skip, IH.
Qed.

Lemma sort_on_perm (key : inst -> str) (l : list inst) :
  Permutation l (sort_on key l).
Proof.
  induction l as [|x l IH]; simpl; [reflexivity|].
  rewrite <- insert_on_perm. apply perm_skip, IH.
Qed.

Lemma sort_on_ascending (key : inst -> str) (l : list inst) :
  ascending (map key l) = true -> sort_on key l = l.
Proof.
  induction l as [|x l IH]; intros H; [reflexivity|].
  cbn [sort_on fold_right]. fold (sort_on key l).
  destruct l as [|y l]; [reflexivity|].
  cbn [map ascending] in H. apply andb_prop in H. destruct H as [Hxy Hl].
  rewrite IH by exact Hl. cbn [insert_on]. rewrite Hxy. reflexivity.
Qed.

Lemma map_result_encoding (cls : asn1_type) (l : list inst) (encs : list str) :
  map_result (encode cls) l = Ok encs ->
  encs = map (encoding cls) l
  /\ Forall (fun v => encode cls v = Ok (encoding cls v)) l.
Proof.
  revert encs. induction l as [|v l IH]; intros encs H; simpl in H.
  - injection H as <-. split; [reflexivity | constructor].
  - inv_bind H. inv_bind H. injection H as <-.
    destruct (IH a0 E0) as [-> Hall].
    assert (Hv : encoding cls v = a) by (unfold encoding; rewrite E; reflexivity).
    split.
    + simpl. rewrite Hv. reflexivity.
    + constructor; [rewrite Hv; exact E | exact Hall].
Qed.

Lemma map_result_Forall (cls : asn1_type) (l : list inst) :
  Forall (fun v => encode cls v = Ok (encoding cls v)) l ->
  map_result (encode cls) l = Ok (map (encoding cls) l).
Proof.
  induction 1 as [|v l Hv _ IH]; simpl; [reflexivity|].
  rewrite Hv. cbn [bind]. rewrite IH. reflexivity.
Qed.

Lemma len_concat_In (e : str) (encs : list str) :
  In e encs -> len e <= len (List.concat encs).
Proof.
  induction encs as [|x encs IH]; intros H; [contradiction|].
  cbn [List.concat]. rewrite len_app.
  pose proof (len_nonneg x). pose proof (len_nonneg (List.concat encs)).
  destruct H as [->|H]; [lia|]. specialize (IH H). lia.
Qed.

Lemma in_scope_tagged (cls : asn1_type) : in_scope cls = true -> tagged cls = true.
Proof.
  destruct cls; simpl; intros H; apply andb_prop in H; tauto.
Qed.

(** Decoding the contents of a repeated type: the elements [l] come back
    canonical, in the order of their encodings in the contents. *)
Lemma Repeated_decode_encoded (c : asn1_type) (l : list inst) (strict : bool)
  (bound : Z) :
  tagged c = true ->
  Forall (fun v => encode c v = Ok (encoding c v)) l ->
  len (List.concat (map (encoding c) l)) <= bound ->
  (forall v e rest,
      In v l -> encode c v = Ok e -> len e <= bound ->
      read c (e ++ rest) strict = Ok (canon c v, rest)) ->
  Repeated._decode_value (read c) (List.concat (map (encoding c) l)) strict
  = Ok (VRepeated (map (canon c) l)).
Proof.
  intros Ht Henc Hlen IH.
  unfold Repeated._decode_value.
  pose (items := map (fun v => (encoding c v, canon c v)) l).
  assert (Hfst : map fst items = map (encoding c) l).
  { unfold items. rewrite map_map. reflexivity. }
  assert (Hsnd : map snd items = map (canon c) l).
  { unfold items. rewrite map_map. reflexivity. }
  rewrite <- Hfst.
  rewrite (decode_loop_items (read c) strict items).
  - cbn [bind app]. rewrite Hsnd. reflexivity.
  - unfold items. apply Forall_map. rewrite Forall_forall in Henc |- *.
    intros v Hv. cbn [fst snd]. split.
    + pose proof (Henc v Hv) as He. unfold encode in He.
      destruct c; eapply encoded_nonempty; try exact He; exact Ht.
    + intros rest. apply IH; [exact Hv | apply Henc, Hv |].
      eapply Z.le_trans; [|exact Hlen].
      apply len_concat_In, in_map, Hv.
  - lia.
Qed.

Ltac scope_split H :=
  apply andb_prop in H; destruct H as [?Ht ?Hk].

Ltac framed He Hlen Ht content Hc Hle :=
  cbn [encode] in He;
  destruct (Abstract_encode_Ok _ _ _ He) as (content & Hc & Hle);
  rewrite Hc in He;
  rewrite (read_framed _ content _ _ _ Ht He Hlen);
  cbn [class_of cls_serialized].

Lemma read_encoded (cls : asn1_type) :
  in_scope cls = true ->
  forall (v : inst) (e rest : str) (strict : bool),
    valid cls v = true ->
    encode cls v = Ok e ->
    len e < 2 ^ 1016 ->
    read cls (e ++ rest) strict = Ok (canon cls v, rest).
Proof.
  induction cls as [t|t|t|t|t|t cs|t c IH|t c IH|t cs];
    intros Hs v e rest strict Hv He Hlen; cbn [in_scope] in Hs;
    scope_split Hs; try discriminate.
  - (* Boolean *)
    destruct v; try discriminate.
    framed He Hlen Ht content Hc Hle.
    cbn in Hc. injection Hc as <-.
    destruct b, strict; reflexivity.
  - (* Integer *)
    destruct v; try discriminate.
    framed He Hlen Ht content Hc Hle.
    cbn [Integer._encode_value] in Hc.
    unfold Integer._decode_value.
    rewrite (decode_int_encode_int _ _ _ Hc). reflexivity.
  - (* ASN1String *)
    destruct v; try discriminate.
    framed He Hlen Ht content Hc Hle.
    cbn in Hc. injection Hc as <-. reflexivity.
  - (* BitString *)
    destruct v; try discriminate. cbn [valid] in Hv.
    framed He Hlen Ht content Hc Hle.
    rewrite (BitString_decode_encode _ _ strict Hv Hc). reflexivity.
  - (* SequenceOf *)
    destruct v; try discriminate. cbn [valid] in Hv.
    framed He Hlen Ht content Hc Hle.
    unfold SequenceOf._encode_value in Hc. inv_bind Hc. injection Hc as <-.
    destruct (map_result_encoding _ _ _ E) as [-> Henc].
    unfold SequenceOf._decode_value.
    change (cls_read (class_of c)) with (read c).
    rewrite (Repeated_decode_encoded c l strict (len e));
      [reflexivity | apply in_scope_tagged, Hk | exact Henc | exact Hle |].
    intros v e' rest' Hin He' Hle'.
    apply IH; [exact Hk | | exact He' | lia].
    rewrite forallb_forall in Hv. apply Hv, Hin.
  - (* SetOf *)
    destruct v; try discriminate. cbn [valid] in Hv.
    framed He Hlen Ht content Hc Hle.
    unfold SetOf._encode_value in Hc. inv_bind Hc. injection Hc as <-.
    destruct (map_result_encoding _ _ _ E) as [-> Henc].
    rewrite <- map_sort_on in Hle |- *.
    unfold SetOf._decode_value.
    change (cls_read (class_of c)) with (read c).
    assert (Hin : forall x, In x (sort_on (encoding c) l) -> In x l).
    { intros x Hx. eapply Permutation_in; [|exact Hx].
      symmetry. apply sort_on_perm. }
    rewrite (Repeated_decode_encoded c (sort_on (encoding c) l) strict (len e));
      [reflexivity | apply in_scope_tagged, Hk | | exact Hle |].
    + rewrite Forall_forall in Henc |- *. intros x Hx. apply Henc, Hin, Hx.
    + intros v e' rest' Hv' He' Hle'.
      apply IH; [exact Hk | | exact He' | lia].
      rewrite forallb_forall in Hv. apply Hv, Hin, Hv'.
Qed.

Lemma ordered_canon (cls : asn1_type) :
  forall v, ordered cls v = true -> canon cls v = v.
Proof.
  induction cls as [t|t|t|t|t|t cs|t c IH|t c IH|t cs]; intros v H;
    try reflexivity.
  - destruct v; try reflexivity. cbn [ordered canon] in *.
    f_equal. rewrite forallb_forall in H.
    rewrite <- (map_id l) at 2. apply map_ext_in.
    intros x Hx. apply IH, H, Hx.
  - destruct v; try reflexivity. cbn [ordered canon] in *.
    apply andb_prop in H. destruct H as [Hasc Hall].
    rewrite sort_on_ascending by exact Hasc.
    f_equal. rewrite forallb_forall in Hall.
    rewrite <- (map_id l) at 2. apply map_ext_in.
    intros x Hx. apply IH, Hall, Hx.
Qed.







(** ** The loop of the repeated types ends *)

(** When every successful read of an element consumes at least one byte,
    the loop of [SequenceOf._decode_value] and [SetOf._decode_value] ends
    within as many turns as the buffer has bytes: it is [Diverges] only if a
    read of an element is. *)
Lemma decode_loop_no_Diverges
  (component_read : str -> bool -> result (inst * str)) (strict : bool) :
  (forall buf v rest,
      component_read buf strict = Ok (v, rest) ->
      (List.length rest < List.length buf)%nat) ->
  (forall buf, component_read buf strict <> Raise Diverges) ->
  forall (fuel : nat) (buf : str) (ret : list inst),
    (List.length buf <= fuel)%nat ->
    Repeated.decode_loop fuel component_read buf strict ret <> Raise Diverges.
Proof.
  intros Hcons Hnd. induction fuel as [|fuel IH]; intros buf ret Hfuel.
  - destruct buf; [discriminate | simpl in Hfuel; lia].
  - destruct buf as [|b buf]; [discriminate|].
    cbn [Repeated.decode_loop].
    destruct (component_read (b :: buf) strict) as [[v rest]|e] eqn:E.
    + cbn [bind]. apply IH. apply Hcons in E. simpl in E, Hfuel. lia.
    + cbn [bind]. intros H. injection H as ->. exact (Hnd _ E).
Qed.

(** * Further properties of the module *)

(** ** Integers *)

Lemma le_val_sign (l : list byte) (top : Z) : le_val l top < 0 <-> top < 0.
Proof.
  induction l as [|b l IH].
  - reflexivity.
  - change (le_val (b :: l) top) with (ord b + 256 * le_val l top).
    pose proof (ord_range b). lia.
Qed.

(** X1. [encode_int] raises [ValueError] exactly for a negative value to be
    encoded unsigned; in every other case it returns bytes that [decode_int]
    reads back, with the same signedness, as the value. *)
Theorem encode_int_decode_int (v : Z) (signed : bool) :
  (signed = false -> v < 0 -> encode_int v signed = Raise ValueError)
  /\ (signed = true \/ 0 <= v ->
      exists bs, encode_int v signed = Ok bs /\ decode_int bs signed = Ok v).
Proof.
  split.
  - intros -> Hv. unfold encode_int. cbn [negb andb].
    destruct (Z.ltb_spec v 0); [reflexivity | lia].
  - intros H.
    assert (E : exists bs, encode_int v signed = Ok bs).
    { unfold encode_int.
      assert (Hn : negb signed && (v <? 0) = false).
      { destruct H as [-> | Hv]; [reflexivity|].
        destruct (Z.ltb_spec v 0); [lia|]. apply andb_false_r. }
      rewrite Hn.
      destruct (v =? 0); [eauto|]. destruct (v =? -1); [eauto|].
      destruct (encode_int_loop (encode_int_fuel v) v []) as [value' int_bytes].
      eauto. }
    destruct E as (bs & E). exists bs. split; [exact E|].
    exact (decode_int_encode_int v signed bs E).
Qed.

Lemma encode_int_decode_int_witness :
  encode_int (-5) false = Raise ValueError
  /\ exists bs, encode_int (-129) true = Ok bs /\ decode_int bs true = Ok (-129).
Proof.
  split.
  - apply (proj1 (encode_int_decode_int (-5) false)); [reflexivity | lia].
  - apply (proj2 (encode_int_decode_int (-129) true)). left. reflexivity.
Defined.

(** X2. The bytes [encode_int] returns are minimal: there is at least one
    byte, a leading 0x00 is never followed by a byte below 128 and, signed,
    a leading 0xFF is never followed by a byte of 128 or more; signed, the
    high bit of the first byte is set exactly for a negative value. *)
Theorem encode_int_minimal (v : Z) (signed : bool) (bs : str) :
  encode_int v signed = Ok bs ->
  exists b0 rest,
    bs = b0 :: rest
    /\ (forall b1 rest', rest = b1 :: rest' ->
        ~ (ord b0 = 0 /\ ord b1 < 128)
        /\ (signed = true -> ~ (ord b0 = 255 /\ 128 <= ord b1)))
    /\ (signed = true -> (v < 0 <-> 128 <= ord b0)).
Proof.
  intros E. pose proof (decode_int_encode_int v signed bs E) as D.
  destruct bs as [|b0 rest]; [discriminate|].
  exists b0, rest. split; [reflexivity|].
  pose proof (ord_range b0) as R0.
  split.
  - intros b1 rest' ->. unfold decode_int in D.
    destruct ((ord b0 =? 0) && (ord b1 <? 128)) eqn:Z0; [discriminate|].
    destruct (signed && (ord b0 =? 255) && (128 <=? ord b1)) eqn:F; [discriminate|].
    split.
    + intros [H0 H1]. rewrite H0 in Z0.
      destruct (Z.ltb_spec (ord b1) 128); [discriminate | lia].
    + intros -> [H0 H1]. rewrite H0 in F.
      destruct (Z.leb_spec 128 (ord b1)); [discriminate | lia].
  - intros ->. unfold decode_int in D.
    destruct (match rest with
              | [] => false
              | b1 :: _ => (ord b0 =? 0) && (ord b1 <? 128)
              end); [discriminate|].
    destruct (match rest with
              | [] => false
              | b1 :: _ => true && (ord b0 =? 255) && (128 <=? ord b1)
              end); [discriminate|].
    injection D as D. rewrite fold_left_big_endian in D.
    cbn [andb] in D. rewrite <- D, le_val_sign.
    destruct (Z.ltb_spec 127 (ord b0)); lia.
Qed.

Lemma encode_int_minimal_witness :
  exists b0 rest,
    [x00; x80] = b0 :: rest
    /\ (forall b1 rest', rest = b1 :: rest' ->
        ~ (ord b0 = 0 /\ ord b1 < 128)
        /\ (true = true -> ~ (ord b0 = 255 /\ 128 <= ord b1)))
    /\ (true = true -> (128 < 0 <-> 128 <= ord b0)).
Proof. exact (encode_int_minimal 128 true [x00; x80] eq_refl). Defined.

(** ** Lengths *)

(** X3. For a length below 2^1016, [encode_length] returns bytes from
    which [read_length] reads the length back and leaves the bytes that
    follow; a length up to 127 takes one byte, a longer one takes a first
    byte above 128 that counts the bytes after it. *)
Theorem encode_length_read_length (n : Z) (rest : str) :
  0 <= n < 2 ^ 1016 ->
  exists encoded_length,
    encode_length n = Ok encoded_length
    /\ read_length (encoded_length ++ rest) = Ok (n, rest)
    /\ (n <= 127 -> encoded_length = [byte_of n])
    /\ (127 < n ->
        exists b0 digits,
          encoded_length = b0 :: digits
          /\ ord b0 = 128 + len digits /\ 1 <= len digits <= 127).
Proof.
  intros Hn.
  assert (E : exists el, encode_length n = Ok el
              /\ (n <= 127 -> el = [byte_of n])
              /\ (127 < n -> exists b0 digits,
                     el = b0 :: digits
                     /\ ord b0 = 128 + len digits /\ 1 <= len digits <= 127)).
  { unfold encode_length. destruct (Z.leb_spec n 127) as [Hs|Hl].
    - rewrite chr_ok by lia. eexists. split; [reflexivity|].
      split; [reflexivity | lia].
    - destruct (proj2 (encode_int_decode_int n false) ltac:(right; lia))
        as (bs & Hbs & _).
      rewrite Hbs. cbn [bind].
      pose proof (encode_int_unsigned_length n bs ltac:(lia) Hbs) as Hlen.
      rewrite lor_128 by lia. rewrite chr_ok by lia. cbn [bind].
      eexists. split; [reflexivity|]. split; [lia|].
      intros _. exists (byte_of (128 + len bs)), bs.
      split; [reflexivity|]. rewrite ord_byte_of by lia. lia. }
  destruct E as (el & E & Hshort & Hlong). exists el.
  split; [exact E|]. split; [|split; assumption].
  exact (read_length_encode_length n el rest Hn E).
Qed.

Lemma encode_length_read_length_witness :
  exists encoded_length,
    encode_length 300 = Ok encoded_length
    /\ read_length (encoded_length ++ [x05]) = Ok (300, [x05]).
Proof.
  destruct (encode_length_read_length 300 [x05]) as (el & E & R & _).
  - vm_compute. split; congruence.
  - exists el. split; assumption.
Defined.

(** ** Framing *)

(** X4. For a class with tags, [read] removes exactly the tags and lengths
    [Abstract.encode] writes around the contents: the constructor of the
    class gets the contents, and the bytes after the encoding come back
    untouched.  With nothing after the encoding, [decode] is the constructor
    on the contents. *)
Theorem read_strips_framing (cls : asn1_type) (content e rest : str)
  (strict : bool) :
  tagged cls = true ->
  Abstract.encode (tags cls) (Ok content) = Ok e ->
  len e < 2 ^ 1016 ->
  read cls (e ++ rest) strict
  = (value <- cls_serialized (class_of cls) content strict ;; Ok (value, rest))
  /\ decode cls e strict = cls_serialized (class_of cls) content strict.
Proof.
  intros Ht He Hlen.
  pose proof (read_framed cls content e rest strict Ht He Hlen) as R.
  split; [exact R|].
  unfold decode, Abstract.decode. rewrite <- (app_nil_r e) at 1.
  rewrite (read_framed cls content e [] strict Ht He Hlen).
  destruct (cls_serialized (class_of cls) content strict); reflexivity.
Qed.

Lemma read_strips_framing_witness :
  read (Sequence (universal 16 tag.CONSTRUCTED) [])
       ([x30; x00] ++ [x01; x02]) true
  = Ok (VSequence [], [x01; x02]).
Proof.
  refine (proj1 (read_strips_framing
                   (Sequence (universal 16 tag.CONSTRUCTED) [])
                   [] [x30; x00] [x01; x02] true eq_refl eq_refl _)).
  vm_compute. reflexivity.
Defined.

(** X5. For a class built from the scalar classes, [SequenceOf] and
    [SetOf], [read] on the encoding of an instance followed by any bytes
    returns the instance with the elements of every [SetOf] in ascending
    order of their encodings, which is the instance itself when they
    already are in this order, and returns these bytes as the rest;
    [decode] raises [ASN1Error] when there is at least one such byte. *)
Theorem decode_rejects_trailing_bytes (cls : asn1_type) (v : inst)
  (e rest : str) (strict : bool) :
  in_scope cls = true ->
  valid cls v = true ->
  encode cls v = Ok e ->
  len e < 2 ^ 1016 ->
  read cls (e ++ rest) strict = Ok (canon cls v, rest)
  /\ (ordered cls v = true -> read cls (e ++ rest) strict = Ok (v, rest))
  /\ (rest <> [] -> decode cls (e ++ rest) strict = Raise ASN1Error).
Proof.
  intros Hs Hv He Hlen.
  pose proof (read_encoded cls Hs v e rest strict Hv He Hlen) as R.
  split; [exact R|]. split.
  - intros Ho. rewrite R, (ordered_canon cls v Ho). reflexivity.
  - intros Hne. unfold decode, Abstract.decode. rewrite R. cbn [bind].
    destruct rest; [contradiction | reflexivity].
Qed.

Lemma decode_rejects_trailing_bytes_witness :
  decode IntegerType ([x02; x01; x05] ++ [x00]) false = Raise ASN1Error.
Proof.
  refine (proj2 (proj2 (decode_rejects_trailing_bytes IntegerType (VInt 5)
                          [x02; x01; x05] [x00] false
                          eq_refl eq_refl eq_refl _)) _).
  - vm_compute. reflexivity.
  - discriminate.
Defined.

Lemma read_length_error (buf : str) (e : exn) :
  read_length buf = Raise e -> e = ASN1Error.
Proof.
  unfold read_length. destruct buf as [|b0 rest]; [congruence|].
  destruct (ord b0 <=? 127); [discriminate|].
  destruct (len rest <? Z.land (ord b0) _MULTIBYTE_LENGTH_MASK); [congruence|].
  unfold decode_int.
  destruct (slice_to rest (Z.land (ord b0) _MULTIBYTE_LENGTH_MASK))
    as [|c0 cs]; [cbn; congruence|].
  destruct (match cs with
            | [] => false
            | b1 :: _ => (ord c0 =? 0) && (ord b1 <? 128)
            end); [cbn; congruence|].
  destruct (match cs with
            | [] => false
            | b1 :: _ => false && (ord c0 =? 255) && (128 <=? ord b1)
            end); cbn; congruence.
Qed.

(** X6. For a class with tags, [read] raises [ASN1TagError] when the buffer
    does not begin with the bytes of the outermost tag; when it does,
    [read] raises [ASN1Error] if no length can be read after the tag or if
    fewer bytes follow the length than it announces. *)
Theorem read_rejects_bad_framing (cls : asn1_type) (t : tag.Tag) (strict : bool) :
  MetaChoice.outer_tag (tags cls) = Some t ->
  (forall buf,
      slice_to buf (tag.length t) <> tag.value t ->
      read cls buf strict = Raise ASN1TagError)
  /\ (forall rest e,
      read_length rest = Raise e ->
      read cls (tag.value t ++ rest) strict = Raise ASN1Error)
  /\ (forall rest n body,
      read_length rest = Ok (n, body) -> len body < n ->
      read cls (tag.value t ++ rest) strict = Raise ASN1Error).
Proof.
  intros Ht. unfold MetaChoice.outer_tag in Ht.
  destruct (rev (tags cls)) as [|t' inner] eqn:E; [discriminate|].
  injection Ht as ->.
  assert (Htag : tagged cls = true).
  { unfold tagged. destruct (tags cls); [discriminate | reflexivity]. }
  repeat apply conj.
  - intros buf Hneq. rewrite read_tagged, E by exact Htag.
    cbn [Abstract.read_tags].
    destruct (str_eqb (slice_to buf (tag.length t)) (tag.value t)) eqn:Q.
    + apply str_eqb_eq in Q. contradiction.
    + reflexivity.
  - intros rest e Hr. rewrite read_tagged, E by exact Htag.
    cbn [Abstract.read_tags]. unfold tag.length.
    rewrite slice_to_app, str_eqb_refl, slice_from_app. cbn [negb].
    rewrite Hr. rewrite (read_length_error rest e Hr). reflexivity.
  - intros rest n body Hr Hshort. rewrite read_tagged, E by exact Htag.
    cbn [Abstract.read_tags]. unfold tag.length.
    rewrite slice_to_app, str_eqb_refl, slice_from_app. cbn [negb].
    rewrite Hr. cbn [bind].
    destruct (Z.ltb_spec (len body) n); [reflexivity | lia].
Qed.

Lemma read_rejects_bad_framing_witness :
  read IntegerType [x04; x01; x05] true = Raise ASN1TagError
  /\ read IntegerType ([x02] ++ []) true = Raise ASN1Error
  /\ read IntegerType ([x02] ++ [x02; x05]) true = Raise ASN1Error.
Proof.
  pose proof (read_rejects_bad_framing IntegerType
                (tag.mk 2 tag.UNIVERSAL tag.PRIMITIVE) true eq_refl)
    as (Hm & Hl & Hs).
  split; [| split].
  - apply Hm. discriminate.
  - apply (Hl [] ASN1Error). reflexivity.
  - apply (Hs [x02; x05] 2 [x05]); [reflexivity | vm_compute; reflexivity].
Defined.

(** ** Tagging *)

Lemma tags_set_tags (cls : asn1_type) (ts : list tag.Tag) :
  tags (set_tags cls ts) = ts.
Proof. destruct cls; reflexivity. Qed.

Lemma encode_set_tags (cls : asn1_type) (ts : list tag.Tag) (v : inst) :
  exists r,
    encode cls v = Abstract.encode (tags cls) r
    /\ encode (set_tags cls ts) v = Abstract.encode ts r.
Proof. destruct cls; eexists; split; reflexivity. Qed.

Lemma serialized_set_tags (cls : asn1_type) (ts : list tag.Tag) :
  cls_serialized (class_of (set_tags cls ts)) = cls_serialized (class_of cls).
Proof. destruct cls; reflexivity. Qed.

Lemma read_tags_start (reversed_tags : list tag.Tag) (buf : str) (n m : Z) :
  reversed_tags <> [] ->
  Abstract.read_tags reversed_tags buf n = Abstract.read_tags reversed_tags buf m.
Proof. destruct reversed_tags; [contradiction | reflexivity]. Qed.

(** X7. [Explicit] refuses the universal class with [TypeError]; otherwise
    the new class has one more tag, constructed, after the tags of the old
    one.  An instance of the new class encodes as the new tag, the length
    of the old encoding and the old encoding.  When the old class has tags,
    [read] on such a wrapped buffer is [read] of the old class on what
    follows the outer tag and length. *)
Theorem Explicit_wraps (number : N) (tag_class : tag.class_t)
  (cls cls' : asn1_type) :
  Explicit number tag.UNIVERSAL cls = Raise TypeError
  /\ (Explicit number tag_class cls = Ok cls' ->
      let t := tag.mk number tag_class tag.CONSTRUCTED in
      tags cls' = tags cls ++ [t]
      /\ (forall v,
           encode cls' v
           = (e <- encode cls v ;;
              encoded_length <- encode_length (len e) ;;
              Ok (tag.value t ++ encoded_length ++ e)))
      /\ (forall inner encoded_length rest strict,
           tagged cls = true ->
           0 <= len inner < 2 ^ 1016 ->
           encode_length (len inner) = Ok encoded_length ->
           read cls' (tag.value t ++ encoded_length ++ inner ++ rest) strict
           = read cls (inner ++ rest) strict)).
Proof.
  split; [reflexivity|].
  intros H t.
  assert (Hc : cls' = set_tags cls (tags cls ++ [t])).
  { unfold Explicit in H. destruct tag_class; try discriminate;
      injection H as <-; reflexivity. }
  subst cls'. repeat apply conj.
  - apply tags_set_tags.
  - intros v. destruct (encode_set_tags cls (tags cls ++ [t]) v) as (r & E1 & E2).
    rewrite E2, E1, Abstract_encode_snoc. reflexivity.
  - intros inner el rest strict Ht Hlen Hel.
    assert (Ht' : tagged (set_tags cls (tags cls ++ [t])) = true).
    { unfold tagged. rewrite tags_set_tags.
      destruct (tags cls); reflexivity. }
    rewrite (read_tagged _ _ _ Ht'), (read_tagged _ _ _ Ht).
    rewrite tags_set_tags, serialized_set_tags, rev_app_distr.
    cbn [rev app Abstract.read_tags]. unfold tag.length.
    rewrite slice_to_app, str_eqb_refl, slice_from_app. cbn [negb].
    rewrite (read_length_encode_length (len inner) el (inner ++ rest) Hlen Hel).
    cbn [bind]. rewrite len_app. pose proof (len_nonneg rest).
    destruct (Z.ltb_spec (len inner + len rest) (len inner)); [lia|].
    rewrite (read_tags_start (rev (tags cls)) (inner ++ rest) (len inner) 0).
    + reflexivity.
    + unfold tagged in Ht. destruct (tags cls) as [|t0 ts]; [discriminate|].
      simpl. destruct (rev ts); discriminate.
Qed.

Lemma Explicit_wraps_witness :
  encode (Integer (universal 2 tag.PRIMITIVE
                   ++ [tag.mk 0 tag.CONTEXT_SPECIFIC tag.CONSTRUCTED]))
         (VInt 5)
  = Ok [xa0; x03; x02; x01; x05].
Proof.
  pose proof (Explicit_wraps 0 tag.CONTEXT_SPECIFIC IntegerType
                (Integer (universal 2 tag.PRIMITIVE
                          ++ [tag.mk 0 tag.CONTEXT_SPECIFIC tag.CONSTRUCTED])))
    as (_ & H).
  destruct (H eq_refl) as (_ & He & _).
  rewrite He. reflexivity.
Defined.

(** X8. [Implicit] refuses the universal class and a class without tags
    with [TypeError]; otherwise the new class has the tags of the old one
    with the outermost replaced by a tag of the given number and class and
    of the same primitive or constructed encoding.  The encodings of an
    instance under the two classes differ in the bytes of that tag only. *)
Theorem Implicit_replaces_outer_tag (number : N) (tag_class : tag.class_t)
  (cls cls' : asn1_type) :
  Implicit number tag.UNIVERSAL cls = Raise TypeError
  /\ (tags cls = [] -> Implicit number tag_class cls = Raise TypeError)
  /\ (Implicit number tag_class cls = Ok cls' ->
      exists inner t0,
        let t := tag.mk number tag_class (tag.encoding t0) in
        tags cls = inner ++ [t0]
        /\ tags cls' = inner ++ [t]
        /\ forall v, exists r,
             encode cls v
             = (e <- r ;; encoded_length <- encode_length (len e) ;;
                Ok (tag.value t0 ++ encoded_length ++ e))
             /\ encode cls' v
                = (e <- r ;; encoded_length <- encode_length (len e) ;;
                   Ok (tag.value t ++ encoded_length ++ e))).
Proof.
  repeat apply conj.
  - reflexivity.
  - intros H. unfold Implicit. rewrite H. destruct tag_class; reflexivity.
  - intros H. unfold Implicit in H.
    destruct (rev (tags cls)) as [|t0 rev_inner] eqn:E.
    { destruct tag_class; discriminate. }
    assert (Hc : cls' = set_tags cls
                          (rev rev_inner
                           ++ [tag.mk number tag_class (tag.encoding t0)])).
    { destruct tag_class; try discriminate; injection H as <-; reflexivity. }
    assert (Ht : tags cls = rev rev_inner ++ [t0]).
    { rewrite <- (rev_involutive (tags cls)), E. reflexivity. }
    exists (rev rev_inner), t0. cbn zeta. subst cls'.
    repeat apply conj.
    + exact Ht.
    + apply tags_set_tags.
    + intros v.
      destruct (encode_set_tags cls
                  (rev rev_inner ++ [tag.mk number tag_class (tag.encoding t0)])
                  v) as (r & E1 & E2).
      exists (Abstract.encode (rev rev_inner) r).
      rewrite E1, E2, Ht, !Abstract_encode_snoc. split; reflexivity.
Qed.

Lemma Implicit_replaces_outer_tag_witness :
  Implicit 0 tag.CONTEXT_SPECIFIC AnyType = Raise TypeError
  /\ exists inner t0,
       tags IntegerType = inner ++ [t0]
       /\ tags (Integer [tag.mk 0 tag.CONTEXT_SPECIFIC tag.PRIMITIVE])
          = inner ++ [tag.mk 0 tag.CONTEXT_SPECIFIC (tag.encoding t0)].
Proof.
  split.
  - apply (proj1 (proj2 (Implicit_replaces_outer_tag 0 tag.CONTEXT_SPECIFIC
                           AnyType AnyType))). reflexivity.
  - destruct (proj2 (proj2 (Implicit_replaces_outer_tag 0 tag.CONTEXT_SPECIFIC
                              IntegerType
                              (Integer [tag.mk 0 tag.CONTEXT_SPECIFIC
                                          tag.PRIMITIVE]))) eq_refl)
      as (inner & t0 & H1 & H2 & _).
    exists inner, t0. split; assumption.
Defined.

(** ** Bit strings *)

Lemma pack_ok (n : nat) :
  forall padded_bits : str,
    List.length padded_bits = (8 * n)%nat ->
    forallb BitString.is_bit padded_bits = true ->
    exists ret, BitString.pack padded_bits = Ok ret /\ List.length ret = n.
Proof.
  induction n as [|n IH]; intros padded_bits Hlen Hbits.
  - destruct padded_bits; [|discriminate]. exists []. split; reflexivity.
  - destruct padded_bits as [|b0 [|b1 [|b2 [|b3 [|b4 [|b5 [|b6 [|b7 rest]]]]]]]];
      try (simpl in Hlen; lia).
    change (b0 :: b1 :: b2 :: b3 :: b4 :: b5 :: b6 :: b7 :: rest)
      with ([b0; b1; b2; b3; b4; b5; b6; b7] ++ rest) in Hbits.
    rewrite forallb_app in Hbits. apply andb_prop in Hbits.
    destruct Hbits as [Hc Hr].
    destruct (chunk_of_eight _ _ _ _ _ _ _ _ Hc) as (k & Hk & _).
    destruct (IH rest ltac:(simpl in Hlen; lia) Hr) as (ret & Hret & Hl).
    exists (byte_of k :: ret). cbn [BitString.pack].
    rewrite Hk, Hret. split; [reflexivity | simpl; lia].
Qed.

Lemma padded_length (s : str) :
  let pad := (8 - len s mod 8) mod 8 in
  0 <= pad < 8
  /\ exists n, List.length (s ++ repeat BitString.char0 (Z.to_nat pad))
               = (8 * n)%nat
               /\ Z.of_nat n = (len s + pad) / 8.
Proof.
  intros pad.
  assert (Hpad : 0 <= pad < 8) by (apply Z.mod_pos_bound; lia).
  split; [exact Hpad|].
  exists (Z.to_nat ((len s + pad) / 8)).
  assert (Hm : (len s + pad) mod 8 = 0).
  { unfold pad. rewrite Zplus_mod_idemp_r.
    replace (len s + (8 - len s mod 8)) with (len s - len s mod 8 + 1 * 8) by lia.
    rewrite Z.mod_add by lia. rewrite Zminus_mod_idemp_r.
    rewrite Z.sub_diag. reflexivity. }
  pose proof (Z.div_mod (len s + pad) 8 ltac:(lia)) as Hd.
  pose proof (len_nonneg s) as Hs.
  assert (Hq : 0 <= (len s + pad) / 8) by (apply Z.div_pos; lia).
  rewrite length_app, repeat_length. unfold len in *. split; lia.
Qed.

(** X9. Every string of '0' and '1' has contents as a [BitString]: one
    byte for the pad count and one byte for every eight bits, the last
    group filled up; decoding the contents, in either mode, gives the
    string back. *)
Theorem BitString_encode_then_decode (s : str) (strict : bool) :
  forallb BitString.is_bit s = true ->
  exists content,
    BitString._encode_value (VStr s) = Ok content
    /\ len content = 1 + (len s + 7) / 8
    /\ BitString._decode_value content strict = Ok (VStr s).
Proof.
  intros Hbits.
  destruct (padded_length s) as (Hpad & n & Hn & Hq).
  set (pad := (8 - len s mod 8) mod 8) in *.
  assert (Hall : forallb BitString.is_bit
                   (s ++ repeat BitString.char0 (Z.to_nat pad)) = true).
  { rewrite forallb_app, Hbits. apply forallb_repeat_char0. }
  destruct (pack_ok n _ Hn Hall) as (ret & Hret & Hl).
  assert (E : BitString._encode_value (VStr s) = Ok (byte_of pad :: ret)).
  { unfold BitString._encode_value. fold pad. rewrite Hret. reflexivity. }
  exists (byte_of pad :: ret). split; [exact E|]. split.
  - unfold len at 1. cbn [List.length]. rewrite Hl.
    rewrite Nat2Z.inj_succ, Hq.
    assert (Hm : (len s + pad) mod 8 = 0).
    { pose proof (f_equal Z.of_nat Hn) as Hz.
      rewrite length_app, repeat_length in Hz. unfold len.
      rewrite Nat2Z.inj_add, Z2Nat.id in Hz by lia.
      rewrite Hz, Nat2Z.inj_mul. change (Z.of_nat 8) with 8.
      rewrite Z.mul_comm. apply Z.mod_mul. lia. }
    pose proof (Z.div_mod (len s + pad) 8 ltac:(lia)) as Hd.
    pose proof (Z.div_mod (len s + 7) 8 ltac:(lia)) as Hd7.
    pose proof (Z.mod_pos_bound (len s + 7) 8 ltac:(lia)) as Hb7.
    lia.
  - exact (BitString_decode_encode s _ strict Hbits E).
Qed.

Lemma BitString_encode_then_decode_witness :
  exists content,
    BitString._encode_value (VStr bits_10110) = Ok content
    /\ len content = 1 + (len bits_10110 + 7) / 8
    /\ BitString._decode_value content false = Ok (VStr bits_10110).
Proof. exact (BitString_encode_then_decode bits_10110 false eq_refl). Defined.

Lemma format_08b_bits (b : byte) :
  forallb BitString.is_bit (BitString.format_08b b) = true.
Proof.
  unfold BitString.format_08b. cbn [map forallb].
  repeat match goal with
         | |- context [Z.testbit ?n ?i] => destruct (Z.testbit n i)
         end; reflexivity.
Qed.

Lemma concat_format_08b_bits (int_bytes : list byte) :
  forallb BitString.is_bit (List.concat (map BitString.format_08b int_bytes))
  = true.
Proof.
  induction int_bytes as [|b l IH]; [reflexivity|].
  cbn [map List.concat]. rewrite forallb_app, format_08b_bits, IH. reflexivity.
Qed.

Lemma int_base2_format_08b (b : byte) :
  exists n, BitString.int_base2 (BitString.format_08b b) = Ok n /\ byte_of n = b.
Proof. destruct b; eexists; split; vm_compute; reflexivity. Qed.

Lemma pack_concat_format_08b (int_bytes : list byte) :
  BitString.pack (List.concat (map BitString.format_08b int_bytes))
  = Ok int_bytes.
Proof.
  induction int_bytes as [|b l IH]; [reflexivity|].
  cbn [map List.concat].
  destruct (int_base2_format_08b b) as (n & Hn & Hb).
  unfold BitString.format_08b in *. cbn [map app] in *.
  cbn [BitString.pack]. rewrite Hn. cbn [bind].
  fold (BitString.format_08b). unfold BitString.format_08b in IH.
  rewrite IH. cbn [bind]. rewrite Hb. reflexivity.
Qed.

Lemma all_char0 (l : str) :
  forallb BitString.is_bit l = true ->
  existsb (fun c => Byte.eqb c BitString.char1) l = false ->
  l = repeat BitString.char0 (List.length l).
Proof.
  induction l as [|c l IH]; [reflexivity|].
  cbn [forallb existsb List.length repeat]. intros Hb He.
  apply andb_prop in Hb. destruct Hb as [Hc Hl].
  apply orb_false_elim in He. destruct He as [Hc1 He].
  destruct (is_bit_cases c Hc) as [-> | ->]; [|discriminate].
  f_equal. exact (IH Hl He).
Qed.

(** X10. Contents that [BitString._decode_value] accepts decode, in either
    mode, to a string of '0' and '1' that encodes to the same contents: a
    decoded bit string is re-encoded byte for byte. *)
Theorem BitString_decode_then_encode (buf : str) (strict : bool) (v : inst) :
  BitString._decode_value buf strict = Ok v ->
  exists s,
    v = VStr s
    /\ forallb BitString.is_bit s = true
    /\ BitString._encode_value v = Ok buf.
Proof.
  unfold BitString._decode_value. destruct buf as [|b0 int_bytes]; [discriminate|].
  pose proof (ord_range b0) as R0.
  destruct (Z.ltb_spec 7 (ord b0)) as [|Hpad]; [discriminate|].
  set (ret := List.concat (map BitString.format_08b int_bytes)).
  assert (Hbits : forallb BitString.is_bit ret = true)
    by apply concat_format_08b_bits.
  assert (Hlen : List.length ret = (8 * List.length int_bytes)%nat)
    by apply concat_format_08b_length.
  assert (Hpack : BitString.pack ret = Ok int_bytes)
    by apply pack_concat_format_08b.
  destruct (Z.eqb_spec (ord b0) 0) as [Hz|Hnz]; cbn [negb].
  - intros H. injection H as <-. exists ret.
    split; [reflexivity|]. split; [exact Hbits|].
    unfold BitString._encode_value.
    assert (Hp : (8 - len ret mod 8) mod 8 = 0).
    { unfold len. rewrite Hlen, Nat2Z.inj_mul. change (Z.of_nat 8) with 8.
      rewrite Z.mul_comm, Z.mod_mul by lia. reflexivity. }
    rewrite Hp. cbn [Z.to_nat repeat]. rewrite app_nil_r, Hpack. cbn [bind].
    rewrite <- Hz, byte_of_ord. reflexivity.
  - destruct ((len ret =? 0)
              || existsb (fun c => Byte.eqb c BitString.char1)
                         (slice_last ret (ord b0))) eqn:Hchk; [discriminate|].
    apply orb_false_elim in Hchk. destruct Hchk as [Hne Hzero].
    intros H. injection H as <-.
    exists (slice_drop_last ret (ord b0)).
    assert (Hsplit : ret = slice_drop_last ret (ord b0) ++ slice_last ret (ord b0)).
    { unfold slice_drop_last, slice_last. symmetry. apply firstn_skipn. }
    assert (Hk : (1 <= List.length int_bytes)%nat).
    { destruct (Z.eqb_spec (len ret) 0) as [|Hl]; [discriminate|].
      unfold len in Hl. lia. }
    assert (Hll : List.length (slice_last ret (ord b0)) = Z.to_nat (ord b0)).
    { unfold slice_last. rewrite length_skipn. lia. }
    assert (Hld : len (slice_drop_last ret (ord b0))
                  = 8 * Z.of_nat (List.length int_bytes) - ord b0).
    { unfold len, slice_drop_last. rewrite length_firstn. lia. }
    assert (Hb2 : forallb BitString.is_bit (slice_drop_last ret (ord b0)) = true
                  /\ forallb BitString.is_bit (slice_last ret (ord b0)) = true).
    { rewrite Hsplit, forallb_app in Hbits. apply andb_prop in Hbits.
      exact Hbits. }
    destruct Hb2 as [Hbd Hbl].
    split; [reflexivity|]. split; [exact Hbd|].
    unfold BitString._encode_value.
    assert (Hp : (8 - len (slice_drop_last ret (ord b0)) mod 8) mod 8 = ord b0).
    { rewrite Hld.
      replace (8 * Z.of_nat (List.length int_bytes) - ord b0)
        with ((8 - ord b0) + (Z.of_nat (List.length int_bytes) - 1) * 8) by lia.
      rewrite Z.mod_add by lia. rewrite (Z.mod_small (8 - ord b0)) by lia.
      replace (8 - (8 - ord b0)) with (ord b0) by lia.
      apply Z.mod_small. lia. }
    rewrite Hp.
    rewrite <- Hll, <- (all_char0 _ Hbl Hzero), <- Hsplit, Hpack. cbn [bind].
    rewrite byte_of_ord. reflexivity.
Qed.

Lemma BitString_decode_then_encode_witness :
  exists s,
    VStr bits_10110 = VStr s
    /\ forallb BitString.is_bit s = true
    /\ BitString._encode_value (VStr bits_10110) = Ok [x03; xb0].
Proof.
  exact (BitString_decode_then_encode [x03; xb0] true (VStr bits_10110) eq_refl).
Defined.

(** ** Choice *)

Lemma dict_get_map {A B : Type} (f : A -> B) (d : list (string * A)) (k : string) :
  dict_get (map (fun kc => (fst kc, f (snd kc))) d) k
  = option_map f (dict_get d k).
Proof.
  induction d as [|[k' a] d IH]; [reflexivity|].
  cbn [map fst snd dict_get]. destruct (String.eqb k' k); [reflexivity | exact IH].
Qed.

(** X11. A [Choice] with no component set cannot be encoded: [encode]
    raises [ASN1Error].  A [Choice] with a component set encodes as that
    component does, inside the tags of the [Choice] if it has any and with
    nothing added if it has none. *)
Theorem Choice_encode_is_component_encode (t : list tag.Tag)
  (components : list (string * asn1_type)) :
  encode (Choice t components) (VChoice []) = Raise ASN1Error
  /\ (forall key spec x,
        dict_get components key = Some spec ->
        encode (Choice t components) (VChoice [(key, x)])
        = Abstract.encode t (encode spec x)
        /\ encode (Choice [] components) (VChoice [(key, x)]) = encode spec x).
Proof.
  split.
  - cbn [encode tags Choice._encode_value]. apply Abstract_encode_Raise.
  - intros key spec x H.
    assert (E : forall t0, encode (Choice t0 components) (VChoice [(key, x)])
                           = Abstract.encode t0 (encode spec x)).
    { intros t0. cbn [encode tags Choice._encode_value].
      rewrite dict_get_map, H. reflexivity. }
    split; [apply E|]. rewrite E. reflexivity.
Qed.

Lemma Choice_encode_is_component_encode_witness :
  encode FlagChoice (VChoice [("flag"%string, VBool true)])
  = Ok [x01; x01; xff].
Proof.
  destruct (Choice_encode_is_component_encode []
              [("flag"%string, BooleanType)]) as (_ & H).
  destruct (H "flag"%string BooleanType (VBool true) eq_refl) as (_ & E).
  exact E.
Defined.

Lemma ChoiceObject_read_value (self : object) (d : list (string * inst))
  (key : string) :
  let self' := setattr self "_value" (VChoice d) in
  ChoiceObject.__getitem__ self' key
  = match dict_get d key with
    | Some value => Ok (Some value)
    | None =>
        if dict_mem (ChoiceObject.components self) key then Ok None
        else Raise KeyError
    end
  /\ ChoiceObject.__len__ self' = Ok (len d).
Proof.
  cbn zeta. unfold ChoiceObject.__getitem__, ChoiceObject.__len__.
  rewrite getattr_setattr. split; reflexivity.
Qed.

(** X12. On a [Choice] object: assigning to a name that is not a component
    raises [KeyError] and changes nothing.  After an assignment of a
    value other than [None] to a component, reading that component gives
    the converted value, the length is 1, reading any other component
    gives [None] and reading any other name raises [KeyError].  After an
    assignment of [None], or after deleting the component that is set,
    every component reads [None] and the length is 0. *)
Theorem Choice_setitem_then_getitem (self : object) (key : string) :
  (forall value,
      dict_get (ChoiceObject.components self) key = None ->
      ChoiceObject.__setitem__ self key value = raises self KeyError)
  /\ (forall value spec x,
      dict_get (ChoiceObject.components self) key = Some spec ->
      value <> PyNone ->
      as_instance_of spec (new spec) value = Ok x ->
      exists self',
        ChoiceObject.__setitem__ self key value = returns self'
        /\ ChoiceObject.__getitem__ self' key = Ok (Some x)
        /\ ChoiceObject.__len__ self' = Ok 1
        /\ forall key',
             key' <> key ->
             ChoiceObject.__getitem__ self' key'
             = if dict_mem (ChoiceObject.components self) key'
               then Ok None else Raise KeyError)
  /\ (forall spec,
      dict_get (ChoiceObject.components self) key = Some spec ->
      exists self',
        ChoiceObject.__setitem__ self key PyNone = returns self'
        /\ ChoiceObject.__len__ self' = Ok 0
        /\ forall key',
             ChoiceObject.__getitem__ self' key'
             = if dict_mem (ChoiceObject.components self) key'
               then Ok None else Raise KeyError)
  /\ (forall x,
      getattr self "_value" = Ok (VChoice [(key, x)]) ->
      exists self',
        ChoiceObject.__delitem__ self key = returns self'
        /\ ChoiceObject.__len__ self' = Ok 0
        /\ forall key',
             ChoiceObject.__getitem__ self' key'
             = if dict_mem (ChoiceObject.components self) key'
               then Ok None else Raise KeyError).
Proof.
  repeat apply conj.
  - intros value H. unfold ChoiceObject.__setitem__. rewrite H. reflexivity.
  - intros value spec x Hspec Hnone Hconv.
    exists (setattr self "_value" (VChoice [(key, x)])).
    destruct (ChoiceObject_read_value self [(key, x)] key) as [Hg Hl].
    repeat apply conj.
    + unfold ChoiceObject.__setitem__. rewrite Hspec.
      destruct value; try contradiction; rewrite Hconv; reflexivity.
    + rewrite Hg. cbn [dict_get]. rewrite String.eqb_refl. reflexivity.
    + exact Hl.
    + intros key' Hne.
      rewrite (proj1 (ChoiceObject_read_value self [(key, x)] key')).
      cbn [dict_get].
      destruct (String.eqb_spec key key'); [congruence | reflexivity].
  - intros spec Hspec. exists (setattr self "_value" (VChoice [])).
    repeat apply conj.
    + unfold ChoiceObject.__setitem__. rewrite Hspec. reflexivity.
    + apply (ChoiceObject_read_value self [] key).
    + intros key'. apply (ChoiceObject_read_value self [] key').
  - intros x Hv. exists (setattr self "_value" (VChoice [])).
    repeat apply conj.
    + unfold ChoiceObject.__delitem__. rewrite Hv.
      unfold dict_mem. cbn [dict_get]. rewrite String.eqb_refl. reflexivity.
    + apply (ChoiceObject_read_value self [] key).
    + intros key'. apply (ChoiceObject_read_value self [] key').
Qed.

Lemma Choice_setitem_then_getitem_witness :
  exists self',
    ChoiceObject.__setitem__
      (mkObject FlagChoice [("_value"%string, VChoice [])]) "flag" (PyInt 3)
    = returns self'
    /\ ChoiceObject.__getitem__ self' "flag" = Ok (Some (VBool true))
    /\ ChoiceObject.__getitem__ self' "other" = Raise KeyError.
Proof.
  destruct (Choice_setitem_then_getitem
              (mkObject FlagChoice [("_value"%string, VChoice [])]) "flag")
    as (_ & H & _).
  destruct (H (PyInt 3) BooleanType (VBool true) eq_refl
              ltac:(discriminate) eq_refl) as (self' & Hs & Hg & _ & Ho).
  exists self'. split; [exact Hs|]. split; [exact Hg|].
  apply (Ho "other"%string). discriminate.
Defined.

Lemma tag_eqb_refl (t : tag.Tag) : tag.eqb t t = true.
Proof.
  unfold tag.eqb. rewrite N.eqb_refl.
  destruct (tag.tag_class t), (tag.encoding t); reflexivity.
Qed.

Lemma tag_map_get_app (a b : list (tag.Tag * string)) (t : tag.Tag) :
  MetaChoice.tag_map_get (a ++ b) t
  = match MetaChoice.tag_map_get a t with
    | Some key => Some key
    | None => MetaChoice.tag_map_get b t
    end.
Proof.
  induction a as [|[t' k] a IH]; [reflexivity|].
  cbn [app MetaChoice.tag_map_get]. destruct (tag.eqb t' t); [reflexivity | exact IH].
Qed.

Lemma MetaChoice_build_spec (items : list (string * list tag.Tag)) :
  forall (tag_map tag_map' : list (tag.Tag * string)) (keys_seen : list string),
    MetaChoice.build items tag_map keys_seen = Ok tag_map' ->
    (forall t key,
        MetaChoice.tag_map_get tag_map t = Some key ->
        MetaChoice.tag_map_get tag_map' t = Some key)
    /\ (forall key spec_tags,
        In (key, spec_tags) items ->
        ~ In key keys_seen
        /\ exists t,
             MetaChoice.outer_tag spec_tags = Some t
             /\ MetaChoice.tag_map_get tag_map' t = Some key)
    /\ NoDup (map fst items).
Proof.
  induction items as [|[key spec_tags] items IH];
    intros tag_map tag_map' keys_seen H.
  - cbn in H. injection H as <-.
    repeat apply conj; [auto | intros ? ? [] | constructor].
  - cbn [MetaChoice.build] in H.
    destruct (existsb (String.eqb key) keys_seen) eqn:Hseen; [discriminate|].
    destruct (MetaChoice.outer_tag spec_tags) as [t|] eqn:Ht; [|discriminate].
    destruct (MetaChoice.tag_map_get tag_map t) eqn:Hfree; [discriminate|].
    destruct (IH _ _ _ H) as (Hkeep & Hitems & Hnodup).
    assert (Hnew : ~ In key keys_seen).
    { intros Hin.
      assert (existsb (String.eqb key) keys_seen = true).
      { apply existsb_exists. exists key. split; [exact Hin|].
        apply String.eqb_refl. }
      congruence. }
    repeat apply conj.
    + intros t0 k0 H0. apply Hkeep. rewrite tag_map_get_app, H0. reflexivity.
    + intros k0 tags0 [Heq | Hin].
      * injection Heq as <- <-. split; [exact Hnew|].
        exists t. split; [exact Ht|].
        apply Hkeep. rewrite tag_map_get_app, Hfree.
        cbn [MetaChoice.tag_map_get]. rewrite tag_eqb_refl. reflexivity.
      * destruct (Hitems k0 tags0 Hin) as (Hk & Hex).
        split; [|exact Hex]. intros Hs. apply Hk. right. exact Hs.
    + cbn [map fst]. constructor; [|exact Hnodup].
      intros Hin. apply in_map_iff in Hin.
      destruct Hin as ([k0 tags0] & Hk0 & Hin0). cbn [fst] in Hk0. subst k0.
      destruct (Hitems key tags0 Hin0) as (Hk & _).
      apply Hk. left. reflexivity.
Qed.

(** X13. When the metaclass accepts the components of a [Choice], the names
    are distinct, every component has a tag, and the [tag_map] it builds
    leads from the outermost tag of every component back to the name of
    that component; so two components never share their outermost tag. *)
Theorem MetaChoice_tag_map_finds_components
  (components : list (string * list tag.Tag))
  (tag_map : list (tag.Tag * string)) :
  MetaChoice.__new__ components = Ok (Some tag_map) ->
  NoDup (map fst components)
  /\ (forall key spec_tags,
        In (key, spec_tags) components ->
        exists t,
          MetaChoice.outer_tag spec_tags = Some t
          /\ MetaChoice.tag_map_get tag_map t = Some key)
  /\ (forall key1 tags1 key2 tags2,
        In (key1, tags1) components -> In (key2, tags2) components ->
        MetaChoice.outer_tag tags1 = MetaChoice.outer_tag tags2 ->
        key1 = key2).
Proof.
  intros H. unfold MetaChoice.__new__ in H.
  destruct components as [|c components]; [discriminate|].
  inv_bind H. injection H as <-.
  destruct (MetaChoice_build_spec _ _ _ _ E) as (_ & Hitems & Hnodup).
  assert (Hfind : forall key spec_tags,
             In (key, spec_tags) (c :: components) ->
             exists t, MetaChoice.outer_tag spec_tags = Some t
                       /\ MetaChoice.tag_map_get a t = Some key).
  { intros key spec_tags Hin. exact (proj2 (Hitems key spec_tags Hin)). }
  repeat apply conj.
  - exact Hnodup.
  - exact Hfind.
  - intros key1 tags1 key2 tags2 H1 H2 Heq.
    destruct (Hfind key1 tags1 H1) as (t1 & Ht1 & Hg1).
    destruct (Hfind key2 tags2 H2) as (t2 & Ht2 & Hg2).
    rewrite Heq, Ht2 in Ht1. injection Ht1 as <-. congruence.
Qed.

Lemma MetaChoice_tag_map_finds_components_witness :
  NoDup (map fst [("flag"%string, universal 1 tag.PRIMITIVE);
                  ("count"%string, universal 2 tag.PRIMITIVE)]).
Proof.
  exact (proj1 (MetaChoice_tag_map_finds_components
                  [("flag"%string, universal 1 tag.PRIMITIVE);
                   ("count"%string, universal 2 tag.PRIMITIVE)]
                  _ eq_refl)).
Defined.

(** ** Sequence *)

Lemma existsb_eqb_In (k : string) (l : list string) :
  existsb (String.eqb k) l = true <-> In k l.
Proof.
  rewrite existsb_exists. split.
  - intros (x & Hx & E). apply String.eqb_eq in E. subst x. exact Hx.
  - intros H. exists k. split; [exact H | apply String.eqb_refl].
Qed.

Lemma MetaSequence_build_spec (names : list string) :
  forall key_map : list string,
    (NoDup names /\ (forall n, In n names -> ~ In n key_map) ->
     MetaSequence.build names key_map = Ok (key_map ++ names))
    /\ (~ (NoDup names /\ (forall n, In n names -> ~ In n key_map)) ->
        MetaSequence.build names key_map = Raise TypeError).
Proof.
  induction names as [|n names IH]; intros key_map.
  - split.
    + intros _. cbn. rewrite app_nil_r. reflexivity.
    + intros H. exfalso. apply H. split; [constructor | intros ? []].
  - cbn [MetaSequence.build].
    destruct (existsb (String.eqb n) key_map) eqn:Hseen.
    + apply existsb_eqb_In in Hseen. split; [|reflexivity].
      intros [_ Hd]. exfalso. apply (Hd n); [left; reflexivity | exact Hseen].
    + assert (Hn : ~ In n key_map).
      { intros Hin. apply existsb_eqb_In in Hin. congruence. }
      destruct (IH (key_map ++ [n])) as [Hok Hbad]. split.
      * intros [Hnd Hd]. inversion Hnd as [|? ? Hnin Hnd']; subst.
        rewrite Hok, <- app_assoc; [reflexivity|].
        split; [exact Hnd'|]. intros m Hm Hin.
        apply in_app_or in Hin. destruct Hin as [Hin | [-> | []]].
        -- apply (Hd m); [right; exact Hm | exact Hin].
        -- contradiction.
      * intros Hnot. apply Hbad. intros [Hnd' Hd']. apply Hnot. split.
        -- constructor; [|exact Hnd'].
           intros Hin. apply (Hd' n Hin). apply in_or_app. right. left.
           reflexivity.
        -- intros m [<- | Hm]; [exact Hn|].
           intros Hin. apply (Hd' m Hm). apply in_or_app. left. exact Hin.
Qed.

(** X14. The metaclass of [Sequence] accepts a non-empty tuple of
    components exactly when their names are distinct: it then binds these
    names, in order, in [key_map]; when a name occurs twice it raises
    [TypeError]. *)
Theorem MetaSequence_accepts_distinct_names (names : list string) :
  names <> [] ->
  (NoDup names -> MetaSequence.__new__ names = Ok (Some names))
  /\ (~ NoDup names -> MetaSequence.__new__ names = Raise TypeError).
Proof.
  intros Hne. unfold MetaSequence.__new__.
  destruct names as [|n names]; [contradiction|].
  destruct (MetaSequence_build_spec (n :: names) []) as [Hok Hbad]. split.
  - intros Hnd. rewrite Hok; [reflexivity|]. split; [exact Hnd | auto].
  - intros Hnot. rewrite Hbad; [reflexivity|]. intros [Hnd _]. contradiction.
Qed.

Lemma MetaSequence_accepts_distinct_names_witness :
  MetaSequence.__new__ ["x"%string; "y"%string]
  = Ok (Some ["x"%string; "y"%string])
  /\ MetaSequence.__new__ ["x"%string; "x"%string] = Raise TypeError.
Proof.
  destruct (MetaSequence_accepts_distinct_names ["x"%string; "y"%string]
              ltac:(discriminate)) as [Hok _].
  destruct (MetaSequence_accepts_distinct_names ["x"%string; "x"%string]
              ltac:(discriminate)) as [_ Hbad].
  split.
  - apply Hok. repeat constructor; simpl; intuition discriminate.
  - apply Hbad. intros H. inversion H as [|? ? Hnin _]; subst.
    apply Hnin. left. reflexivity.
Defined.

Lemma dict_set_fresh {A : Type} (d : list (string * A)) (k : string) (a : A) :
  ~ In k (map fst d) -> dict_set d k a = d ++ [(k, a)].
Proof.
  induction d as [|[k' a'] d IH]; intros H; [reflexivity|].
  cbn [dict_set app]. cbn [map fst] in H.
  destruct (String.eqb_spec k' k) as [->|Hne].
  - exfalso. apply H. left. reflexivity.
  - rewrite IH; [reflexivity|]. intros Hin. apply H. right. exact Hin.
Qed.

Lemma dict_set_keys {A : Type} (d : list (string * A)) (k : string) (a : A) :
  In k (map fst d) -> map fst (dict_set d k a) = map fst d.
Proof.
  induction d as [|[k' a'] d IH]; intros H; [contradiction|].
  cbn [dict_set]. destruct (String.eqb_spec k' k) as [->|Hne].
  - reflexivity.
  - cbn [map fst] in *. f_equal. apply IH.
    destruct H as [H|H]; [contradiction | exact H].
Qed.

Lemma dict_get_In {A : Type} (d : list (string * A)) (k : string) (a : A) :
  dict_get d k = Some a -> In k (map fst d).
Proof.
  induction d as [|[k' a'] d IH]; [discriminate|].
  cbn [dict_get map fst]. destruct (String.eqb_spec k' k) as [->|Hne].
  - intros _. left. reflexivity.
  - intros H. right. exact (IH H).
Qed.

Lemma dict_get_not_In {A : Type} (d : list (string * A)) (k : string) :
  ~ In k (map fst d) -> dict_get d k = None.
Proof.
  intros H. destruct (dict_get d k) eqn:E; [|reflexivity].
  exfalso. exact (H (dict_get_In _ _ _ E)).
Qed.

Lemma dict_get_of_In {A : Type} (d : list (string * A)) (k : string) :
  In k (map fst d) -> exists a, dict_get d k = Some a.
Proof.
  induction d as [|[k' a'] d IH]; [contradiction|].
  cbn [dict_get map fst]. destruct (String.eqb_spec k' k) as [->|Hne].
  - eauto.
  - intros [H|H]; [contradiction | exact (IH H)].
Qed.

Lemma NoDup_app_head (pre : list string) (n : string) (names : list string) :
  NoDup (pre ++ n :: names) -> ~ In n pre /\ NoDup ((pre ++ [n]) ++ names).
Proof.
  intros H. split.
  - apply NoDup_remove_2 in H. intros Hin. apply H, in_or_app. left. exact Hin.
  - rewrite <- app_assoc. exact H.
Qed.

Lemma convert_components_keys
  (components : list (Component * (pyobj -> result inst))) (value : pyobj) :
  forall ret d,
    NoDup (map fst ret ++ map (fun c => name (fst c)) components) ->
    Sequence.convert_components components value ret = Ok d ->
    map fst d = map fst ret ++ map (fun c => name (fst c)) components.
Proof.
  induction components as [|[c cn] components IH]; intros ret d Hnd H.
  - cbn in H. injection H as <-. cbn. rewrite app_nil_r. reflexivity.
  - cbn [Sequence.convert_components] in H. inv_bind H. inv_bind H.
    cbn [map fst] in Hnd |- *.
    destruct (NoDup_app_head _ _ _ Hnd) as [Hfresh Hnd'].
    rewrite dict_set_fresh in H by exact Hfresh.
    match type of H with
    | Sequence.convert_components _ _ ?r = _ =>
        assert (Hnd2 : NoDup (map fst r
                              ++ map (fun c => name (fst c)) components))
          by (rewrite map_app; exact Hnd')
    end.
    rewrite (IH _ _ Hnd2 H).
    rewrite map_app, <- app_assoc. reflexivity.
Qed.

Lemma decode_components_keys
  (components : list (Component * Sequence.component_class))
  (strict : bool) :
  forall buf ret d rest,
    NoDup (map fst ret ++ map (fun c => name (fst c)) components) ->
    Sequence.decode_components components buf strict ret = Ok (d, rest) ->
    map fst d = map fst ret ++ map (fun c => name (fst c)) components.
Proof.
  induction components as [|[c cc] components IH]; intros buf ret d rest Hnd H.
  - cbn in H. injection H as <- _. cbn. rewrite app_nil_r. reflexivity.
  - cbn [Sequence.decode_components] in H.
    cbn [map fst] in Hnd |- *.
    destruct (NoDup_app_head _ _ _ Hnd) as [Hfresh Hnd'].
    assert (Hstep : forall o buf',
               Sequence.decode_components components buf' strict
                 (dict_set ret (name c) o) = Ok (d, rest) ->
               map fst d
               = map fst ret ++ name c :: map (fun c => name (fst c)) components).
    { intros o buf' H'. rewrite dict_set_fresh in H' by exact Hfresh.
      assert (Hnd2 : NoDup (map fst (ret ++ [(name c, o)])
                            ++ map (fun c => name (fst c)) components))
        by (rewrite map_app; exact Hnd').
      rewrite (IH _ _ _ _ Hnd2 H').
      rewrite map_app, <- app_assoc. reflexivity. }
    destruct (Sequence.value_type_read cc buf strict) as [[v buf']|e].
    + exact (Hstep _ _ H).
    + destruct e; try discriminate.
      destruct (negb (optional c)); [discriminate|]. exact (Hstep _ _ H).
Qed.

Lemma decode_any_keys (components : list (Component * Sequence.component_class))
  (strict : bool) :
  forall ret d,
    Sequence.decode_any components strict ret = Ok d ->
    map fst d = map fst ret.
Proof.
  induction components as [|[c cc] components IH]; intros ret d H.
  - cbn in H. injection H as <-. reflexivity.
  - cbn [Sequence.decode_any] in H.
    destruct (defined_by c) as [db|]; [|exact (IH _ _ H)].
    destruct (dict_get ret db) as [key|]; [|discriminate].
    inv_bind H. destruct a as [value_type_decode|]; [|exact (IH _ _ H)].
    destruct (dict_get ret (name c)) as [[self|]|] eqn:Hself; try discriminate.
    destruct (Any.decode_inner self value_type_decode strict) as [self'|e].
    + rewrite (IH _ _ H). apply dict_set_keys.
      exact (dict_get_In _ _ _ Hself).
    + destruct (is_ASN1Error e && negb strict); [exact (IH _ _ H) | discriminate].
Qed.

Lemma Sequence_components_names (components : list Component) :
  map (fun c => name (fst c)) (Sequence_components components)
  = map name components.
Proof. unfold Sequence_components. rewrite map_map. reflexivity. Qed.

Lemma Sequence_decode_value_keys (components : list Component) (buf : str)
  (strict : bool) (v : inst) :
  NoDup (map name components) ->
  Sequence._decode_value (Sequence_components components) buf strict = Ok v ->
  exists d, v = VSequence d /\ map fst d = map name components.
Proof.
  intros Hnd H. unfold Sequence._decode_value in H. inv_bind H.
  destruct a as [ret rest]. destruct rest; [|discriminate].
  inv_bind H. injection H as <-. exists a. split; [reflexivity|].
  rewrite (decode_any_keys _ _ _ _ E0).
  assert (Hnd2 : NoDup (map fst (@nil (string * option inst))
                        ++ map (fun c => name (fst c))
                               (Sequence_components components)))
    by (rewrite Sequence_components_names; exact Hnd).
  rewrite (decode_components_keys _ _ _ _ _ _ Hnd2 E).
  apply Sequence_components_names.
Qed.

Lemma Sequence_new_keys (t : list tag.Tag) (components : list Component)
  (value : pyobj) (v : inst) :
  NoDup (map name components) ->
  new (Sequence t components) value = Ok v ->
  exists d, v = VSequence d /\ map fst d = map name components.
Proof.
  intros Hnd H. cbn [new] in H. unfold Abstract.__init__ in H.
  assert (Hc : Sequence._convert_value
                 (map (fun c => (c, new (value_type c))) components) value
               = Ok v) by (destruct value; try discriminate; exact H).
  clear H. unfold Sequence._convert_value in Hc.
  inv_bind Hc. inv_bind Hc.
  destruct (negb (forallb (fun b => b) a0)); [discriminate|].
  inv_bind Hc. injection Hc as <-. exists a1. split; [reflexivity|].
  assert (Hnd2 : NoDup (map fst (@nil (string * option inst))
                        ++ map (fun c => name (fst c))
                               (map (fun c => (c, new (value_type c)))
                                    components)))
    by (rewrite map_map; exact Hnd).
  rewrite (convert_components_keys _ _ _ _ Hnd2 E1).
  rewrite map_map. reflexivity.
Qed.

(** X15. For a [Sequence] class with distinct component names, the dict of
    an instance made by the constructor, from a value or from serialized
    contents, or by [decode], has exactly the component names as keys, in
    the declared order.  So reading a component name never raises, and
    reading any other name raises [KeyError]. *)
Theorem Sequence_keys_are_component_names (t : list tag.Tag)
  (components : list Component) (self : object) :
  NoDup (map name components) ->
  created (Sequence t components) self ->
  (exists d,
      getattr self "_value" = Ok (VSequence d)
      /\ map fst d = map name components)
  /\ (forall key,
        In key (map name components) ->
        exists o, SequenceObject.__getitem__ self key = Ok o)
  /\ (forall key,
        ~ In key (map name components) ->
        SequenceObject.__getitem__ self key = Raise KeyError).
Proof.
  intros Hnd Hc.
  assert (Hd : exists d,
             getattr self "_value" = Ok (VSequence d)
             /\ map fst d = map name components).
  { destruct Hc as [value o H | buf strict o H | buf strict o H].
    - unfold construct in H. inv_bind H. injection H as <-.
      destruct (Sequence_new_keys t components value a Hnd E) as (d & -> & Hk).
      exists d. split; [reflexivity | exact Hk].
    - unfold construct_serialized in H. inv_bind H. injection H as <-.
      rewrite class_of_Sequence in E.
      destruct (Sequence_decode_value_keys components buf strict a Hnd E)
        as (d & -> & Hk).
      exists d. split; [reflexivity | exact Hk].
    - unfold decode_object in H. inv_bind H. injection H as <-.
      unfold decode, Abstract.decode in E. inv_bind E.
      destruct a0 as [v rest]. destruct rest; [|discriminate].
      injection E as <-.
      destruct t as [|t0 t]; [discriminate|].
      rewrite read_tagged in E0 by reflexivity.
      inv_bind E0. destruct a as [decoded_length buf'].
      inv_bind E0. injection E0 as <- _.
      rewrite class_of_Sequence in E1.
      destruct (Sequence_decode_value_keys components _ strict a Hnd E1)
        as (d & -> & Hk).
      exists d. split; [reflexivity | exact Hk]. }
  split; [exact Hd|].
  destruct Hd as (d & Hv & Hk).
  split; intros key Hkey; unfold SequenceObject.__getitem__; rewrite Hv;
    cbn [bind].
  - rewrite <- Hk in Hkey. destruct (dict_get_of_In d key Hkey) as (o & ->).
    eauto.
  - rewrite <- Hk in Hkey. rewrite (dict_get_not_In d key Hkey). reflexivity.
Qed.

Lemma Sequence_keys_are_component_names_witness :
  exists self,
    decode_object PointType [x30; x03; x02; x01; x05] true = Ok self
    /\ (exists o, SequenceObject.__getitem__ self "y" = Ok o)
    /\ SequenceObject.__getitem__ self "z" = Raise KeyError.
Proof.
  assert (Hnd : NoDup (map name
                         [mkComponent "x" IntegerType None None false None [];
                          mkComponent "y" IntegerType None None true None []])).
  { repeat constructor; simpl; intuition discriminate. }
  pose proof (Sequence_keys_are_component_names
                (universal 16 tag.CONSTRUCTED)
                [mkComponent "x" IntegerType None None false None [];
                 mkComponent "y" IntegerType None None true None []]
                (mkObject PointType
                   [("_value"%string,
                     VSequence [("x"%string, Some (VInt 5));
                                ("y"%string, None)])])
                Hnd
                (created_by_decode PointType [x30; x03; x02; x01; x05] true
                   (mkObject PointType
                      [("_value"%string,
                        VSequence [("x"%string, Some (VInt 5));
                                   ("y"%string, None)])])
                   eq_refl))
    as (_ & Hin & Hout).
  eexists. split; [reflexivity|]. split.
  - apply Hin. right. left. reflexivity.
  - apply Hout. simpl. intuition discriminate.
Defined.

(** ** Encoding a Sequence *)

Lemma encode_components_skip
  (pre post : list (Component * (inst -> result str)))
  (c : Component) (enc : inst -> result str)
  (d : list (string * option inst)) :
  (dict_get d (name c) = Some None /\ optional c = true)
  \/ (exists v e,
        dict_get d (name c) = Some (Some v)
        /\ enc v = Ok e /\ encoded_default c = Some e) ->
  Sequence.encode_components (pre ++ (c, enc) :: post) d
  = Sequence.encode_components (pre ++ post) d.
Proof.
  intros Hskip. induction pre as [|[c' enc'] pre IH].
  - cbn [app Sequence.encode_components].
    destruct Hskip as [[-> ->] | (v & e & -> & -> & Hd)].
    + reflexivity.
    + cbn [bind]. unfold Sequence.differs. rewrite Hd.
      rewrite str_eqb_refl. cbn [negb].
      destruct (Sequence.encode_components post d); reflexivity.
  - cbn [app Sequence.encode_components]. rewrite IH. reflexivity.
Qed.

(** X16. A component of a [Sequence] that is optional and not set, or whose
    encoding is the encoding of its default, adds nothing to the encoding:
    the instance encodes as under the class without this component. *)
Theorem Sequence_encode_omits_absent_and_default
  (t : list tag.Tag) (pre post : list Component) (c : Component)
  (d : list (string * option inst)) :
  (dict_get d (name c) = Some None /\ optional c = true)
  \/ (exists v e,
        dict_get d (name c) = Some (Some v)
        /\ encode (value_type c) v = Ok e /\ encoded_default c = Some e) ->
  encode (Sequence t (pre ++ c :: post)) (VSequence d)
  = encode (Sequence t (pre ++ post)) (VSequence d).
Proof.
  intros Hskip. cbn [encode tags]. f_equal. unfold Sequence._encode_value.
  rewrite !map_app. cbn [map].
  rewrite (encode_components_skip _ _ c (encode (value_type c)) d Hskip).
  reflexivity.
Qed.

Lemma Sequence_encode_omits_absent_and_default_witness :
  encode PointType (VSequence [("x"%string, Some (VInt 5));
                               ("y"%string, None)])
  = encode (SequenceType [mkComponent "x" IntegerType None None false None []])
      (VSequence [("x"%string, Some (VInt 5)); ("y"%string, None)]).
Proof.
  apply (Sequence_encode_omits_absent_and_default
           (universal 16 tag.CONSTRUCTED)
           [mkComponent "x" IntegerType None None false None []] []
           (mkComponent "y" IntegerType None None true None [])
           [("x"%string, Some (VInt 5)); ("y"%string, None)]).
  left. split; reflexivity.
Defined.

Lemma encode_components_Ok
  (components : list (Component * (inst -> result str)))
  (d : list (string * option inst)) (l : list str) :
  Sequence.encode_components components d = Ok l ->
  forall c enc, In (c, enc) components ->
    (dict_get d (name c) = Some None /\ optional c = true)
    \/ (exists v e, dict_get d (name c) = Some (Some v) /\ enc v = Ok e).
Proof.
  revert l. induction components as [|[c' enc'] components IH]; intros l H c enc Hin.
  - destruct Hin.
  - cbn [Sequence.encode_components] in H.
    destruct (dict_get d (name c')) as [[v|]|] eqn:Hget; [| |discriminate].
    + inv_bind H. inv_bind H. destruct Hin as [Heq | Hin].
      * injection Heq as <- <-. right. exists v, a. split; [exact Hget | exact E].
      * exact (IH _ E0 c enc Hin).
    + destruct (optional c') eqn:Hopt; [|discriminate]. cbn [negb] in H.
      destruct Hin as [Heq | Hin].
      * injection Heq as <- <-. left. split; [exact Hget | exact Hopt].
      * exact (IH _ H c enc Hin).
Qed.

Lemma encode_components_first_missing
  (pre post : list (Component * (inst -> result str)))
  (c : Component) (enc : inst -> result str)
  (d : list (string * option inst)) (l : list str) :
  Sequence.encode_components pre d = Ok l ->
  dict_get d (name c) = Some None -> optional c = false ->
  Sequence.encode_components (pre ++ (c, enc) :: post) d = Raise ASN1Error.
Proof.
  intros Hpre Hget Hopt. revert l Hpre.
  induction pre as [|[c' enc'] pre IH]; intros l Hpre.
  - cbn [app Sequence.encode_components]. rewrite Hget, Hopt. reflexivity.
  - cbn [app Sequence.encode_components] in Hpre |- *.
    destruct (dict_get d (name c')) as [[v|]|]; [| |discriminate].
    + inv_bind Hpre. inv_bind Hpre. rewrite E. cbn [bind].
      rewrite (IH _ E0). reflexivity.
    + destruct (negb (optional c')); [discriminate|]. exact (IH _ Hpre).
Qed.

(** X17. A [Sequence] instance encodes only when every component of the
    class is set to a value that encodes, or is optional and not set.  When
    the components before a mandatory one that is not set are fine, [encode]
    raises [ASN1Error]. *)
Theorem Sequence_encode_needs_mandatory
  (t : list tag.Tag) (components : list Component)
  (d : list (string * option inst)) :
  (forall e, encode (Sequence t components) (VSequence d) = Ok e ->
     forall c, In c components ->
       (dict_get d (name c) = Some None /\ optional c = true)
       \/ (exists v, dict_get d (name c) = Some (Some v)
                     /\ is_ok (encode (value_type c) v) = true))
  /\ (forall pre c post e,
        components = pre ++ c :: post ->
        encode (Sequence t pre) (VSequence d) = Ok e ->
        dict_get d (name c) = Some None -> optional c = false ->
        encode (Sequence t components) (VSequence d) = Raise ASN1Error).
Proof.
  split.
  - intros e H c Hin. cbn [encode tags] in H.
    apply Abstract_encode_Ok in H. destruct H as (content & H & _).
    unfold Sequence._encode_value in H. inv_bind H.
    destruct (encode_components_Ok _ _ _ E c (encode (value_type c)))
      as [Habs | (v & e' & Hget & Henc)].
    + apply in_map_iff. exists c. split; [reflexivity | exact Hin].
    + left. exact Habs.
    + right. exists v. split; [exact Hget|]. rewrite Henc. reflexivity.
  - intros pre c post e -> Hpre Hget Hopt. cbn [encode tags] in Hpre |- *.
    apply Abstract_encode_Ok in Hpre. destruct Hpre as (content & Hpre & _).
    unfold Sequence._encode_value in Hpre |- *. inv_bind Hpre.
    rewrite map_app. cbn [map].
    rewrite (encode_components_first_missing _ _ _ _ _ _ E Hget Hopt).
    cbn [bind]. apply Abstract_encode_Raise.
Qed.

Lemma Sequence_encode_needs_mandatory_witness :
  encode PointType (VSequence [("x"%string, None); ("y"%string, None)])
  = Raise ASN1Error.
Proof.
  apply (proj2 (Sequence_encode_needs_mandatory
                  (universal 16 tag.CONSTRUCTED)
                  [mkComponent "x" IntegerType None None false None [];
                   mkComponent "y" IntegerType None None true None []]
                  [("x"%string, None); ("y"%string, None)])
           [] (mkComponent "x" IntegerType None None false None [])
           [mkComponent "y" IntegerType None None true None []]
           (list_byte_of_string "0" ++ [x00])).
  - reflexivity.
  - vm_compute. reflexivity.
  - reflexivity.
  - reflexivity.
Defined.

(** ** The second pass of Sequence decoding *)

Lemma decode_any_lenient
  (components : list (Component * Sequence.component_class)) :
  forall ret e,
    Sequence.decode_any components false ret = Raise e ->
    is_ASN1Error e = false.
Proof.
  induction components as [|[c cc] components IH]; intros ret e H.
  - discriminate.
  - cbn [Sequence.decode_any] in H.
    destruct (defined_by c) as [db|]; [|exact (IH _ _ H)].
    destruct (dict_get ret db) as [key|].
    2:{ injection H as <-. reflexivity. }
    destruct (Sequence.lookup_get (Sequence.lookup_decode cc) key)
      as [[value_type_decode|]|e'] eqn:Hlookup; cbn [bind] in H.
    + destruct (dict_get ret (name c)) as [[self|]|].
      * destruct (Any.decode_inner self value_type_decode false) as [self'|e'].
        -- exact (IH _ _ H).
        -- destruct (is_ASN1Error e') eqn:He'; cbn [andb negb] in H.
           ++ exact (IH _ _ H).
           ++ injection H as <-. exact He'.
      * injection H as <-. reflexivity.
      * injection H as <-. reflexivity.
    + exact (IH _ _ H).
    + injection H as <-. unfold Sequence.lookup_get in Hlookup.
      destruct key as [k|]; [|discriminate].
      destruct k; cbn in Hlookup; try discriminate;
        injection Hlookup as <-; reflexivity.
Qed.

(** X18. In lenient mode the second pass of [Sequence._decode_value], which
    decodes the contents of the [Any] components, raises no ASN.1 error: an
    [ASN1Error] or [ASN1TagError] of the whole decoding is the error of a
    component that failed to read in the first pass, or the [ASN1Error] for
    bytes left over after the last component. *)
Theorem Sequence_lenient_errors_are_first_pass
  (components : list (Component * Sequence.component_class))
  (buf : str) (e : exn) :
  Sequence._decode_value components buf false = Raise e ->
  is_ASN1Error e = true ->
  Sequence.decode_components components buf false [] = Raise e
  \/ (e = ASN1Error
      /\ exists ret b rest,
           Sequence.decode_components components buf false []
           = Ok (ret, b :: rest)).
Proof.
  intros H He. unfold Sequence._decode_value in H.
  destruct (Sequence.decode_components components buf false [])
    as [[ret rest]|e'] eqn:Hfirst; cbn [bind] in H.
  - destruct rest as [|b rest].
    + exfalso.
      destruct (Sequence.decode_any components false ret) as [d|e'] eqn:Hany;
        cbn [bind] in H; [discriminate|].
      injection H as <-. rewrite (decode_any_lenient _ _ _ Hany) in He.
      discriminate.
    + injection H as <-. right. split; [reflexivity|]. eauto.
  - injection H as <-. left. reflexivity.
Qed.

Lemma Sequence_lenient_errors_are_first_pass_witness :
  exists ret b rest,
    Sequence.decode_components
      (Sequence_components
         [mkComponent "x" IntegerType None None false None [];
          mkComponent "y" IntegerType None None true None []])
      [x02; x01; x05; x02; x01; x07; x00] false []
    = Ok (ret, b :: rest).
Proof.
  destruct (Sequence_lenient_errors_are_first_pass
              (Sequence_components
                 [mkComponent "x" IntegerType None None false None [];
                  mkComponent "y" IntegerType None None true None []])
              [x02; x01; x05; x02; x01; x07; x00] ASN1Error
              eq_refl eq_refl) as [H | [_ H]].
  - vm_compute in H. discriminate H.
  - exact H.
Defined.

Lemma dict_get_set_other {A : Type} (d : list (string * A)) (k k' : string)
  (a : A) :
  k <> k' -> dict_get (dict_set d k a) k' = dict_get d k'.
Proof.
  intros Hne. induction d as [|[k0 a0] d IH].
  - cbn [dict_set dict_get]. destruct (String.eqb_spec k k'); [contradiction|].
    reflexivity.
  - cbn [dict_set]. destruct (String.eqb_spec k0 k) as [->|Hk0].
    + cbn [dict_get]. destruct (String.eqb_spec k k'); [contradiction|].
      reflexivity.
    + cbn [dict_get]. rewrite IH. reflexivity.
Qed.

Lemma encode_VAny (cls : asn1_type) (raw : str) (x y : option inst) :
  encode cls (VAny raw x) = encode cls (VAny raw y).
Proof. destruct cls; reflexivity. Qed.

Lemma decode_any_keeps_raw
  (components : list (Component * Sequence.component_class)) (strict : bool) :
  forall ret d,
    Sequence.decode_any components strict ret = Ok d ->
    forall k,
      dict_get d k = dict_get ret k
      \/ exists raw x y,
           dict_get ret k = Some (Some (VAny raw x))
           /\ dict_get d k = Some (Some (VAny raw y)).
Proof.
  induction components as [|[c cc] components IH]; intros ret d H k.
  - cbn in H. injection H as <-. left. reflexivity.
  - cbn [Sequence.decode_any] in H.
    destruct (defined_by c) as [db|]; [|exact (IH _ _ H k)].
    destruct (dict_get ret db) as [key|]; [|discriminate].
    inv_bind H. destruct a as [value_type_decode|]; [|exact (IH _ _ H k)].
    destruct (dict_get ret (name c)) as [[self|]|] eqn:Hself; try discriminate.
    destruct (Any.decode_inner self value_type_decode strict) as [self'|e]
      eqn:Hinner.
    + unfold Any.decode_inner in Hinner.
      destruct self as [| | |raw x| | |]; try discriminate.
      inv_bind Hinner. injection Hinner as <-.
      destruct (String.eqb_spec (name c) k) as [<-|Hne].
      * right. destruct (IH _ _ H (name c)) as [Heq | (raw' & x' & y' & Hr & Hd)].
        -- rewrite dict_get_set_same in Heq. eauto.
        -- rewrite dict_get_set_same in Hr. injection Hr as <- <-. eauto.
      * destruct (IH _ _ H k) as [Heq | (raw' & x' & y' & Hr & Hd)].
        -- left. rewrite Heq. apply dict_get_set_other. exact Hne.
        -- right. rewrite dict_get_set_other in Hr by exact Hne. eauto.
    + destruct (is_ASN1Error e && negb strict); [exact (IH _ _ H k) | discriminate].
Qed.

Lemma encode_components_same_raw (components : list Component)
  (ret d : list (string * option inst)) :
  (forall k,
      dict_get d k = dict_get ret k
      \/ exists raw x y,
           dict_get ret k = Some (Some (VAny raw x))
           /\ dict_get d k = Some (Some (VAny raw y))) ->
  Sequence.encode_components
    (map (fun c => (c, encode (value_type c))) components) d
  = Sequence.encode_components
      (map (fun c => (c, encode (value_type c))) components) ret.
Proof.
  intros Hrel. induction components as [|c components IH]; [reflexivity|].
  cbn [map Sequence.encode_components]. rewrite IH.
  destruct (Hrel (name c)) as [-> | (raw & x & y & -> & ->)]; [reflexivity|].
  rewrite (encode_VAny (value_type c) raw y x). reflexivity.
Qed.

(** X19. The second pass of [Sequence._decode_value] leaves the bytes of
    every component as they were read: whatever it decodes inside the [Any]
    components, the dict it returns encodes, under any [Sequence] class, as
    the dict of the first pass does. *)
Theorem Sequence_second_pass_keeps_encoding
  (t : list tag.Tag) (components : list Component)
  (defined : list (Component * Sequence.component_class)) (strict : bool)
  (ret d : list (string * option inst)) :
  Sequence.decode_any defined strict ret = Ok d ->
  encode (Sequence t components) (VSequence d)
  = encode (Sequence t components) (VSequence ret).
Proof.
  intros H. cbn [encode tags]. f_equal. unfold Sequence._encode_value.
  rewrite (encode_components_same_raw components ret d
             (decode_any_keeps_raw _ _ _ _ H)).
  reflexivity.
Qed.

Lemma Sequence_second_pass_keeps_encoding_witness :
  encode
    (SequenceType
       [mkComponent "kind" IntegerType None None false None [];
        mkComponent "body" AnyType None None false (Some "kind"%string)
          [(VInt 1, BooleanType)]])
    (VSequence [("kind"%string, Some (VInt 1));
                ("body"%string,
                 Some (VAny [x01; x01; xff] (Some (VBool true))))])
  = encode
      (SequenceType
         [mkComponent "kind" IntegerType None None false None [];
        mkComponent "body" AnyType None None false (Some "kind"%string)
          [(VInt 1, BooleanType)]])
      (VSequence [("kind"%string, Some (VInt 1));
                  ("body"%string, Some (VAny [x01; x01; xff] None))]).
Proof.
  apply (Sequence_second_pass_keeps_encoding
           (universal 16 tag.CONSTRUCTED)
           [mkComponent "kind" IntegerType None None false None [];
        mkComponent "body" AnyType None None false (Some "kind"%string)
          [(VInt 1, BooleanType)]]
           (Sequence_components
              [mkComponent "kind" IntegerType None None false None [];
        mkComponent "body" AnyType None None false (Some "kind"%string)
          [(VInt 1, BooleanType)]])
           true
           [("kind"%string, Some (VInt 1));
            ("body"%string, Some (VAny [x01; x01; xff] None))]).
  vm_compute. reflexivity.
Defined.

(** ** Any *)

(** X20. An [Any] made from an instance of another class holds the encoding
    of that instance: it encodes to these bytes under the tags of the [Any]
    class, so an untagged [Any] encodes exactly as the instance does, and it
    keeps the instance as its decoded value.  An [Any] cannot be made from
    an instance of an [Any] class: the constructor raises [TypeError]. *)
Theorem Any_encodes_as_its_content
  (t : list tag.Tag) (cls : asn1_type) (v : inst) :
  (is_Any cls = true -> new (Any t) (PyInst cls v) = Raise TypeError)
  /\ (forall a,
        new (Any t) (PyInst cls v) = Ok a ->
        is_Any cls = false
        /\ (exists raw, a = VAny raw (Some v) /\ encode cls v = Ok raw)
        /\ encode (Any t) a = Abstract.encode t (encode cls v)).
Proof.
  cbn [new]. unfold Any.__init__, Any._convert_value. split.
  - intros ->. reflexivity.
  - intros a H. destruct (is_Any cls); [discriminate|].
    inv_bind H. injection H as <-. repeat apply conj.
    + reflexivity.
    + exists a0. split; [reflexivity | exact E].
    + cbn [encode tags Any._encode_value]. rewrite E. reflexivity.
Qed.

Lemma Any_encodes_as_its_content_witness :
  encode AnyType (VAny [x02; x01; x05] (Some (VInt 5)))
  = Abstract.encode [] (encode IntegerType (VInt 5)).
Proof.
  exact (proj2 (proj2 (proj2 (Any_encodes_as_its_content
                                [] IntegerType (VInt 5))
                         (VAny [x02; x01; x05] (Some (VInt 5))) eq_refl))).
Defined.

(** ** The list protocol of SequenceOf and SetOf *)

Lemma position_spec (n i : Z) :
  (- n <= i < n ->
   exists p, RepeatedObject.position n i = Some p
             /\ Z.of_nat p = (if i <? 0 then i + n else i)
             /\ 0 <= Z.of_nat p < n)
  /\ (i < - n \/ n <= i -> RepeatedObject.position n i = None).
Proof.
  unfold RepeatedObject.position. split.
  - intros Hi. exists (Z.to_nat (if i <? 0 then i + n else i)).
    destruct (Z.ltb_spec i 0).
    + replace ((0 <=? i + n) && (i + n <? n)) with true
        by (symmetry; apply andb_true_iff; split;
            [apply Z.leb_le | apply Z.ltb_lt]; lia).
      repeat apply conj; [reflexivity | lia | lia | lia].
    + replace ((0 <=? i) && (i <? n)) with true
        by (symmetry; apply andb_true_iff; split;
            [apply Z.leb_le | apply Z.ltb_lt]; lia).
      repeat apply conj; [reflexivity | lia | lia | lia].
  - intros Hi. destruct (Z.ltb_spec i 0).
    + replace (0 <=? i + n) with false by (symmetry; apply Z.leb_gt; lia).
      reflexivity.
    + replace (i <? n) with false by (symmetry; apply Z.ltb_ge; lia).
      rewrite andb_false_r. reflexivity.
Qed.

Lemma same_position (n i j : Z) (p m : nat) :
  RepeatedObject.position n i = Some p ->
  RepeatedObject.position n j = Some m ->
  p = m -> (j - i) mod n = 0.
Proof.
  unfold RepeatedObject.position. intros Hi Hj ->.
  destruct ((0 <=? (if i <? 0 then i + n else i))
            && ((if i <? 0 then i + n else i) <? n)) eqn:Ei; [|discriminate].
  destruct ((0 <=? (if j <? 0 then j + n else j))
            && ((if j <? 0 then j + n else j) <? n)) eqn:Ej; [|discriminate].
  apply andb_true_iff in Ei. destruct Ei as [Ei1 Ei2].
  apply andb_true_iff in Ej. destruct Ej as [Ej1 Ej2].
  apply Z.leb_le in Ei1, Ej1. apply Z.ltb_lt in Ei2, Ej2.
  injection Hi as Hi. injection Hj as Hj.
  assert (E : (if j <? 0 then j + n else j) = (if i <? 0 then i + n else i))
    by lia.
  clear Hi Hj.
  destruct (Z.ltb_spec i 0), (Z.ltb_spec j 0).
  - replace (j - i) with 0 by lia. apply Z.mod_0_l. lia.
  - replace (j - i) with (1 * n) by lia. apply Z.mod_mul. lia.
  - replace (j - i) with (-1 * n) by lia. apply Z.mod_mul. lia.
  - replace (j - i) with 0 by lia. apply Z.mod_0_l. lia.
Qed.

Lemma list_set_nth (l : list inst) (x : inst) :
  forall p, (p < List.length l)%nat ->
    List.length (firstn p l ++ x :: skipn (S p) l) = List.length l
    /\ forall m,
         nth_error (firstn p l ++ x :: skipn (S p) l) m
         = if Nat.eqb m p then Some x else nth_error l m.
Proof.
  induction l as [|y l IH]; intros p Hp; [inversion Hp|].
  destruct p as [|p].
  - cbn. split; [reflexivity|]. intros [|m]; reflexivity.
  - cbn [List.length] in Hp. destruct (IH p ltac:(lia)) as [Hlen Hnth].
    cbn [firstn skipn app List.length] in *. split; [lia|].
    intros [|m]; [reflexivity|]. cbn [nth_error Nat.eqb]. apply Hnth.
Qed.

Lemma list_insert_nth (l : list inst) (x : inst) :
  forall p, (p <= List.length l)%nat ->
    List.length (firstn p l ++ x :: skipn p l) = S (List.length l)
    /\ nth_error (firstn p l ++ x :: skipn p l) p = Some x
    /\ (forall m, (m < p)%nat ->
          nth_error (firstn p l ++ x :: skipn p l) m = nth_error l m)
    /\ (forall m, (p <= m)%nat ->
          nth_error (firstn p l ++ x :: skipn p l) (S m) = nth_error l m)
    /\ firstn p (firstn p l ++ x :: skipn p l)
       ++ skipn (S p) (firstn p l ++ x :: skipn p l) = l.
Proof.
  induction l as [|y l IH]; intros p Hp.
  - assert (p = 0%nat) by (cbn in Hp; lia). subst p. cbn.
    repeat apply conj; try reflexivity.
    all: intros m Hm; try lia; destruct m; reflexivity.
  - destruct p as [|p].
    + cbn. repeat apply conj; try reflexivity. all: intros m Hm; lia.
    + cbn [List.length] in Hp.
      destruct (IH p ltac:(lia)) as (Hlen & Hx & Hbefore & Hafter & Hdel).
      cbn [firstn skipn app List.length nth_error] in *.
      repeat apply conj.
      * lia.
      * exact Hx.
      * intros [|m] Hm; [reflexivity|]. cbn [nth_error]. apply Hbefore. lia.
      * intros [|m] Hm; [lia|]. cbn [nth_error]. apply Hafter. lia.
      * f_equal. exact Hdel.
Qed.

Lemma Repeated_value_setattr (self : object) (l : list inst) :
  RepeatedObject._value (setattr self "_value" (VRepeated l)) = Ok l.
Proof.
  unfold RepeatedObject._value. rewrite getattr_setattr. reflexivity.
Qed.




Lemma Repeated_getitem_int (self : object) (l : list inst) (i : Z) :
  RepeatedObject._value self = Ok l ->
  RepeatedObject.__getitem__ self (RepeatedObject.IInt i)
  = match RepeatedObject.position (len l) i with
    | Some n =>
        match nth_error l n with
        | Some x => inl (RepeatedObject.Item x)
        | None => inr RepeatedObject.IndexError
        end
    | None => inr RepeatedObject.IndexError
    end.
Proof. intros H. unfold RepeatedObject.__getitem__. rewrite H. reflexivity. Qed.

(** X21. Assigning to an integer index of a [SequenceOf] or [SetOf] object
    stores the converted value at that index, a negative index counting
    from the end: reading the index back gives the value, the length and
    the items at the other positions are unchanged.  An index out of range
    raises [IndexError] and leaves the object as it was.  Assigning to a
    slice never works: it raises [NameError], whatever the slice and the
    value are. *)
Theorem Repeated_setitem_then_getitem
  (self : object) (c : asn1_type) (l : list inst) (value : pyobj) (x : inst)
  (i : Z) :
  RepeatedObject.component self = Ok c ->
  RepeatedObject._value self = Ok l ->
  as_instance_of c (new c) value = Ok x ->
  (- len l <= i < len l ->
   exists self',
     RepeatedObject.__setitem__ self (RepeatedObject.IInt i) value
     = (self', None)
     /\ RepeatedObject.__getitem__ self' (RepeatedObject.IInt i)
        = inl (RepeatedObject.Item x)
     /\ RepeatedObject.__len__ self' = Ok (len l)
     /\ forall j,
          (j - i) mod len l <> 0 ->
          RepeatedObject.__getitem__ self' (RepeatedObject.IInt j)
          = RepeatedObject.__getitem__ self (RepeatedObject.IInt j))
  /\ (i < - len l \/ len l <= i ->
      RepeatedObject.__setitem__ self (RepeatedObject.IInt i) value
      = (self, Some RepeatedObject.IndexError))
  /\ (forall start stop step v,
        RepeatedObject.__setitem__ self
          (RepeatedObject.ISlice start stop step) v
        = (self, Some RepeatedObject.NameError)).
Proof.
  intros Hc Hl Hx. repeat apply conj.
  - intros Hi. destruct (proj1 (position_spec (len l) i) Hi)
      as (p & Hp & Hpz & Hrange).
    assert (Hlt : (p < List.length l)%nat) by (unfold len in Hrange; lia).
    destruct (list_set_nth l x p Hlt) as [Hlen Hnth].
    set (l' := firstn p l ++ x :: skipn (S p) l) in *.
    assert (Hlen' : len l' = len l) by (unfold len; rewrite Hlen; reflexivity).
    exists (setattr self "_value" (VRepeated l')).
    repeat apply conj.
    + unfold RepeatedObject.__setitem__. rewrite Hc, Hx, Hl, Hp. reflexivity.
    + rewrite (Repeated_getitem_int _ l') by apply Repeated_value_setattr.
      rewrite Hlen', Hp, Hnth, Nat.eqb_refl. reflexivity.
    + unfold RepeatedObject.__len__. rewrite Repeated_value_setattr.
      cbn [bind]. rewrite Hlen'. reflexivity.
    + intros j Hj.
      rewrite (Repeated_getitem_int _ l') by apply Repeated_value_setattr.
      rewrite (Repeated_getitem_int _ l) by exact Hl.
      rewrite Hlen'.
      destruct (RepeatedObject.position (len l) j) as [m|] eqn:Hm;
        [|reflexivity].
      rewrite Hnth. destruct (Nat.eqb_spec m p) as [->|Hne]; [|reflexivity].
      exfalso. apply Hj. exact (same_position _ _ _ _ _ Hp Hm eq_refl).
  - intros Hi. unfold RepeatedObject.__setitem__.
    rewrite Hc, Hx, Hl, (proj2 (position_spec (len l) i) Hi). reflexivity.
  - reflexivity.
Qed.

Lemma Repeated_setitem_then_getitem_witness :
  exists self',
    RepeatedObject.__setitem__
      (mkObject (SequenceOfType IntegerType)
         [("_value"%string, VRepeated [VInt 1; VInt 2; VInt 3])])
      (RepeatedObject.IInt (-1)) (PyInt 7)
    = (self', None)
    /\ RepeatedObject.__getitem__ self' (RepeatedObject.IInt (-1))
       = inl (RepeatedObject.Item (VInt 7)).
Proof.
  destruct (proj1 (Repeated_setitem_then_getitem
                     (mkObject (SequenceOfType IntegerType)
                        [("_value"%string,
                          VRepeated [VInt 1; VInt 2; VInt 3])])
                     IntegerType [VInt 1; VInt 2; VInt 3] (PyInt 7) (VInt 7)
                     (-1) eq_refl eq_refl eq_refl))
    as (self' & Hset & Hget & _).
  - vm_compute. split; [discriminate | reflexivity].
  - exists self'. split; [exact Hset | exact Hget].
Defined.

Lemma Repeated_insert_fits
  (self : object) (c : asn1_type) (l : list inst) (value : pyobj) (x : inst)
  (i : Z) :
  RepeatedObject.component self = Ok c ->
  RepeatedObject._value self = Ok l ->
  as_instance_of c (new c) value = Ok x ->
  - RepeatedObject.PY_SSIZE_T_MAX - 1 <= i <= RepeatedObject.PY_SSIZE_T_MAX ->
  RepeatedObject.insert self i value
  = (setattr self "_value"
       (VRepeated
          (firstn (Z.to_nat (Z.max 0 (Z.min (len l)
                                        (if i <? 0 then i + len l else i)))) l
           ++ x :: skipn (Z.to_nat
                            (Z.max 0 (Z.min (len l)
                                        (if i <? 0 then i + len l else i))))
                         l)),
     None).
Proof.
  intros Hc Hl Hx Hfit. unfold RepeatedObject.insert. rewrite Hc, Hx, Hl.
  replace ((i <? - RepeatedObject.PY_SSIZE_T_MAX - 1)
           || (RepeatedObject.PY_SSIZE_T_MAX <? i)) with false.
  2:{ symmetry. apply orb_false_iff. split; apply Z.ltb_ge; lia. }
  cbv zeta. pose proof (len_nonneg l) as Hn.
  replace (if (if i <? 0 then i + len l else i) <? 0 then 0
           else if len l <? (if i <? 0 then i + len l else i) then len l
                else (if i <? 0 then i + len l else i))
    with (Z.max 0 (Z.min (len l) (if i <? 0 then i + len l else i))).
  - reflexivity.
  - destruct (Z.ltb_spec (if i <? 0 then i + len l else i) 0); [lia|].
    destruct (Z.ltb_spec (len l) (if i <? 0 then i + len l else i)); lia.
Qed.

(** X22. [insert] takes any index that fits [Py_ssize_t]: an index before
    the start inserts at the start, one past the end appends, a negative
    one counts from the end.  The converted value is then at the position
    of the insertion, the length has grown by one, the items before that
    position keep their index and the items from it on have moved up by
    one.  An index that does not fit [Py_ssize_t] raises [OverflowError]
    and leaves the object as it was. *)
Theorem Repeated_insert_shifts
  (self : object) (c : asn1_type) (l : list inst) (value : pyobj) (x : inst)
  (i : Z) :
  RepeatedObject.component self = Ok c ->
  RepeatedObject._value self = Ok l ->
  as_instance_of c (new c) value = Ok x ->
  (- RepeatedObject.PY_SSIZE_T_MAX - 1 <= i <= RepeatedObject.PY_SSIZE_T_MAX ->
   exists self' p,
     RepeatedObject.insert self i value = (self', None)
     /\ p = Z.max 0 (Z.min (len l) (if i <? 0 then i + len l else i))
     /\ RepeatedObject.__len__ self' = Ok (len l + 1)
     /\ RepeatedObject.__getitem__ self' (RepeatedObject.IInt p)
        = inl (RepeatedObject.Item x)
     /\ (forall j, 0 <= j < p ->
           RepeatedObject.__getitem__ self' (RepeatedObject.IInt j)
           = RepeatedObject.__getitem__ self (RepeatedObject.IInt j))
     /\ (forall j, p <= j < len l ->
           RepeatedObject.__getitem__ self' (RepeatedObject.IInt (j + 1))
           = RepeatedObject.__getitem__ self (RepeatedObject.IInt j)))
  /\ (i < - RepeatedObject.PY_SSIZE_T_MAX - 1
      \/ RepeatedObject.PY_SSIZE_T_MAX < i ->
      RepeatedObject.insert self i value
      = (self, Some RepeatedObject.OverflowError)).
Proof.
  intros Hc Hl Hx. split.
  - intros Hfit.
    set (p := Z.max 0 (Z.min (len l) (if i <? 0 then i + len l else i))).
    pose proof (len_nonneg l) as Hn.
    assert (Hp : 0 <= p <= len l) by (unfold p; lia).
    assert (Hle : (Z.to_nat p <= List.length l)%nat)
      by (unfold len in Hp; lia).
    destruct (list_insert_nth l x _ Hle) as (Hlen & Hnx & Hbefore & Hafter & _).
    set (l' := firstn (Z.to_nat p) l ++ x :: skipn (Z.to_nat p) l) in *.
    assert (Hlen' : len l' = len l + 1) by (unfold len; rewrite Hlen; lia).
    assert (Hpos : forall n j, 0 <= j < n ->
                     RepeatedObject.position n j = Some (Z.to_nat j)).
    { intros n j Hj.
      destruct (proj1 (position_spec n j) ltac:(lia)) as (q & Hq & Hqz & _).
      rewrite Hq. f_equal. destruct (Z.ltb_spec j 0); lia. }
    exists (setattr self "_value" (VRepeated l')), p. repeat apply conj.
    + rewrite (Repeated_insert_fits self c l value x i Hc Hl Hx Hfit).
      reflexivity.
    + reflexivity.
    + unfold RepeatedObject.__len__. rewrite Repeated_value_setattr.
      cbn [bind]. rewrite Hlen'. reflexivity.
    + rewrite (Repeated_getitem_int _ l') by apply Repeated_value_setattr.
      rewrite Hlen', (Hpos (len l + 1) p) by lia. rewrite Hnx. reflexivity.
    + intros j Hj.
      rewrite (Repeated_getitem_int _ l') by apply Repeated_value_setattr.
      rewrite (Repeated_getitem_int _ l) by exact Hl.
      rewrite Hlen', (Hpos (len l + 1) j), (Hpos (len l) j) by lia.
      rewrite Hbefore by lia. reflexivity.
    + intros j Hj.
      rewrite (Repeated_getitem_int _ l') by apply Repeated_value_setattr.
      rewrite (Repeated_getitem_int _ l) by exact Hl.
      rewrite Hlen', (Hpos (len l + 1) (j + 1)), (Hpos (len l) j) by lia.
      replace (Z.to_nat (j + 1)) with (S (Z.to_nat j)) by lia.
      rewrite Hafter by lia. reflexivity.
  - intros Hout. unfold RepeatedObject.insert. rewrite Hc, Hx, Hl.
    replace ((i <? - RepeatedObject.PY_SSIZE_T_MAX - 1)
             || (RepeatedObject.PY_SSIZE_T_MAX <? i)) with true; [reflexivity|].
    symmetry. apply orb_true_iff.
    destruct Hout; [left; apply Z.ltb_lt | right; apply Z.ltb_lt]; assumption.
Qed.

Lemma Repeated_insert_shifts_witness :
  exists self',
    RepeatedObject.insert
      (mkObject (SequenceOfType IntegerType)
         [("_value"%string, VRepeated [VInt 1; VInt 2; VInt 3])])
      (-10) (PyInt 7)
    = (self', None)
    /\ RepeatedObject.__getitem__ self' (RepeatedObject.IInt 0)
       = inl (RepeatedObject.Item (VInt 7)).
Proof.
  destruct (proj1 (Repeated_insert_shifts
                     (mkObject (SequenceOfType IntegerType)
                        [("_value"%string,
                          VRepeated [VInt 1; VInt 2; VInt 3])])
                     IntegerType [VInt 1; VInt 2; VInt 3] (PyInt 7) (VInt 7)
                     (-10) eq_refl eq_refl eq_refl))
    as (self' & p & Hins & Hp & _ & Hget & _).
  - vm_compute. split; discriminate.
  - exists self'. split; [exact Hins|].
    vm_compute in Hp. rewrite Hp in Hget. exact Hget.
Defined.



(** ** Decoding what a Sequence encoded *)

Lemma dict_get_app_fresh {A : Type} (pre d : list (string * A)) (k : string) :
  ~ In k (map fst pre) -> dict_get (pre ++ d) k = dict_get d k.
Proof.
  induction pre as [|[k' a'] pre IH]; intros H; [reflexivity|].
  cbn [app dict_get]. cbn [map fst] in H.
  destruct (String.eqb_spec k' k) as [->|Hne].
  - exfalso. apply H. left. reflexivity.
  - apply IH. intros Hin. apply H. right. exact Hin.
Qed.

Lemma set_fields_keys (components : list Component) (values : list inst) :
  Forall2 round_trip_field components values ->
  map fst (set_fields components values) = map name components.
Proof.
  induction 1 as [|c v components values _ _ IH]; [reflexivity|].
  unfold set_fields in *. cbn [combine map fst]. rewrite IH. reflexivity.
Qed.

Lemma set_fields_get (components : list Component) (values : list inst) :
  Forall2 round_trip_field components values ->
  forall pre,
    NoDup (map fst pre ++ map name components) ->
    Forall2 (fun c v =>
               dict_get (pre ++ set_fields components values) (name c)
               = Some (Some v))
            components values.
Proof.
  induction 1 as [|c v components values Hf Hrest IH]; intros pre Hnd;
    [constructor|].
  cbn [map] in Hnd. destruct (NoDup_app_head _ _ _ Hnd) as [Hfresh Hnd'].
  constructor.
  - rewrite dict_get_app_fresh by exact Hfresh.
    unfold set_fields. cbn [combine map fst snd dict_get].
    rewrite String.eqb_refl. reflexivity.
  - specialize (IH (pre ++ [(name c, Some v)])).
    rewrite map_app in IH. cbn [map fst] in IH.
    specialize (IH Hnd'). rewrite <- app_assoc in IH. exact IH.
Qed.

Lemma encode_components_set (components : list Component)
  (values : list inst) (d : list (string * option inst)) :
  Forall2 round_trip_field components values ->
  Forall2 (fun c v => dict_get d (name c) = Some (Some v)) components values ->
  forall l,
    Sequence.encode_components
      (map (fun c => (c, encode (value_type c))) components) d = Ok l ->
    l = map (fun cv => encoding (value_type (fst cv)) (snd cv))
            (combine components values)
    /\ Forall2 (fun c v =>
                  encode (value_type c) v = Ok (encoding (value_type c) v))
               components values.
Proof.
  induction 1 as [|c v components values Hf _ IH]; intros Hget l H;
    inversion Hget as [|? ? ? ? Hg Hget']; subst.
  - cbn in H. injection H as <-. split; [reflexivity | constructor].
  - cbn [map Sequence.encode_components] in H. rewrite Hg in H.
    inv_bind H. inv_bind H.
    destruct Hf as (_ & _ & _ & Hdiff).
    assert (Ha : encoding (value_type c) v = a)
      by (unfold encoding; rewrite E; reflexivity).
    rewrite Ha in Hdiff. rewrite Hdiff in H. injection H as <-.
    destruct (IH Hget' _ E0) as [-> Hall]. split.
    + cbn [combine map fst snd]. rewrite Ha. reflexivity.
    + constructor; [rewrite Ha; exact E | exact Hall].
Qed.

Lemma len_concat_cons (e : str) (es : list str) :
  len (List.concat (e :: es)) = len e + len (List.concat es).
Proof. cbn [List.concat]. apply len_app. Qed.

Lemma decode_components_encoded (components : list Component)
  (values : list inst) (strict : bool) :
  Forall2 round_trip_field components values ->
  Forall2 (fun c v => encode (value_type c) v = Ok (encoding (value_type c) v))
          components values ->
  forall (ret : list (string * option inst)) (rest : str),
    NoDup (map fst ret ++ map name components) ->
    len (List.concat
           (map (fun cv => encoding (value_type (fst cv)) (snd cv))
                (combine components values))) < 2 ^ 1016 ->
    Sequence.decode_components (Sequence_components components)
      (List.concat
         (map (fun cv => encoding (value_type (fst cv)) (snd cv))
              (combine components values)) ++ rest)
      strict ret
    = Ok (ret ++ set_fields components (canon_fields components values),
          rest).
Proof.
  induction 1 as [|c v components values Hf Hrest IH];
    intros Henc ret rest Hnd Hlen;
    inversion Henc as [|? ? ? ? He Henc']; subst.
  - cbn. rewrite app_nil_r. reflexivity.
  - cbn [combine map fst snd] in Hlen |- *.
    rewrite len_concat_cons in Hlen.
    pose proof (len_nonneg (encoding (value_type c) v)) as Hn1.
    pose proof (len_nonneg
                  (List.concat
                     (map (fun cv => encoding (value_type (fst cv)) (snd cv))
                          (combine components values)))) as Hn2.
    destruct Hf as (Hscope & Hvalid & _ & _).
    cbn [List.concat]. rewrite <- app_assoc.
    unfold Sequence_components at 1. cbn [map].
    cbn [Sequence.decode_components Sequence.value_type_read].
    rewrite (read_encoded _ Hscope v _ _ strict Hvalid He) by lia.
    cbn [map] in Hnd. destruct (NoDup_app_head _ _ _ Hnd) as [Hfresh Hnd'].
    rewrite dict_set_fresh by exact Hfresh.
    fold (Sequence_components components).
    rewrite IH.
    + unfold set_fields, canon_fields. cbn [combine map fst snd].
      rewrite <- app_assoc. reflexivity.
    + exact Henc'.
    + rewrite map_app. exact Hnd'.
    + lia.
Qed.

Lemma decode_any_undefined (components : list Component) (strict : bool)
  (ret : list (string * option inst)) :
  Forall (fun c => defined_by c = None) components ->
  Sequence.decode_any (Sequence_components components) strict ret = Ok ret.
Proof.
  induction 1 as [|c components Hc _ IH]; [reflexivity|].
  unfold Sequence_components. cbn [map Sequence.decode_any]. rewrite Hc.
  exact IH.
Qed.

Lemma canon_fields_ordered (components : list Component) (values : list inst) :
  Forall2 (fun c v => ordered (value_type c) v = true) components values ->
  canon_fields components values = values.
Proof.
  induction 1 as [|c v components values Ho _ IH]; [reflexivity|].
  unfold canon_fields in *. cbn [combine map fst snd].
  rewrite (ordered_canon _ _ Ho), IH. reflexivity.
Qed.

(** X24. A [Sequence] instance with every component set decodes from its
    encoding to the same instance, up to the order of the elements of the
    [SetOf]s in it, and to exactly the same instance when these are in
    ascending order of their encodings.  This holds for a tagged class with
    distinct component names, whose components are in the scope of the
    round trip and are not defined by another one, and for values that do
    not encode as the default of their component; the encoding is shorter
    than 2^1016 bytes. *)
Theorem Sequence_decode_encode
  (t : list tag.Tag) (components : list Component) (values : list inst)
  (e : str) (strict : bool) :
  t <> [] ->
  NoDup (map name components) ->
  Forall2 round_trip_field components values ->
  encode (Sequence t components) (VSequence (set_fields components values))
  = Ok e ->
  len e < 2 ^ 1016 ->
  decode (Sequence t components) e strict
  = Ok (VSequence
          (set_fields components (canon_fields components values)))
  /\ (Forall2 (fun c v => ordered (value_type c) v = true) components values ->
      decode (Sequence t components) e strict
      = Ok (VSequence (set_fields components values))).
Proof.
  intros Ht Hnd Hf He Hlen.
  assert (Hd : decode (Sequence t components) e strict
               = Ok (VSequence
                       (set_fields components
                          (canon_fields components values)))).
  { assert (Htagged : tagged (Sequence t components) = true)
      by (unfold tagged; cbn [tags]; destruct t; [contradiction | reflexivity]).
    cbn [encode] in He.
    destruct (Abstract_encode_Ok _ _ _ He) as (content & Hc & Hle).
    rewrite Hc in He.
    unfold decode, Abstract.decode. rewrite <- (app_nil_r e) at 1.
    rewrite (read_framed _ content _ _ _ Htagged He Hlen).
    rewrite class_of_Sequence.
    unfold Sequence._encode_value in Hc. inv_bind Hc. injection Hc as <-.
    destruct (encode_components_set components values _ Hf
                (set_fields_get _ _ Hf [] Hnd) _ E) as [-> Henc].
    unfold Sequence._decode_value.
    rewrite <- (app_nil_r (List.concat _)) at 1.
    rewrite (decode_components_encoded components values strict Hf Henc
               [] [] Hnd) by lia.
    cbn [bind app].
    rewrite decode_any_undefined; [reflexivity|].
    clear - Hf. induction Hf as [|c v components values Hc _ IH];
      constructor; [exact (proj1 (proj2 (proj2 Hc))) | exact IH]. }
  split; [exact Hd|].
  intros Ho. rewrite Hd, (canon_fields_ordered _ _ Ho). reflexivity.
Qed.

Lemma Sequence_decode_encode_witness :
  decode PointType
    [x30; x06; x02; x01; x05; x02; x01; x07] true
  = Ok (VSequence [("x"%string, Some (VInt 5)); ("y"%string, Some (VInt 7))]).
Proof.
  apply (proj2 (Sequence_decode_encode
                  (universal 16 tag.CONSTRUCTED)
                  [mkComponent "x" IntegerType None None false None [];
                   mkComponent "y" IntegerType None None true None []]
                  [VInt 5; VInt 7]
                  [x30; x06; x02; x01; x05; x02; x01; x07] true
                  ltac:(discriminate)
                  ltac:(repeat constructor; simpl; intuition discriminate)
                  ltac:(repeat constructor)
                  eq_refl
                  ltac:(vm_compute; reflexivity))).
  repeat constructor.
Defined.

(** ** Encoding what was decoded *)

Lemma le_val_bounds (l : list byte) (top : Z) :
  256 ^ len l * top <= le_val l top < 256 ^ len l * (top + 1).
Proof.
  unfold len. induction l as [|b l IH].
  - change (le_val [] top) with top.
    change (256 ^ Z.of_nat (List.length (@nil byte))) with 1. lia.
  - change (le_val (b :: l) top) with (ord b + 256 * le_val l top).
    pose proof (ord_range b).
    replace (Z.of_nat (List.length (b :: l)))
      with (Z.succ (Z.of_nat (List.length l)))
      by (cbn [List.length]; lia).
    rewrite Z.pow_succ_r by lia.
    remember (256 ^ Z.of_nat (List.length l)) as P.
    remember (le_val l top) as x. nia.
Qed.

Lemma le_val_inj (l : list byte) :
  forall (l' : list byte) (top top' : Z),
    List.length l = List.length l' ->
    le_val l top = le_val l' top' -> l = l' /\ top = top'.
Proof.
  induction l as [|b l IH]; intros [|b' l'] top top' Hlen H;
    try discriminate.
  - split; [reflexivity | exact H].
  - change (ord b + 256 * le_val l top = ord b' + 256 * le_val l' top') in H.
    pose proof (ord_range b). pose proof (ord_range b').
    assert (Hb : ord b = ord b') by lia.
    assert (Hx : le_val l top = le_val l' top') by lia.
    injection Hlen as Hlen.
    destruct (IH l' top top' Hlen Hx) as [-> ->].
    rewrite (ord_inj _ _ Hb). split; reflexivity.
Qed.

Lemma decode_int_signed_shape (buf : str) (v : Z) :
  decode_int buf true = Ok v ->
  exists b0 rest s,
    buf = b0 :: rest
    /\ s = (if 127 <? ord b0 then ord b0 - 256 else ord b0)
    /\ v = le_val (rev rest) s
    /\ (forall b1 rest',
          rest = b1 :: rest' -> ~ (-128 <= ord b1 + 256 * s <= 127)).
Proof.
  intros H. destruct buf as [|b0 rest]; [discriminate|].
  exists b0, rest, (if 127 <? ord b0 then ord b0 - 256 else ord b0).
  unfold decode_int in H. cbv zeta in H.
  rewrite fold_left_big_endian in H.
  change (true && (127 <? ord b0)) with (127 <? ord b0) in H.
  pose proof (ord_range b0) as R0.
  destruct rest as [|b1 rest'].
  - injection H as <-. repeat apply conj; try reflexivity.
    intros ? ? ?. discriminate.
  - pose proof (ord_range b1) as R1.
    change (true && (ord b0 =? 255) && (128 <=? ord b1))
      with ((ord b0 =? 255) && (128 <=? ord b1)) in H.
    destruct ((ord b0 =? 0) && (ord b1 <? 128)) eqn:Ez; [discriminate|].
    destruct ((ord b0 =? 255) && (128 <=? ord b1)) eqn:Ef; [discriminate|].
    injection H as <-. repeat apply conj; try reflexivity.
    intros b1' rest'' Heq. injection Heq as <- <-.
    apply andb_false_iff in Ez. apply andb_false_iff in Ef.
    destruct (Z.ltb_spec 127 (ord b0)).
    + destruct Ef as [Ef|Ef].
      * apply Z.eqb_neq in Ef. lia.
      * apply Z.leb_gt in Ef. lia.
    + destruct Ez as [Ez|Ez].
      * apply Z.eqb_neq in Ez. lia.
      * apply Z.ltb_ge in Ez. lia.
Qed.

Lemma signed_byte_inj (b b' : byte) :
  (if 127 <? ord b then ord b - 256 else ord b)
  = (if 127 <? ord b' then ord b' - 256 else ord b') ->
  b = b'.
Proof.
  intros H. apply ord_inj.
  pose proof (ord_range b). pose proof (ord_range b').
  destruct (Z.ltb_spec 127 (ord b)), (Z.ltb_spec 127 (ord b')); lia.
Qed.

Lemma shorter_is_smaller (rest rest' : list byte) (b0 b0' : byte) (v : Z) :
  (List.length rest' < List.length rest)%nat ->
  v = le_val (rev rest) (if 127 <? ord b0 then ord b0 - 256 else ord b0) ->
  (forall b1 tl,
      rest = b1 :: tl ->
      ~ (-128 <= ord b1
                 + 256 * (if 127 <? ord b0 then ord b0 - 256 else ord b0)
         <= 127)) ->
  v = le_val (rev rest')
        (if 127 <? ord b0' then ord b0' - 256 else ord b0') ->
  False.
Proof.
  intros Hlt Hv Hmin Hv'.
  destruct rest as [|b1 tl]; [inversion Hlt|].
  specialize (Hmin b1 tl eq_refl).
  cbn [rev] in Hv. rewrite le_val_app in Hv.
  change (le_val [b1] ?s) with (ord b1 + 256 * s) in Hv.
  remember (ord b1 + 256 * (if 127 <? ord b0 then ord b0 - 256 else ord b0))
    as top eqn:Etop.
  remember (if 127 <? ord b0' then ord b0' - 256 else ord b0') as s' eqn:Es'.
  assert (Hs' : -128 <= s' <= 127).
  { pose proof (ord_range b0'). subst s'.
    destruct (Z.ltb_spec 127 (ord b0')); lia. }
  pose proof (le_val_bounds (rev tl) top) as B.
  pose proof (le_val_bounds (rev rest') s') as B'.
  rewrite <- Hv in B. rewrite <- Hv' in B'.
  assert (Hpow : 0 < 256 ^ len (rev rest') <= 256 ^ len (rev tl)).
  { split.
    - apply Z.pow_pos_nonneg; [lia | apply len_nonneg].
    - apply Z.pow_le_mono_r; [lia|]. unfold len. rewrite !length_rev.
      cbn [List.length] in Hlt. lia. }
  remember (256 ^ len (rev rest')) as Q.
  remember (256 ^ len (rev tl)) as P.
  clear - Hmin Hs' B B' Hpow. nia.
Qed.

Lemma decode_int_signed_inj (buf buf' : str) (v : Z) :
  decode_int buf true = Ok v -> decode_int buf' true = Ok v -> buf = buf'.
Proof.
  intros H H'.
  destruct (decode_int_signed_shape _ _ H) as (b0 & rest & s & -> & Hs & Hv & Hmin).
  destruct (decode_int_signed_shape _ _ H')
    as (b0' & rest' & s' & -> & Hs' & Hv' & Hmin').
  subst s s'.
  destruct (lt_eq_lt_dec (List.length rest) (List.length rest'))
    as [[Hlt | Heq] | Hgt].
  - exfalso. exact (shorter_is_smaller rest' rest b0' b0 v Hlt Hv' Hmin' Hv).
  - rewrite Hv' in Hv.
    destruct (le_val_inj (rev rest') (rev rest) _ _
                ltac:(rewrite !length_rev; congruence) Hv) as [Hr Hb].
    apply (f_equal (@rev byte)) in Hr. rewrite !rev_involutive in Hr.
    rewrite Hr, (signed_byte_inj _ _ Hb). reflexivity.
  - exfalso. exact (shorter_is_smaller rest rest' b0 b0' v Hgt Hv Hmin Hv').
Qed.

Lemma encode_int_signed_Ok (v : Z) : exists bs, encode_int v true = Ok bs.
Proof.
  unfold encode_int. cbn [negb andb].
  destruct (v =? 0); [eauto|]. destruct (v =? -1); [eauto|].
  destruct (encode_int_loop (encode_int_fuel v) v []) as [value' int_bytes].
  eauto.
Qed.

Lemma decode_int_then_encode_int (buf : str) (v : Z) :
  decode_int buf true = Ok v -> encode_int v true = Ok buf.
Proof.
  intros H. destruct (encode_int_signed_Ok v) as [bs E]. rewrite E. f_equal.
  exact (decode_int_signed_inj _ _ v (decode_int_encode_int _ _ _ E) H).
Qed.

(** X25. The contents that a [Boolean], an [Integer] or a string class
    decodes are canonical: encoding the decoded instance gives back the
    very bytes it was decoded from.  For [Integer] and the string classes
    this holds in both modes; for [Boolean] it holds in strict mode only,
    since in lenient mode every byte but 0x00 decodes to true, which
    encodes as 0xFF. *)
Theorem Simple_decode_then_encode
  (cls : asn1_type) (content : str) (strict : bool) (v : inst) :
  (is_Simple cls = true ->
   (strict = true \/ forall t, cls <> Boolean t) ->
   cls_serialized (class_of cls) content strict = Ok v ->
   encode cls v = Abstract.encode (tags cls) (Ok content))
  /\ (forall t b,
        b <> x00 -> b <> xff ->
        cls_serialized (class_of (Boolean t)) [b] false = Ok (VBool true)
        /\ encode (Boolean t) (VBool true)
           = Abstract.encode t (Ok [xff])).
Proof.
  split.
  - intros Hsimple Hmode H.
    destruct cls as [t|t|t|t|t|t cs|t c|t c|t cs]; try discriminate;
      cbn [class_of cls_serialized] in H; cbn [encode tags]; f_equal.
    + destruct Hmode as [-> | Hno]; [|exfalso; exact (Hno t eq_refl)].
      unfold Boolean._decode_value in H.
      destruct content as [|b [|? ?]]; try discriminate.
      destruct b; vm_compute in H; try discriminate;
        injection H as <-; reflexivity.
    + unfold Integer._decode_value in H. inv_bind H. injection H as <-.
      cbn [Integer._encode_value].
      exact (decode_int_then_encode_int _ _ E).
    + unfold ASN1String._decode_value in H. injection H as <-. reflexivity.
  - intros t b H0 Hff. split; [|reflexivity].
    cbn [class_of cls_serialized].
    destruct b; try reflexivity; contradiction.
Qed.

Lemma Simple_decode_then_encode_witness :
  encode IntegerType (VInt (-129))
  = Abstract.encode (tags IntegerType) (Ok [xff; x7f]).
Proof.
  apply (proj1 (Simple_decode_then_encode IntegerType [xff; x7f] true
                  (VInt (-129)))
           eq_refl (or_introl eq_refl) eq_refl).
Defined.

(** ** Decoding what a Choice encoded *)

Lemma dict_get_In_pair {A : Type} (d : list (string * A)) (k : string) (a : A) :
  dict_get d k = Some a -> In (k, a) d.
Proof.
  induction d as [|[k' a'] d IH]; [discriminate|].
  cbn [dict_get]. destruct (String.eqb_spec k' k) as [->|Hne].
  - intros H. injection H as ->. left. reflexivity.
  - intros H. right. exact (IH H).
Qed.

Lemma cls_tags_class_of (cls : asn1_type) : cls_tags (class_of cls) = tags cls.
Proof. destruct cls; reflexivity. Qed.

Lemma Choice_tag_map_finds (components : list (string * asn1_type))
  (tag_map : list (tag.Tag * string)) (key : string) (c : asn1_type)
  (t_out : tag.Tag) :
  MetaChoice.__new__ (map (fun kc => (fst kc, tags (snd kc))) components)
  = Ok (Some tag_map) ->
  dict_get components key = Some c ->
  MetaChoice.outer_tag (tags c) = Some t_out ->
  Choice.tag_map (map (fun kc => (fst kc, class_of (snd kc))) components)
  = Ok tag_map
  /\ MetaChoice.tag_map_get tag_map t_out = Some key.
Proof.
  intros Hnew Hget Hout. split.
  - unfold Choice.tag_map. rewrite map_map. cbn [fst snd].
    rewrite (map_ext _ (fun kc => (fst kc, tags (snd kc))))
      by (intros kc; rewrite cls_tags_class_of; reflexivity).
    rewrite Hnew. reflexivity.
  - unfold MetaChoice.__new__ in Hnew.
    destruct (map (fun kc => (fst kc, tags (snd kc))) components)
      as [|i items] eqn:Hitems; [discriminate|].
    inv_bind Hnew. injection Hnew as <-.
    destruct (MetaChoice_build_spec _ _ _ _ E) as (_ & Hfind & _).
    destruct (Hfind key (tags c)) as (_ & t & Ht & Hk).
    + rewrite <- Hitems.
      apply (in_map (fun kc => (fst kc, tags (snd kc))) components (key, c)).
      exact (dict_get_In_pair _ _ _ Hget).
    + rewrite Hout in Ht. injection Ht as <-. exact Hk.
Qed.

Lemma encode_framed (cls : asn1_type) (v : inst) :
  exists r, encode cls v = Abstract.encode (tags cls) r.
Proof. destruct cls; eexists; reflexivity. Qed.

Lemma serialized_encoded (c : asn1_type) (v : inst) (content e : str)
  (strict : bool) :
  in_scope c = true -> valid c v = true ->
  encode c v = Ok e -> len e < 2 ^ 1016 ->
  Abstract.encode (tags c) (Ok content) = Ok e ->
  cls_serialized (class_of c) content strict = Ok (canon c v).
Proof.
  intros Hs Hv He Hlen Hc.
  assert (Ht : tagged c = true)
    by (destruct c; cbn [in_scope] in Hs; apply andb_prop in Hs; tauto).
  pose proof (read_encoded c Hs v e [] strict Hv He Hlen) as Hr.
  rewrite (read_framed c content e [] strict Ht Hc Hlen) in Hr.
  destruct (cls_serialized (class_of c) content strict) as [w|x];
    cbn [bind] in Hr; [|discriminate].
  injection Hr as ->. reflexivity.
Qed.

(** X26. An untagged [Choice] with a component set decodes from its
    encoding to the same instance, up to the order of the elements of the
    [SetOf]s in it: [read] returns it with exactly the bytes that follow
    the encoding, whatever the mode.  This holds when the metaclass
    accepted the components, the class of the component is in the scope of
    the round trip, [Tag.read] reads the outermost tag of the component
    back from its bytes, and the encoding is shorter than 2^1016 bytes. *)
Theorem Choice_decode_encode
  (components : list (string * asn1_type)) (tag_map : list (tag.Tag * string))
  (key : string) (c : asn1_type) (t_out : tag.Tag) (v : inst) (e rest : str)
  (strict : bool) :
  MetaChoice.__new__ (map (fun kc => (fst kc, tags (snd kc))) components)
  = Ok (Some tag_map) ->
  dict_get components key = Some c ->
  in_scope c = true ->
  valid c v = true ->
  MetaChoice.outer_tag (tags c) = Some t_out ->
  (forall rest', tag.read (tag.value t_out ++ rest') = Ok (t_out, rest')) ->
  encode (Choice [] components) (VChoice [(key, v)]) = Ok e ->
  len e < 2 ^ 1016 ->
  read (Choice [] components) (e ++ rest) strict
  = Ok (VChoice [(key, canon c v)], rest)
  /\ (rest = [] ->
      decode (Choice [] components) e strict
      = Ok (VChoice [(key, canon c v)])).
Proof.
  intros Hnew Hget Hs Hv Hout Hread He Hlen.
  assert (Hr : read (Choice [] components) (e ++ rest) strict
               = Ok (VChoice [(key, canon c v)], rest)).
  { cbn [encode tags Choice._encode_value] in He.
    rewrite dict_get_map, Hget in He. cbn [option_map] in He.
    change (Abstract.encode [] ?r) with r in He.
    destruct (Choice_tag_map_finds _ _ _ _ _ Hnew Hget Hout) as [Hmap Hkey].
    pose proof He as He'.
    destruct (encode_framed c v) as [r0 Hframed]. rewrite Hframed in He'.
    destruct (Abstract_encode_Ok _ _ _ He') as (content & Hc & _).
    rewrite Hc in He'. clear r0 Hframed Hc.
    unfold MetaChoice.outer_tag in Hout.
    destruct (rev (tags c)) as [|t r] eqn:Hrev; [discriminate|].
    injection Hout as ->.
    assert (Htags : tags c = rev r ++ [t_out]).
    { rewrite <- (rev_involutive (tags c)), Hrev. reflexivity. }
    pose proof He' as Hsnoc. rewrite Htags, Abstract_encode_snoc in Hsnoc.
    inv_bind Hsnoc. inv_bind Hsnoc. injection Hsnoc as Hsnoc.
    assert (Hla : 0 <= len a < 2 ^ 1016).
    { split; [apply len_nonneg|]. rewrite <- Hsnoc in Hlen.
      rewrite !len_app in Hlen.
      pose proof (len_nonneg (tag.value t_out)). pose proof (len_nonneg a0).
      lia. }
    unfold read. cbn [class_of cls_read]. unfold Abstract.read.
    unfold Choice._read.
    replace (tag.read (e ++ rest)) with (Ok (t_out, a0 ++ a ++ rest))
      by (rewrite <- Hsnoc, <- !app_assoc, Hread; reflexivity).
    cbn [bind].
    rewrite (read_length_encode_length _ _ _ Hla E0). cbn [bind].
    rewrite len_app.
    replace (len a + len rest <? len a) with false
      by (symmetry; apply Z.ltb_ge; pose proof (len_nonneg rest); lia).
    replace (len (e ++ rest) - (len a + len rest) + len a) with (len e)
      by (rewrite len_app; lia).
    rewrite !slice_to_app, slice_from_app.
    unfold Choice.__init__, Choice._decode_readahead_value.
    rewrite Hmap. cbn [bind]. rewrite Hkey.
    rewrite dict_get_map, Hget. cbn [option_map].
    rewrite cls_tags_class_of.
    destruct (Z.eqb_spec (len (tags c)) 1) as [H1|H1].
    - assert (Hr0 : r = []).
      { rewrite Htags in H1. unfold len in H1.
        rewrite length_app, length_rev in H1. cbn [List.length] in H1.
        destruct r; [reflexivity | cbn [List.length] in H1; lia]. }
      subst r. cbn [rev app] in E. cbn in E. injection E as <-.
      rewrite (serialized_encoded c v content e true Hs Hv He Hlen He').
      reflexivity.
    - replace (cls_read (class_of c) e strict)
        with (read c (e ++ []) strict)
        by (rewrite app_nil_r; reflexivity).
      rewrite (read_encoded c Hs v e [] strict Hv He Hlen). reflexivity. }
  split; [exact Hr|].
  intros ->. rewrite app_nil_r in Hr. unfold decode, Abstract.decode.
  rewrite Hr. reflexivity.
Qed.

Lemma Choice_decode_encode_witness :
  read FlagChoice ([x01; x01; xff] ++ [x05]) false
  = Ok (VChoice [("flag"%string, VBool true)], [x05]).
Proof.
  apply (proj1 (Choice_decode_encode
                  [("flag"%string, BooleanType)]
                  [(tag.mk 1 tag.UNIVERSAL tag.PRIMITIVE, "flag"%string)]
                  "flag"%string BooleanType
                  (tag.mk 1 tag.UNIVERSAL tag.PRIMITIVE)
                  (VBool true) [x01; x01; xff] [x05] false
                  eq_refl eq_refl eq_refl eq_refl eq_refl
                  (fun rest' => eq_refl) eq_refl
                  ltac:(vm_compute; reflexivity))).
Defined.

(** ** C4: decoding the fields of a Sequence *)

Lemma NoDup_map_inj {A B : Type} (f : A -> B) (l : list A) (x y : A) :
  NoDup (map f l) -> In x l -> In y l -> f x = f y -> x = y.
Proof.
  induction l as [|a l IH]; intros Hnd Hx Hy Hf; [destruct Hx|].
  cbn [map] in Hnd. inversion Hnd as [|? ? Hnin Hnd']; subst.
  destruct Hx as [-> | Hx], Hy as [-> | Hy].
  - reflexivity.
  - exfalso. apply Hnin. rewrite Hf. apply in_map. exact Hy.
  - exfalso. apply Hnin. rewrite <- Hf. apply in_map. exact Hx.
  - exact (IH Hnd' Hx Hy Hf).
Qed.

Lemma decode_components_untouched
  (components : list (Component * Sequence.component_class))
  (strict : bool) (k : string) :
  forall buf ret d rest,
    Sequence.decode_components components buf strict ret = Ok (d, rest) ->
    ~ In k (map (fun c => name (fst c)) components) ->
    dict_get d k = dict_get ret k.
Proof.
  induction components as [|[c cc] components IH]; intros buf ret d rest H Hk.
  - cbn in H. injection H as <- _. reflexivity.
  - cbn [Sequence.decode_components] in H. cbn [map fst] in Hk.
    assert (Hne : name c <> k) by (intros E; apply Hk; left; exact E).
    assert (Hk' : ~ In k (map (fun c => name (fst c)) components))
      by (intros Hin; apply Hk; right; exact Hin).
    destruct (Sequence.value_type_read cc buf strict) as [[v buf']|e].
    + rewrite (IH _ _ _ _ H Hk'). apply dict_get_set_other. exact Hne.
    + destruct e; try discriminate.
      destruct (negb (optional c)); [discriminate|].
      rewrite (IH _ _ _ _ H Hk'). apply dict_get_set_other. exact Hne.
Qed.

Lemma decode_any_untouched
  (components : list (Component * Sequence.component_class))
  (strict : bool) (k : string) :
  forall ret d,
    Sequence.decode_any components strict ret = Ok d ->
    (forall c cc, In (c, cc) components -> name c = k ->
                  defined_by c = None) ->
    dict_get d k = dict_get ret k.
Proof.
  induction components as [|[c cc] components IH]; intros ret d H Hk.
  - cbn in H. injection H as <-. reflexivity.
  - assert (Hk' : forall c0 cc0, In (c0, cc0) components -> name c0 = k ->
                                 defined_by c0 = None)
      by (intros c0 cc0 Hin; apply (Hk c0 cc0); right; exact Hin).
    cbn [Sequence.decode_any] in H.
    destruct (defined_by c) as [db|] eqn:Hdb; [|exact (IH _ _ H Hk')].
    assert (Hne : name c <> k).
    { intros E. specialize (Hk c cc (or_introl eq_refl) E). congruence. }
    destruct (dict_get ret db) as [key|]; [|discriminate].
    inv_bind H. destruct a as [value_type_decode|]; [|exact (IH _ _ H Hk')].
    destruct (dict_get ret (name c)) as [[self|]|]; try discriminate.
    destruct (Any.decode_inner self value_type_decode strict) as [self'|e].
    + rewrite (IH _ _ H Hk'). apply dict_get_set_other. exact Hne.
    + destruct (is_ASN1Error e && negb strict);
        [exact (IH _ _ H Hk') | discriminate].
Qed.

Lemma decode_rest_field (before after : list Component) (component : Component)
  (buf : str) (strict : bool) (ret d : list (string * option inst))
  (o : option inst) :
  NoDup (map name (before ++ component :: after)) ->
  defined_by component = None ->
  decode_rest (before ++ component :: after) after buf strict
    (dict_set ret (name component) o)
  = Ok (VSequence d) ->
  dict_get d (name component) = Some o.
Proof.
  intros Hnd Hdb H. unfold decode_rest in H. inv_bind H.
  destruct a as [ret' rest]. destruct rest; [|discriminate].
  inv_bind H. injection H as <-.
  rewrite (decode_any_untouched _ _ (name component) _ _ E0).
  - rewrite (decode_components_untouched _ _ (name component) _ _ _ _ E).
    + apply dict_get_set_same.
    + rewrite Sequence_components_names.
      rewrite map_app in Hnd. cbn [map] in Hnd.
      apply NoDup_remove_2 in Hnd. intros Hin. apply Hnd.
      apply in_or_app. right. exact Hin.
  - intros c cc Hin Hname. unfold Sequence_components in Hin.
    apply in_map_iff in Hin. destruct Hin as (c0 & Heq & Hin).
    injection Heq as -> _.
    assert (c = component).
    { apply (NoDup_map_inj name _ _ _ Hnd Hin); [|exact Hname].
      apply in_or_app. right. left. reflexivity. }
    subst c. exact Hdb.
Qed.

Lemma decode_rest_last (components : list Component) (strict : bool)
  (ret : list (string * option inst)) :
  Forall (fun c => defined_by c = None) components ->
  decode_rest components [] [] strict ret = Ok (VSequence ret).
Proof.
  intros Hd. unfold decode_rest. cbn [Sequence_components map
    Sequence.decode_components bind].
  rewrite decode_any_no_defined_by by exact Hd. reflexivity.
Qed.

(** C4. Let the decoder of a [Sequence] have processed the components
    [before], in their declared order, leaving [buf] of the contents and the
    dict [ret].  It then reads [buf] against the class of the next
    component.  When the read returns, the decoding goes on after this
    component with the rest of the buffer, and the [Sequence] it returns
    holds the value read for this component.  When the read raises
    [ASN1TagError] and the component is optional, the decoding goes on
    after this component with the same buffer, and the [Sequence] it
    returns holds the default of the component.  When the read raises
    [ASN1TagError] and the component is mandatory, or raises anything
    else, the exception is the outcome of decoding the [Sequence].  Bytes
    left after the last component make the outcome [ASN1Error].  A
    component is optional when it is declared optional or is given a
    default, which it then holds converted to its class. *)
Theorem Sequence_decode_fields (t : list tag.Tag)
  (before : list Component) (component : Component) (after : list Component)
  (contents buf : str) (strict : bool) (ret : list (string * option inst)) :
  Sequence.decode_components (Sequence_components before) contents strict []
  = Ok (ret, buf) ->
  let components := before ++ component :: after in
  let decoded :=
    cls_serialized (class_of (Sequence t components)) contents strict in
  (forall value buf',
      read (value_type component) buf strict = Ok (value, buf') ->
      decoded
      = decode_rest components after buf' strict
          (dict_set ret (name component) (Some value))
      /\ (NoDup (map name components) -> defined_by component = None ->
          forall d, decoded = Ok (VSequence d) ->
                    dict_get d (name component) = Some (Some value))
      /\ (after = [] -> buf' = [] ->
          Forall (fun c => defined_by c = None) components ->
          decoded
          = Ok (VSequence (dict_set ret (name component) (Some value)))))
  /\ (read (value_type component) buf strict = Raise ASN1TagError ->
      optional component = true ->
      decoded
      = decode_rest components after buf strict
          (dict_set ret (name component) (default component))
      /\ (NoDup (map name components) -> defined_by component = None ->
          forall d, decoded = Ok (VSequence d) ->
                    dict_get d (name component) = Some (default component))
      /\ (after = [] -> buf = [] ->
          Forall (fun c => defined_by c = None) components ->
          decoded
          = Ok (VSequence
                  (dict_set ret (name component) (default component)))))
  /\ (read (value_type component) buf strict = Raise ASN1TagError ->
      optional component = false ->
      decoded = Raise ASN1TagError)
  /\ (forall e,
      read (value_type component) buf strict = Raise e ->
      e <> ASN1TagError ->
      decoded = Raise e)
  /\ (forall ret' b rest,
      Sequence.decode_components
        (Sequence_components components) contents strict []
      = Ok (ret', b :: rest) ->
      decoded = Raise ASN1Error)
  /\ (forall n vt opt dflt db lk c,
      ComponentM.__init__ n vt opt dflt db lk = Ok c ->
      (dflt = PyNone -> default c = None /\ optional c = opt)
      /\ (dflt <> PyNone ->
          optional c = true
          /\ exists d, as_instance_of vt (new vt) dflt = Ok d
                       /\ default c = Some d)).
Proof.
  intros Hbefore components decoded.
  assert (Hstep : forall o buf',
             Sequence.decode_components
               (Sequence_components [component]) buf strict ret
             = Ok (dict_set ret (name component) o, buf') ->
             decoded
             = decode_rest components after buf' strict
                 (dict_set ret (name component) o)).
  { intros o buf' H. unfold decoded, components.
    rewrite class_of_Sequence. unfold Sequence._decode_value, decode_rest.
    change (before ++ component :: after)
      with (before ++ [component] ++ after).
    rewrite Sequence_components_app, decode_components_app, Hbefore.
    cbv beta iota.
    rewrite Sequence_components_app, decode_components_app, H.
    reflexivity. }
  assert (Hall : forall o buf',
             Sequence.decode_components
               (Sequence_components [component]) buf strict ret
             = Ok (dict_set ret (name component) o, buf') ->
             decoded
             = decode_rest components after buf' strict
                 (dict_set ret (name component) o)
             /\ (NoDup (map name components) -> defined_by component = None ->
                 forall d, decoded = Ok (VSequence d) ->
                           dict_get d (name component) = Some o)
             /\ (after = [] -> buf' = [] ->
                 Forall (fun c => defined_by c = None) components ->
                 decoded
                 = Ok (VSequence (dict_set ret (name component) o)))).
  { intros o buf' H. pose proof (Hstep o buf' H) as Hd. repeat apply conj.
    - exact Hd.
    - intros Hnd Hdb d Hok. rewrite Hd in Hok.
      exact (decode_rest_field _ _ _ _ _ _ _ _ Hnd Hdb Hok).
    - intros -> -> Hno. rewrite Hd. apply decode_rest_last. exact Hno. }
  repeat apply conj.
  - intros value buf' Hread. apply Hall.
    cbn [Sequence_components map Sequence.decode_components
         Sequence.value_type_read].
    rewrite Hread. reflexivity.
  - intros Hread Hopt. apply Hall.
    cbn [Sequence_components map Sequence.decode_components
         Sequence.value_type_read].
    rewrite Hread, Hopt. reflexivity.
  - intros Hread Hopt. unfold decoded, components.
    rewrite class_of_Sequence. unfold Sequence._decode_value.
    rewrite Sequence_components_app, decode_components_app, Hbefore.
    simpl. rewrite Hread, Hopt. reflexivity.
  - intros e Hread He. unfold decoded, components.
    rewrite class_of_Sequence. unfold Sequence._decode_value.
    rewrite Sequence_components_app, decode_components_app, Hbefore.
    simpl. rewrite Hread. destruct e; try reflexivity. congruence.
  - intros ret' b rest Hleft. unfold decoded.
    rewrite class_of_Sequence. unfold Sequence._decode_value.
    fold components. rewrite Hleft. reflexivity.
  - intros n vt opt dflt db lk c H. unfold ComponentM.__init__ in H.
    inv_bind H. inv_bind H. injection H as <-. cbn [default optional]. split.
    + intros ->. injection E as <-. split; [reflexivity | apply orb_false_r].
    + intros Hne. destruct dflt; try contradiction;
        inv_bind E; injection E as <-;
        (split; [apply orb_true_r | eexists; split; [exact E1 | reflexivity]]).
Qed.

Lemma Sequence_decode_fields_witness :
  cls_serialized (class_of PointType) [x02; x01; x05] true
  = Ok (VSequence [("x"%string, Some (VInt 5)); ("y"%string, None)])
  /\ cls_serialized (class_of PointType) [] true = Raise ASN1TagError
  /\ cls_serialized (class_of PointType) [x02; x01; x05; x05] true
     = Raise ASN1Error.
Proof.
  split; [| split].
  - pose proof (Sequence_decode_fields (universal 16 tag.CONSTRUCTED)
                  [mkComponent "x" IntegerType None None false None []]
                  (mkComponent "y" IntegerType None None true None []) []
                  [x02; x01; x05] [] true [("x"%string, Some (VInt 5))]
                  eq_refl) as (_ & H & _).
    destruct (H eq_refl eq_refl) as (_ & _ & Hlast).
    apply (Hlast eq_refl eq_refl). repeat constructor.
  - pose proof (Sequence_decode_fields (universal 16 tag.CONSTRUCTED)
                  [] (mkComponent "x" IntegerType None None false None [])
                  [mkComponent "y" IntegerType None None true None []]
                  [] [] true [] eq_refl) as (_ & _ & H & _).
    exact (H eq_refl eq_refl).
  - pose proof (Sequence_decode_fields (universal 16 tag.CONSTRUCTED)
                  [] (mkComponent "x" IntegerType None None false None [])
                  [mkComponent "y" IntegerType None None true None []]
                  [x02; x01; x05; x05] [x02; x01; x05; x05] true [] eq_refl)
      as (_ & _ & _ & _ & H & _).
    apply (H [("x"%string, Some (VInt 5)); ("y"%string, None)] x05 []).
    reflexivity.
Defined.

(** ** C1: the round trip over every kind of class *)

















(** *** Equality by value of the instance returned *)










(** *** The classes of scalars and lists *)





(** The conditions of the round trip are needed.  A class without a tag
    that is not a [Choice] or an [Any] encodes and cannot be decoded:
    [Abstract._read] is not implemented. *)
Lemma untagged_class_is_not_decoded (strict : bool) :
  encode (ASN1String []) (VStr [x61]) = Ok [x61]
  /\ decode (ASN1String []) [x61] strict = Raise NotImplementedError.
Proof. split; reflexivity. Qed.

(** An [Any] without tags returns its bytes as they are, and they decode
    only when they are one tag, length and contents: the bytes of a tag and
    of the length 1 with no contents are refused. *)
Lemma Any_of_no_contents_is_not_decoded (strict : bool) :
  new AnyType (PyStr [x02; x01]) = Ok (VAny [x02; x01] None)
  /\ encode AnyType (VAny [x02; x01] None) = Ok [x02; x01]
  /\ decode AnyType [x02; x01] strict = Raise ASN1Error.
Proof. repeat apply conj; destruct strict; reflexivity. Qed.

(** A [Sequence] whose absent optional component cannot be told from the
    component that follows is not decoded: the integer of [y] is read as
    [x], and the mandatory [y] is then missing. *)
Lemma ambiguous_Sequence_is_not_decoded (strict : bool) :
  let cls :=
    SequenceType
      [mkComponent "x" IntegerType None None true None [];
       mkComponent "y" IntegerType None None false None []] in
  new cls (PyDict [("y"%string, PyInt 7)])
  = Ok (VSequence [("x"%string, None); ("y"%string, Some (VInt 7))])
  /\ encode cls (VSequence [("x"%string, None); ("y"%string, Some (VInt 7))])
     = Ok [x30; x03; x02; x01; x07]
  /\ decode cls [x30; x03; x02; x01; x07] strict = Raise ASN1TagError.
Proof. repeat apply conj; destruct strict; reflexivity. Qed.

(** The second pass of a [Sequence] can fail in strict mode: an [Any] that
    holds an integer, defined by a key that says [Boolean], is refused in
    strict mode and left undecoded in lenient mode. *)
Lemma strict_second_pass_is_not_decoded :
  let cls :=
    SequenceType
      [mkComponent "kind" IntegerType None None false None [];
       mkComponent "body" AnyType None None false (Some "kind"%string)
         [(VInt 1, BooleanType)]] in
  let v :=
    VSequence [("kind"%string, Some (VInt 1));
               ("body"%string, Some (VAny [x02; x01; x05] None))] in
  encode cls v = Ok [x30; x06; x02; x01; x01; x02; x01; x05]
  /\ decode cls [x30; x06; x02; x01; x01; x02; x01; x05] true
     = Raise ASN1TagError
  /\ decode cls [x30; x06; x02; x01; x01; x02; x01; x05] false = Ok v.
Proof. repeat apply conj; reflexivity. Qed.
